(** * RangeIE: a Range/Selection adaptor over the host TextRange cursor

    Shallow embedding of [rangeie.js] and of its later revisions, and the
    properties of the coordinate translation, of the Range state and of the
    Selection set that the specification states.

    Three revisions of the file are present in the repository:
    - revision A: [src/rangeie.js];
    - revision B: the first file of [src/unnamed/part_001] (lines 1-893),
      the one with [_checkNode] and the node-transition counting probe;
    - revision C: the second file of [src/unnamed/part_001] (lines 894-1577),
      with the simple distinct-text counting probe.
    Functions whose text is the same in every revision are embedded once;
    the others live in [Module RevA], [Module RevB] and [Module RevC]. *)

From Stdlib Require Import ZArith Lia String Ascii Bool.
From stdpp Require Import base option list gmap strings.

Local Open Scope Z_scope.

(** ** DOM nodes

    A node is a JS object: [ident] is its identity (what [===] compares),
    the other fields are the properties the code reads. *)

Record Node : Type := mkNode {
  ident : nat;
  nodeType : Z;
  nodeName : string;
  nodeValue : string;   (* text nodes: the data; [node.length] is its length *)
  innerText : string;   (* element nodes: the rendered text *)
  outerHTML : string
}.

(** [a === b] on node references. *)
Definition same_node (a b : Node) : bool := Nat.eqb (ident a) (ident b).

(** [_isTextNode]: [return (node.nodeType === 3);] *)
Definition _isTextNode (node : Node) : bool := nodeType node =? 3.

(** [node.length] of a text node, [node.innerText.length] of an element. *)
Definition text_length (node : Node) : Z := Z.of_nat (String.length (nodeValue node)).
Definition innerText_length (node : Node) : Z := Z.of_nat (String.length (innerText node)).

(** The [if (this._isTextNode(cnode)) { txtLen = cnode.length; }
    else { txtLen = cnode.innerText.length; }] that every scan repeats. *)
Definition txtLenOf (cnode : Node) : Z :=
  if _isTextNode cnode then text_length cnode else innerText_length cnode.

(** ** The two scans of revision A (and C) over [this._bounder.childNodes] *)

(** The [for] loop of [_getTextContainer] (rangeie.js 578-603): the first
    child whose running total [totLen] satisfies [totLen >= absOffset];
    the result is [{node, offset : txtLen - (totLen - absOffset)}], or
    [null] when the loop ends without a [break]. *)
Fixpoint textContainerScan (childs : list Node) (totLen absOffset : Z)
  : option (Node * Z) :=
  match childs with
  | [] => None
  | cnode :: rest =>
      let txtLen := txtLenOf cnode in
      let totLen := totLen + txtLen in
      if totLen >=? absOffset
      then Some (cnode, txtLen - (totLen - absOffset))
      else textContainerScan rest totLen absOffset
  end.

(** The [for] loop of [_selectTextNode] (rangeie.js 442-457): stops at the
    first child that is [referenceNode] and yields it with the total length
    of the children before it. *)
Fixpoint selectTextScan (childs : list Node) (totLen : Z) (referenceNode : Node)
  : option (Node * Z) :=
  match childs with
  | [] => None
  | cnode :: rest =>
      if same_node cnode referenceNode
      then Some (cnode, totLen)
      else selectTextScan rest (totLen + txtLenOf cnode) referenceNode
  end.

(** The flat span [(totLen, endVal)] that [_selectTextNode] computes for
    the node it found (rangeie.js 458-464). *)
Definition spanOf (childs : list Node) (referenceNode : Node) : option (Z * Z) :=
  match selectTextScan childs 0 referenceNode with
  | Some (node, totLen) =>
      let endVal :=
        if _isTextNode node then totLen + text_length node
        else totLen + innerText_length node in
      Some (totLen, endVal)
  | None => None
  end.

(** [resolveNodeAt] of the specification is the scan started at total 0. *)
Definition resolveNodeAt (childs : list Node) (absOffset : Z) : option (Node * Z) :=
  textContainerScan childs 0 absOffset.

(** Sum of the lengths of a list of children. *)
Definition sumLens (childs : list Node) : Z :=
  foldr (fun c acc => txtLenOf c + acc) 0 childs.


(** ** JS values held by the public fields of a Range

    The fields are assigned [null], numbers and node references, and are
    [undefined] until their first assignment. *)
Inductive JsVal : Type :=
| JUndefined
| JNull
| JNum (z : Z)
| JNode (n : Node).

(** [v === null] *)
Definition is_null (v : JsVal) : bool :=
  match v with JNull => true | _ => false end.

(** A node reference that may be [null]. *)
Definition of_node (o : option Node) : JsVal :=
  match o with Some n => JNode n | None => JNull end.

(** JS numbers are IEEE doubles; the model holds the integer-valued ones
    as [Z]. [js_number z] is the double nearest to the integer [z] (53
    significant bits, a tie going to the even significand): the result of
    an arithmetic operation whose exact result is [z]. Every integer up to
    [2^53] in absolute value is its own double. (Doubles are finite below
    [2^1024]; nothing is modelled beyond.) *)
Definition js_number (z : Z) : Z :=
  let a := Z.abs z in
  if a <=? 2 ^ 53 then z
  else
    let ulp := 2 ^ (Z.log2 a - 52) in
    let q := a / ulp in
    let r := a mod ulp in
    let q' := if 2 * r <? ulp then q
              else if ulp <? 2 * r then q + 1
              else if Z.even q then q else q + 1 in
    Z.sgn z * (q' * ulp).

(** [a === b] on the values a field can hold. *)
Definition js_same (a b : JsVal) : bool :=
  match a, b with
  | JUndefined, JUndefined => true
  | JNull, JNull => true
  | JNum x, JNum y => x =? y
  | JNode x, JNode y => same_node x y
  | _, _ => false
  end.

(** [a === b] on node references that may be [null]. *)
Definition same_ref (a b : option Node) : bool :=
  match a, b with
  | Some x, Some y => same_node x y
  | None, None => true
  | _, _ => false
  end.

(** ** The Range object

    [_range] is the owned TextRange; it is [None] once [delete this._range]
    has run (reading it then gives [undefined]). TextRange objects are never
    shared between Range objects, so they are kept by value. *)
Record RangeObj (TR : Type) : Type := mkRange {
  _range : option TR;
  _bounder : Node;
  commonAncestorContainer : JsVal;
  startContainer : JsVal;
  startOffset : JsVal;
  endContainer : JsVal;
  endOffset : JsVal
}.
Arguments mkRange {TR}.
Arguments _range {TR}.
Arguments _bounder {TR}.
Arguments commonAncestorContainer {TR}.
Arguments startContainer {TR}.
Arguments startOffset {TR}.
Arguments endContainer {TR}.
Arguments endOffset {TR}.

Definition set_range {TR} (v : option TR) (r : RangeObj TR) : RangeObj TR :=
  mkRange v (_bounder r) (commonAncestorContainer r) (startContainer r)
          (startOffset r) (endContainer r) (endOffset r).
Definition set_commonAncestorContainer {TR} (v : JsVal) (r : RangeObj TR) : RangeObj TR :=
  mkRange (_range r) (_bounder r) v (startContainer r)
          (startOffset r) (endContainer r) (endOffset r).
Definition set_startContainer {TR} (v : JsVal) (r : RangeObj TR) : RangeObj TR :=
  mkRange (_range r) (_bounder r) (commonAncestorContainer r) v
          (startOffset r) (endContainer r) (endOffset r).
Definition set_startOffset {TR} (v : JsVal) (r : RangeObj TR) : RangeObj TR :=
  mkRange (_range r) (_bounder r) (commonAncestorContainer r) (startContainer r)
          v (endContainer r) (endOffset r).
Definition set_endContainer {TR} (v : JsVal) (r : RangeObj TR) : RangeObj TR :=
  mkRange (_range r) (_bounder r) (commonAncestorContainer r) (startContainer r)
          (startOffset r) v (endOffset r).
Definition set_endOffset {TR} (v : JsVal) (r : RangeObj TR) : RangeObj TR :=
  mkRange (_range r) (_bounder r) (commonAncestorContainer r) (startContainer r)
          (startOffset r) (endContainer r) v.

(** The Empty state of the specification: the three containers [null],
    both offsets [0]. *)
Definition is_Empty {TR} (r : RangeObj TR) : Prop :=
  commonAncestorContainer r = JNull /\ startContainer r = JNull /\
  endContainer r = JNull /\ startOffset r = JNum 0 /\ endOffset r = JNum 0.

(** ** The host

    The TextRange primitive, the active selection, the editing commands and
    the DOM queries are the host's; the code only calls them. [Doc] is the
    state of the host (document and active selection), [TR] the state of one
    TextRange. The name of each field is the name of the host member. *)
Class Host (Doc TR : Type) : Type := {
  (* document.selection.createRange() *)
  doc_createRange : Doc -> TR;
  (* window.document.activeElement *)
  doc_activeElement : Doc -> Node;
  (* window.document.body, window.document *)
  doc_body : Doc -> Node;
  doc_document : Doc -> Node;
  (* window.document.execCommand(cmd) *)
  doc_execCommand : Doc -> string -> Doc;
  (* node.childNodes *)
  dom_childNodes : Doc -> Node -> list Node;
  (* node.parentNode, node.parentNode.parentNode, ... up to the last one *)
  dom_ancestors : Doc -> Node -> list Node;
  (* a.contains(b) *)
  dom_contains : Doc -> Node -> Node -> bool;
  (* the current node.innerText of a node kept across calls *)
  dom_innerText : Doc -> Node -> string;
  (* r.moveToElementText(node), where node may be null; the result is
     [None] when the host raises its own error *)
  tr_moveToElementText : Doc -> TR -> option Node -> option TR;
  (* r.moveStart('character', n), r.moveEnd('character', n): the moved
     TextRange and the signed number of characters actually moved *)
  tr_moveStart : Doc -> TR -> Z -> TR * Z;
  tr_moveEnd : Doc -> TR -> Z -> TR * Z;
  (* r.collapse(toStart) *)
  tr_collapse : Doc -> TR -> bool -> TR;
  (* r.select(): the TextRange becomes the active selection *)
  tr_select : Doc -> TR -> Doc;
  (* r.parentElement(), possibly null *)
  tr_parentElement : Doc -> TR -> option Node;
  (* r.text, r.htmlText *)
  tr_text : Doc -> TR -> string;
  tr_htmlText : Doc -> TR -> string;
  (* r.pasteHTML(data) *)
  tr_pasteHTML : Doc -> TR -> string -> Doc * TR;
  (* s.toLowerCase() *)
  js_toLowerCase : string -> string;
  (* (new RegExp('.*?' + funcName + '.*', 'i')).exec(src): the match m[0] *)
  js_execCallerRegExp : string -> string -> option string;
  (* s.replace(/(^\s+|\s+$)/, '') *)
  js_stripOnce : string -> string
}.

(** The host primitives on cursors, selection and document editing that
    the code invokes, in the order of invocation. *)
Inductive Call : Type :=
| CreateRange
| MoveToElementText (node : option Node)
| MoveStart (n : Z)
| MoveEnd (n : Z)
| Collapse (toStart : bool)
| Duplicate
| Select
| ParentElement
| Text
| HtmlText
| PasteHTML (data : string)
| ExecCommand (cmd : string).

(** The world: the host state, the Range objects by reference, and the
    host primitives invoked so far. *)
Record World (Doc TR : Type) : Type := mkWorld {
  doc : Doc;
  heap : list (RangeObj TR);
  calls : list Call
}.
Arguments mkWorld {Doc TR}.
Arguments doc {Doc TR}.
Arguments heap {Doc TR}.
Arguments calls {Doc TR}.

(** ** The monad of method bodies: state, exceptions, and fuel for the
    [while (true)] loops *)

Inductive Exn : Type :=
| RangeIEError (msg : string)   (* [throw (new Error(s))] of [_checkNode] *)
| TypeError                     (* member access on [undefined] or [null] *)
| HostError.                    (* raised by a host primitive *)

Inductive Res (S A : Type) : Type :=
| Ok (a : A) (s : S)
| Throw (e : Exn) (s : S)
| OutOfFuel.
Arguments Ok {S A}.
Arguments Throw {S A}.
Arguments OutOfFuel {S A}.

Definition M (S A : Type) : Type := S -> Res S A.

#[global] Instance M_ret {S} : MRet (M S) := fun A a s => Ok a s.
#[global] Instance M_bind {S} : MBind (M S) := fun A B f c s =>
  match c s with
  | Ok a s' => f a s'
  | Throw e s' => Throw e s'
  | OutOfFuel => OutOfFuel
  end.

Definition throw {S A} (e : Exn) : M S A := fun s => Throw e s.

(** ** Host calls as monadic actions

    Each action performs the host member on the current document and
    records the call. A TextRange is a value: a method that moves it
    returns the moved TextRange. *)
Module TextRange.
Section WithHost.
Context {Doc TR : Type} `{!Host Doc TR}.
Local Abbreviation W := (World Doc TR).

Definition record (c : Call) (w : W) : W :=
  mkWorld (doc w) (heap w) (calls w ++ [c]).

(** [document.selection.createRange()] *)
Definition createRange : M W TR :=
  fun w => Ok (doc_createRange (doc w)) (record CreateRange w).

Definition moveToElementText (r : TR) (node : option Node) : M W TR :=
  fun w => match tr_moveToElementText (doc w) r node with
           | Some r' => Ok r' (record (MoveToElementText node) w)
           | None => Throw HostError (record (MoveToElementText node) w)
           end.

Definition moveStart (r : TR) (n : Z) : M W (TR * Z) :=
  fun w => Ok (tr_moveStart (doc w) r n) (record (MoveStart n) w).

Definition moveEnd (r : TR) (n : Z) : M W (TR * Z) :=
  fun w => Ok (tr_moveEnd (doc w) r n) (record (MoveEnd n) w).

Definition collapse (r : TR) (toStart : bool) : M W TR :=
  fun w => Ok (tr_collapse (doc w) r toStart) (record (Collapse toStart) w).

Definition duplicate (r : TR) : M W TR :=
  fun w => Ok r (record Duplicate w).

Definition select (r : TR) : M W unit :=
  fun w => Ok tt (mkWorld (tr_select (doc w) r) (heap w) (calls w ++ [Select])).

Definition parentElement (r : TR) : M W (option Node) :=
  fun w => Ok (tr_parentElement (doc w) r) (record ParentElement w).

Definition text (r : TR) : M W string :=
  fun w => Ok (tr_text (doc w) r) (record Text w).

Definition htmlText (r : TR) : M W string :=
  fun w => Ok (tr_htmlText (doc w) r) (record HtmlText w).

Definition pasteHTML (r : TR) (data : string) : M W TR :=
  fun w => let '(d, r') := tr_pasteHTML (doc w) r data in
           Ok r' (mkWorld d (heap w) (calls w ++ [PasteHTML data])).

(** [window.document.execCommand(cmd)] *)
Definition execCommand (cmd : string) : M W unit :=
  fun w => Ok tt (mkWorld (doc_execCommand (doc w) cmd) (heap w)
                          (calls w ++ [ExecCommand cmd])).
End WithHost.
End TextRange.

(** ** What every revision shares *)
Module Common.
Section WithHost.
Context {Doc TR : Type} `{!Host Doc TR}.
Local Abbreviation W := (World Doc TR).

(** Reading the object [this]. *)
Definition load (this : nat) : M W (RangeObj TR) :=
  fun w => match heap w !! this with
           | Some r => Ok r w
           | None => Throw TypeError w
           end.

(** The world where the object [this] has become [r]. *)
Definition store (this : nat) (r : RangeObj TR) (w : W) : W :=
  mkWorld (doc w) (<[this := r]> (heap w)) (calls w).

(** Assigning a property of [this]. *)
Definition update (this : nat) (f : RangeObj TR -> RangeObj TR) : M W unit :=
  fun w => match heap w !! this with
           | Some r => Ok tt (store this (f r) w)
           | None => Throw TypeError w
           end.

(** Reading [this._range] in order to call a method on it. *)
Definition cursor (this : nat) : M W TR :=
  r ← load this;
  match _range r with
  | Some tr => mret tr
  | None => throw TypeError
  end.

(** DOM reads. *)
Definition childNodes (node : Node) : M W (list Node) :=
  fun w => Ok (dom_childNodes (doc w) node) w.
Definition contains (a b : Node) : M W bool :=
  fun w => Ok (dom_contains (doc w) a b) w.
Definition body : M W Node := fun w => Ok (doc_body (doc w)) w.
Definition document : M W Node := fun w => Ok (doc_document (doc w)) w.
Definition activeElement : M W Node := fun w => Ok (doc_activeElement (doc w)) w.

(** [this._range.m(...)] for the methods of the TextRange. *)
Definition range_moveToElementText (this : nat) (node : Node) : M W unit :=
  tr ← cursor this;
  tr' ← TextRange.moveToElementText tr (Some node);
  update this (set_range (Some tr')).

Definition range_moveStart (this : nat) (n : Z) : M W Z :=
  tr ← cursor this;
  '(tr', m) ← TextRange.moveStart tr n;
  update this (set_range (Some tr'));;
  mret m.

Definition range_moveEnd (this : nat) (n : Z) : M W Z :=
  tr ← cursor this;
  '(tr', m) ← TextRange.moveEnd tr n;
  update this (set_range (Some tr'));;
  mret m.

Definition range_collapse (this : nat) (toStart : bool) : M W unit :=
  tr ← cursor this;
  tr' ← TextRange.collapse tr toStart;
  update this (set_range (Some tr')).

Definition range_select (this : nat) : M W unit :=
  tr ← cursor this;
  TextRange.select tr.

Definition range_parentElement (this : nat) : M W (option Node) :=
  tr ← cursor this;
  TextRange.parentElement tr.

Definition range_text (this : nat) : M W string :=
  tr ← cursor this;
  TextRange.text tr.

Definition range_pasteHTML (this : nat) (data : string) : M W unit :=
  tr ← cursor this;
  tr' ← TextRange.pasteHTML tr data;
  update this (set_range (Some tr')).

(** [_reset]:
    [this.commonAncestorContainer = null; this.endContainer = null;
     this.endOffset = 0; this.startContainer = null; this.endOffset = 0;
     return true;] *)
Definition _reset (this : nat) : M W bool :=
  update this (set_commonAncestorContainer JNull);;
  update this (set_endContainer JNull);;
  update this (set_endOffset (JNum 0));;
  update this (set_startContainer JNull);;
  update this (set_endOffset (JNum 0));;
  mret true.

(** [RangeIE.Range = function() {...}]: a fresh object, whose properties
    are all [undefined], gets [_range] and [_bounder], and is reset.
    The reference to the new object is returned. (Revisions B and C also
    set [this.isRangeIE = true], which no method reads.) *)
Definition new_Range : M W nat :=
  tr ← TextRange.createRange;
  bounder ← activeElement;
  this ← (fun w =>
            Ok (length (heap w))
               (mkWorld (doc w)
                  (heap w ++ [mkRange (Some tr) bounder JUndefined JUndefined
                                      JUndefined JUndefined JUndefined])
                  (calls w)));
  _reset this;;
  mret this.

(** [detach]: [delete this._range; this._reset(); return true;] *)
Definition detach (this : nat) : M W bool :=
  update this (set_range None);;
  _reset this;;
  mret true.

(** [deleteContents]:
    [window.document.execCommand('Delete'); this._reset(); return true;] *)
Definition deleteContents (this : nat) : M W bool :=
  TextRange.execCommand "Delete";;
  _reset this;;
  mret true.

(** [toString]: [ret = this._range.text; return ret;] *)
Definition toString (this : nat) : M W string :=
  range_text this.

(** [_selectElmNode] *)
Definition _selectElmNode (this : nat) (referenceNode : Node) : M W bool :=
  range_moveToElementText this referenceNode;;
  range_moveStart this (-1);;
  range_moveEnd this 1;;
  mret true.

(** [_getElmOffset] *)
Definition _getElmOffset : M W Z :=
  r1 ← TextRange.createRange;
  r2 ← TextRange.createRange;
  p ← TextRange.parentElement r1;
  r1 ← TextRange.moveToElementText r1 p;
  '(r1, m1) ← TextRange.moveStart r1 (-100000000);
  let s1 := Z.abs m1 in
  '(r2, m2) ← TextRange.moveStart r2 (-100000000);
  let s2 := Z.abs m2 in
  let offset := s2 - s1 in
  mret offset.

(** [_getNodeContainer] *)
Definition _getNodeContainer (this : nat) : M W (option (JsVal * Z)) :=
  node ← range_parentElement this;
  offset ← _getElmOffset;
  mret (Some (of_node node, offset)).

(** The object [r] after the assignments of [_reset]. *)
Definition reset_fields (r : RangeObj TR) : RangeObj TR :=
  mkRange (_range r) (_bounder r) JNull JNull (startOffset r) JNull (JNum 0).

(** [_isChild] of revisions A and C, named [_isBreakout] in revision B. *)
Definition _isChild (parent child : option Node) : M W bool :=
  match parent with
  | None => mret false
  | Some parent =>
      match child with
      | None => mret false
      | Some child =>
          if same_node parent child then mret true
          else
            b ← body;
            d ← document;
            if same_node child b || same_node child d then mret false
            else
              c ← contains child parent;
              if (c : bool) then mret false
              else contains parent child
      end
  end.

(** An action that leaves the host state (document and active selection)
    as it found it, whether it returns or throws. *)
Definition keeps_doc {A : Type} (c : M W A) : Prop :=
  forall w : W,
    match c w with
    | Ok _ w' => doc w' = doc w
    | Throw _ w' => doc w' = doc w
    | OutOfFuel => True
    end.

(** The document satisfies [good], and the Range object [this] exists,
    owns a TextRange and is bound to the Container [bounder]. *)
Definition live (good : Doc -> Prop) (this : nat) (bounder : Node) (w : W) : Prop :=
  good (doc w) /\
  exists (r : RangeObj TR) (tr : TR),
    heap w !! this = Some r /\ _range r = Some tr /\ _bounder r = bounder.

(** An action that, on a live Range, returns and leaves the Range live. *)
Definition returns (good : Doc -> Prop) (this : nat) (bounder : Node)
    {A : Type} (c : M W A) : Prop :=
  forall w : W, live good this bounder w ->
    exists (a : A) (w' : W), c w = Ok a w' /\ live good this bounder w'.

(** An action that touches nothing but the public fields of the Range
    [this]: the host state, the other Range objects, and the TextRange and
    Container of [this] are as it found them, whether it returns or
    throws. *)
Definition only_fields (this : nat) {A : Type} (c : M W A) : Prop :=
  forall w : W,
    let kept (w' : W) :=
      doc w' = doc w /\
      length (heap w') = length (heap w) /\
      (forall other, other <> this -> heap w' !! other = heap w !! other) /\
      (forall r, heap w !! this = Some r ->
         exists r', heap w' !! this = Some r' /\
                    _range r' = _range r /\ _bounder r' = _bounder r) in
    match c w with
    | Ok _ w' => kept w'
    | Throw _ w' => kept w'
    | OutOfFuel => True
    end.

(** An action that only reads: the host state and every Range object are
    as it found them, whether it returns or throws; all it leaves behind
    is the record of its host calls. *)
Definition reads_only {A : Type} (c : M W A) : Prop :=
  forall w : W,
    match c w with
    | Ok _ w' => doc w' = doc w /\ heap w' = heap w
    | Throw _ w' => doc w' = doc w /\ heap w' = heap w
    | OutOfFuel => True
    end.

(** The Range object [this] has been detached: it owns no TextRange, its
    containers are [null] and its end offset is [0]. *)
Definition is_detached (this : nat) (w : W) : Prop :=
  exists r : RangeObj TR,
    heap w !! this = Some r /\ _range r = None /\
    commonAncestorContainer r = JNull /\ startContainer r = JNull /\
    endContainer r = JNull /\ endOffset r = JNum 0.

(** What [_isChild(parent, child)] returns on the document [d]. *)
Definition isChild_on (d : Doc) (parent child : option Node) : bool :=
  match parent with
  | None => false
  | Some parent =>
      match child with
      | None => false
      | Some child =>
          if same_node parent child then true
          else if same_node child (doc_body d) || same_node child (doc_document d)
          then false
          else if dom_contains d child parent then false
          else dom_contains d parent child
      end
  end.

(** Whether the start of the TextRange [r1] is inside the Container:
    [r2 = r1.duplicate(); r2.collapse(true); p = r2.parentElement();
     this._isBreakout(this._bounder, p)]. *)
Definition start_inside (d : Doc) (bounder : Node) (r1 : TR) : bool :=
  isChild_on d (Some bounder) (tr_parentElement d (tr_collapse d r1 true)).
End WithHost.
End Common.

(** ** The Selection object

    [_ranges] is a JS array of Range references; [None] is a hole, the slot
    that [delete this._ranges[index]] leaves behind ([_ranges.length] keeps
    counting it, reading it gives [undefined]). *)
Record Selection : Type := mkSelection {
  _ranges : list (option nat)
}.

(** [this._ranges[index]], [None] standing for [undefined]. *)
Definition range_at (sel : Selection) (index : nat) : option nat :=
  match _ranges sel !! index with
  | Some (Some range) => Some range
  | _ => None
  end.

(** ** Revision A: [src/rangeie.js] *)
Module RevA.
Section WithHost.
Context {Doc TR : Type} `{!Host Doc TR}.
Local Abbreviation W := (World Doc TR).
Import Common.

(** [_getTextAbsOffset] (rangeie.js 639-648) *)
Definition _getTextAbsOffset (this : nat) : M W Z :=
  r1 ← TextRange.createRange;
  r2 ← TextRange.createRange;
  r ← load this;
  r1 ← TextRange.moveToElementText r1 (Some (_bounder r));
  '(r1, m1) ← TextRange.moveStart r1 (-100000000);
  let s1 := Z.abs m1 in
  '(r2, m2) ← TextRange.moveStart r2 (-100000000);
  let s2 := Z.abs m2 in
  let offset := s2 - s1 in
  mret offset.

(** [_getTextContainer] (rangeie.js 570-603) *)
Definition _getTextContainer (this : nat) : M W (option (JsVal * Z)) :=
  r ← load this;
  childs ← childNodes (_bounder r);
  absOffset ← _getTextAbsOffset this;
  match textContainerScan childs 0 absOffset with
  | Some (node, offset) => mret (Some (JNode node, offset))
  | None => mret None
  end.

(** [_getContainer] (rangeie.js 534-546) *)
Definition _getContainer (this : nat) : M W (option (JsVal * Z)) :=
  parent ← range_parentElement this;
  r ← load this;
  if same_ref parent (Some (_bounder r))
  then _getTextContainer this
  else _getNodeContainer this.

(** [_refresh] (rangeie.js 513-526):
    [this.commonAncestorContainer = container.node;
     this.endContainer = container.node;
     this.endContainer = container.offset;
     this.startContainer = container.node;
     this.startOffset = container.offset;] *)
Definition _refresh (this : nat) : M W bool :=
  container ← _getContainer this;
  match container with
  | None => _reset this
  | Some (node, offset) =>
      update this (set_commonAncestorContainer node);;
      update this (set_endContainer node);;
      update this (set_endContainer (JNum offset));;
      update this (set_startContainer node);;
      update this (set_startOffset (JNum offset));;
      mret true
  end;;
  mret true.

(** [_selectTextNode] (rangeie.js 435-476) *)
Definition _selectTextNode (this : nat) (referenceNode : Node) : M W bool :=
  r ← load this;
  childs ← childNodes (_bounder r);
  match spanOf childs referenceNode with
  | Some (totLen, endVal) =>
      range_moveToElementText this (_bounder r);;
      range_collapse this true;;
      range_moveStart this totLen;;
      range_moveEnd this endVal;;
      mret true
  | None =>
      range_moveStart this (-10000000);;
      range_moveEnd this (-10000000);;
      mret false
  end.

(** [_selectNode] (rangeie.js 419-426) *)
Definition _selectNode (this : nat) (referenceNode : Node) : M W bool :=
  if _isTextNode referenceNode
  then _selectTextNode this referenceNode
  else _selectElmNode this referenceNode.

(** [selectNode] (rangeie.js 262-273) *)
Definition selectNode (this : nat) (referenceNode : Node) : M W bool :=
  st ← _selectNode this referenceNode;
  (if (st : bool)
   then range_select this;; _refresh this
   else _reset this);;
  mret true.

(** [selectNodeContents] (rangeie.js 282-287) *)
Definition selectNodeContents (this : nat) (referenceNode : Node) : M W bool :=
  range_moveToElementText this referenceNode;;
  range_select this;;
  _refresh this;;
  mret true.

(** The anchor step of [setStart] and [setEnd]:
    [st = true;
     if (this.commonAncestorContainer === null) { st = this._selectNode(node); }] *)
Definition anchor (this : nat) (node : Node) : M W bool :=
  r ← load this;
  if is_null (commonAncestorContainer r)
  then _selectNode this node
  else mret true.

(** [setStart] (rangeie.js 299-314) *)
Definition setStart (this : nat) (startNode : Node) (startOffset : Z) : M W bool :=
  st ← anchor this startNode;
  (if (st : bool)
   then range_moveStart this startOffset;;
        range_select this;;
        _refresh this
   else _reset this);;
  mret st.

(** [setEnd] (rangeie.js 326-348): [offset = -(txtLen - endOffset)], the
    subtraction being one on JS numbers; [endOffset] is the value of the
    number passed. *)
Definition setEnd (this : nat) (endNode : Node) (endOffset : Z) : M W bool :=
  st ← anchor this endNode;
  (if (st : bool)
   then
     let txtLen :=
       if _isTextNode endNode then text_length endNode
       else innerText_length endNode in
     let offset := - js_number (txtLen - endOffset) in
     range_moveEnd this offset;;
     range_select this;;
     _refresh this
   else _reset this);;
  mret st.

(** [collapse] (rangeie.js 357-361) *)
Definition collapse (this : nat) (toStart : bool) : M W bool :=
  range_collapse this toStart;;
  _refresh this;;
  mret true.

(** [insertNode] (rangeie.js 370-375) *)
Definition insertNode (this : nat) (referenceNode : Node) : M W bool :=
  collapse this true;;
  range_pasteHTML this (outerHTML referenceNode);;
  _refresh this;;
  mret true.

(** *** Selection *)

(** [addRange] (rangeie.js 113-116) *)
Definition addRange (sel : Selection) (range : nat) : M W (Selection * bool) :=
  mret (mkSelection (_ranges sel ++ [Some range]), true).

(** [RangeIE.Selection = function() {...}] (rangeie.js 91-99) *)
Definition new_Selection : M W Selection :=
  range ← new_Range;
  _refresh range;;
  '(sel, _) ← addRange (mkSelection []) range;
  mret sel.

(** [getRangeAt] (rangeie.js 126-128); [None] is [undefined]. *)
Definition getRangeAt (sel : Selection) (index : nat) : M W (option nat) :=
  mret (range_at sel index).

(** [_removeRange] (rangeie.js 229-233):
    [this._ranges[index].detach(); delete this._ranges[index]; return true;] *)
Definition _removeRange (sel : Selection) (index : nat) : M W (Selection * bool) :=
  match range_at sel index with
  | Some range =>
      detach range;;
      mret (mkSelection (<[index := None]> (_ranges sel)), true)
  | None => throw TypeError
  end.

(** The loop [for (i = n-1; i >= 0; i--)] of [removeAllRanges]. *)
Fixpoint removeAllRanges_from (n : nat) (sel : Selection) : M W Selection :=
  match n with
  | O => mret sel
  | S i =>
      '(sel, _) ← _removeRange sel i;
      removeAllRanges_from i sel
  end.

(** [removeAllRanges] (rangeie.js 136-142) *)
Definition removeAllRanges (sel : Selection) : M W (Selection * bool) :=
  sel ← removeAllRanges_from (length (_ranges sel)) sel;
  mret (sel, true).

(** The loop [for (i = n-1; i >= 0; i--)] of [removeRange], with its
    [break] after the first removal; the result carries [found]. *)
Fixpoint removeRange_from (n : nat) (sel : Selection) (range : nat)
  : M W (Selection * bool) :=
  match n with
  | O => mret (sel, false)
  | S i =>
      match range_at sel i with
      | Some r =>
          if Nat.eqb r range
          then '(sel, _) ← _removeRange sel i; mret (sel, true)
          else removeRange_from i sel range
      | None => removeRange_from i sel range
      end
  end.

(** [removeRange] (rangeie.js 151-162) *)
Definition removeRange (sel : Selection) (range : nat) : M W (Selection * bool) :=
  removeRange_from (length (_ranges sel)) sel range.

(** [collapseToStart] (rangeie.js 170-181) *)
Definition collapseToStart (sel : Selection) : M W bool :=
  if (0 <? length (_ranges sel))%nat
  then
    match range_at sel 0 with
    | Some range =>
        collapse range true;;
        range_select range;;
        mret true
    | None => throw TypeError
    end
  else mret false.

(** [collapseToEnd] (rangeie.js 190-201) *)
Definition collapseToEnd (sel : Selection) : M W bool :=
  if (0 <? length (_ranges sel))%nat
  then
    match range_at sel (length (_ranges sel) - 1) with
    | Some range =>
        collapse range false;;
        range_select range;;
        mret true
    | None => throw TypeError
    end
  else mret false.

(** The loop of the Selection's [toString] (rangeie.js 213-218) over the
    slots from index [i] on; a space follows every text but the last
    ([i < _i-1]). *)
Fixpoint Selection_toString_from (slots : list (option nat)) (ret : string)
  : M W string :=
  match slots with
  | [] => mret ret
  | slot :: rest =>
      match slot with
      | Some range =>
          s ← toString range;
          let ret := String.append ret s in
          let ret := match rest with
                     | [] => ret
                     | _ :: _ => String.append ret " "
                     end in
          Selection_toString_from rest ret
      | None => throw TypeError
      end
  end.

(** [toString] of the Selection (rangeie.js 210-220) *)
Definition Selection_toString (sel : Selection) : M W string :=
  Selection_toString_from (_ranges sel) "".
End WithHost.
End RevA.

(** ** Revision B: first file of [src/unnamed/part_001] (lines 1-893) *)
Module RevB.

(** The value [{nodeIndex, relOffset, absOffset}] of [_getTextAbsOffset]. *)
Record OffsetFinder : Type := mkOffsetFinder {
  nodeIndex : Z;
  relOffset : Z;
  absOffset : Z
}.

(** The variables of the probing loop that live across iterations. *)
Record Probe (TR : Type) : Type := mkProbe {
  p_r1 : TR;
  p_i : Z;
  p_rt : string;
  p_j : Z;
  p_prevPar : option Node;
  p_elmCount : Z;
  p_relOffset : Z
}.
Arguments mkProbe {TR}.
Arguments p_r1 {TR}.
Arguments p_i {TR}.
Arguments p_rt {TR}.
Arguments p_j {TR}.
Arguments p_prevPar {TR}.
Arguments p_elmCount {TR}.
Arguments p_relOffset {TR}.

(** The text of the error of [_checkNode] before the caller string. *)
Definition checkNode_message : string :=
  "RangeIE: When inserting or selecting nodes, the node must already exist in the document. It must have been previously added to the DOM using appendChild, insertBefore or other such DOM methods. Error occurred at: ".

(** The [for] loop of [_selectTextNode] (part_001 406-418): the total
    length of the children before [referenceNode], of all of them when it
    is not among them. *)
Fixpoint lengthBefore (childs : list Node) (totLen : Z) (referenceNode : Node) : Z :=
  match childs with
  | [] => totLen
  | cnode :: rest =>
      if same_node cnode referenceNode then totLen
      else lengthBefore rest (totLen + txtLenOf cnode) referenceNode
  end.

(** The [do ... while (offsetFinder.nodeIndex >= 0)] of [_getTextContainer]
    (part_001 554-563): the child at [nodeIndex], or at the nearest lower
    index that holds one, else [undefined]. *)
Fixpoint lastDefined (childs : list Node) (nodeIndex : nat) : JsVal :=
  match childs !! nodeIndex with
  | Some node => JNode node
  | None =>
      match nodeIndex with
      | O => JUndefined
      | S n => lastDefined childs n
      end
  end.

(** [cnode.length || 1], [cnode.innerText.length || 1]: a length of 0
    counts as 1. *)
Definition txtLenOr1 (cnode : Node) : Z :=
  if txtLenOf cnode =? 0 then 1 else txtLenOf cnode.

(** The [for] loop of [_getTextContainer2] (part_001 610-636). *)
Fixpoint textContainerScan2 (childs : list Node) (totLen absOffset : Z)
  : option (Node * Z) :=
  match childs with
  | [] => None
  | cnode :: rest =>
      let txtLen := txtLenOr1 cnode in
      let totLen := totLen + txtLen in
      if totLen >=? absOffset
      then Some (cnode, txtLen - (totLen - absOffset))
      else textContainerScan2 rest totLen absOffset
  end.

Section WithHost.
Context {Doc TR : Type} `{!Host Doc TR}.
Local Abbreviation W := (World Doc TR).
Import Common.

(** [_isBreakout] (part_001 778-795) has the body of [_isChild]. *)
Definition _isBreakout (parent child : option Node) : M W bool :=
  _isChild parent child.

(** [_isNonPrintTextRangeChar] (part_001 666-675) *)
Definition _isNonPrintTextRangeChar (range : TR) : M W bool :=
  h ← TextRange.htmlText range;
  let nodeDesc := js_toLowerCase h in
  if String.eqb nodeDesc "<br>" then mret true else mret false.

(** One iteration of the [while (true)] of [_getTextAbsOffset]
    (part_001 694-726): [inl] the loop variables for the next iteration,
    [inr] the loop variables at a [break], as [out] is built from them. *)
Definition probe_step (bounder : Node) (st : Probe TR)
  : M W (Probe TR + OffsetFinder) :=
  '(r1, mv) ← TextRange.moveStart (p_r1 st) (-1);
  let m := Z.abs mv in
  r2 ← TextRange.duplicate r1;
  r3 ← TextRange.duplicate r1;
  r3 ← TextRange.collapse r3 true;
  '(r3, _) ← TextRange.moveEnd r3 1;
  r2 ← TextRange.collapse r2 true;
  p ← TextRange.parentElement r2;
  inside ← _isBreakout (Some bounder) p;
  if negb inside
  then mret (inr (mkOffsetFinder (p_elmCount st) (p_relOffset st) (p_i st)))
  else
    t1 ← TextRange.text r1;
    changed ← (if negb (String.eqb t1 "")
               then t2 ← TextRange.text r1; mret (negb (String.eqb (p_rt st) t2))
               else mret false);
    let i := if (changed : bool) then p_i st + 1 else p_i st in
    rt ← TextRange.text r1;
    (* Prevent runaway loops here *)
    if m =? 0
    then mret (inr (mkOffsetFinder (p_elmCount st) (p_relOffset st) 0))
    else
      nonPrint ← _isNonPrintTextRangeChar r3;
      (* We have hit a new element *)
      if (nonPrint : bool) || negb (same_ref (p_prevPar st) p)
      then mret (inl (mkProbe r1 i rt (p_j st + 1) p
                              (p_elmCount st + 1) (p_relOffset st)))
      (* if on first element, incremenent relative offset *)
      else if p_elmCount st <=? 0
      then mret (inl (mkProbe r1 i rt (p_j st + 1) p
                              (p_elmCount st) (p_relOffset st + 1)))
      else mret (inl (mkProbe r1 i rt (p_j st + 1) p
                              (p_elmCount st) (p_relOffset st))).

(** The [while (true)] loop, with fuel. *)
Fixpoint probe_loop (fuel : nat) (bounder : Node) (st : Probe TR)
  : M W OffsetFinder :=
  match fuel with
  | O => fun _ => OutOfFuel
  | S fuel =>
      next ← probe_step bounder st;
      match next with
      | inl st' => probe_loop fuel bounder st'
      | inr out => mret out
      end
  end.

(** The iterations the loop can reach: [probe_reaches bounder st w st' w']
    when some iterations from the loop variables [st] in the world [w],
    none of them a [break], lead to [st'] in [w']. *)
Inductive probe_reaches (bounder : Node) : Probe TR -> W -> Probe TR -> W -> Prop :=
| reaches_here (st : Probe TR) (w : W) : probe_reaches bounder st w st w
| reaches_next (st st1 st2 : Probe TR) (w w1 w2 : W) :
    probe_step bounder st w = Ok (inl st1) w1 ->
    probe_reaches bounder st1 w1 st2 w2 ->
    probe_reaches bounder st w st2 w2.

(** The loop variables before the first iteration (part_001 686-693). *)
Definition probe_init (r1 : TR) : Probe TR :=
  mkProbe r1 0 "" 0 None (-1) 1.

(** [_getTextAbsOffset] (part_001 683-733) *)
Definition _getTextAbsOffset (fuel : nat) (this : nat) : M W OffsetFinder :=
  r1 ← TextRange.createRange;
  r ← load this;
  probe_loop fuel (_bounder r) (probe_init r1).

(** [_getTextContainer] (part_001 546-590) *)
Definition _getTextContainer (fuel : nat) (this : nat) : M W (option (JsVal * Z)) :=
  r ← load this;
  childs ← childNodes (_bounder r);
  offsetFinder ← _getTextAbsOffset fuel this;
  if nodeIndex offsetFinder >=? 0
  then
    let node := lastDefined childs (Z.to_nat (nodeIndex offsetFinder)) in
    let offset := relOffset offsetFinder in
    mret (Some (node, offset))
  else mret None.

(** [_getContainer] (part_001 507-519) *)
Definition _getContainer (fuel : nat) (this : nat) : M W (option (JsVal * Z)) :=
  parent ← range_parentElement this;
  r ← load this;
  if same_ref parent (Some (_bounder r))
  then _getTextContainer fuel this
  else _getNodeContainer this.

(** [_refresh] (part_001 486-499) *)
Definition _refresh (fuel : nat) (this : nat) : M W bool :=
  container ← _getContainer fuel this;
  match container with
  | None => _reset this
  | Some (node, offset) =>
      update this (set_commonAncestorContainer node);;
      update this (set_startContainer node);;
      update this (set_endContainer node);;
      update this (set_startOffset (JNum offset));;
      update this (set_endOffset (JNum offset));;
      mret true
  end;;
  mret true.

(** The [while (true)] of [_selectTextNode] (part_001 423-442), with
    fuel; [m] is [undefined] before the first [moveEnd]. *)
Fixpoint matchLoop (fuel : nat) (this : nat) (data : string)
    (m : option Z) (found : bool) (i : Z) : M W unit :=
  match fuel with
  | O => fun _ => OutOfFuel
  | S fuel =>
      let next (found : bool) (i : Z) : M W unit :=
        mv ← range_moveEnd this 1;
        matchLoop fuel this data (Some (Z.abs mv)) found i in
      match m with
      | Some 0 => mret tt
      | _ =>
          t ← range_text this;
          if String.eqb t data
          then (if found then next found (i + 1) else next true i)
          else if found then mret tt
          else next found (i + 1)
      end
  end.

(** [_selectTextNode] (part_001 399-449) *)
Definition _selectTextNode (fuel : nat) (this : nat) (referenceNode : Node)
  : M W bool :=
  r ← load this;
  childs ← childNodes (_bounder r);
  let totLen := lengthBefore childs 0 referenceNode in
  bounderText ← (fun w => Ok (dom_innerText (doc w) (_bounder r)) w);
  let data := String.substring 0 (Z.to_nat totLen) bounderText in
  range_moveToElementText this (_bounder r);;
  range_collapse this true;;
  matchLoop fuel this data None false 0;;
  range_moveEnd this (-1);;
  range_collapse this false;;
  range_moveEnd this (text_length referenceNode);;
  mret true.

(** [_selectNode] (part_001 383-390) *)
Definition _selectNode (fuel : nat) (this : nat) (referenceNode : Node) : M W bool :=
  if _isTextNode referenceNode
  then _selectTextNode fuel this referenceNode
  else _selectElmNode this referenceNode.

(** The walk of [_isAncestor] along [child], [child.parentNode], ...;
    the empty chain is [child === null]. *)
Fixpoint isAncestor_walk (parent documentNode : Node) (chain : list Node) : bool :=
  match chain with
  | [] => false
  | child :: rest =>
      if same_node parent documentNode
         && String.eqb (js_toLowerCase (nodeName child)) "html"
      then true
      else if same_node child parent then true
      else isAncestor_walk parent documentNode rest
  end.

(** [_isAncestor] (part_001 804-826) *)
Definition _isAncestor (parent child : Node) : M W bool :=
  fun w => Ok (isAncestor_walk parent (doc_document (doc w))
                 (child :: dom_ancestors (doc w) child)) w.

(** What [_isAncestor(window.document, node)] computes on the document
    [d]: whether [node] is attached. *)
Definition attached (d : Doc) (node : Node) : bool :=
  isAncestor_walk (doc_document d) (doc_document d) (node :: dom_ancestors d node).

(** The string [o] that [_getCallerString] builds from the source text [f]
    of the calling function (part_001 863-871): the line of [f] that the
    regular expression finds, stripped once, else [funcName + '(...)']. *)
Definition callerString (f : string) (funcName : string) : string :=
  match js_execCallerRegExp funcName f with
  | Some m0 => js_stripOnce m0
  | None => String.append funcName "(...)"
  end.

(** [_getCallerString] (part_001 860-872); [clr] is the source text of
    the calling function, [None] when there is none ([clr] is [null] and
    [clr.toString()] fails). *)
Definition _getCallerString (clr : option string) (funcName : string) : M W string :=
  match clr with
  | None => throw TypeError
  | Some f => mret (callerString f funcName)
  end.

(** [_checkNode] (part_001 835-851); [clr] is
    [arguments.callee.caller.caller], the caller of the public method. *)
Definition _checkNode (clr : option string) (referenceNode : Node)
    (funcName : string) : M W bool :=
  d ← document;
  attached ← _isAncestor d referenceNode;
  if negb attached
  then
    o ← _getCallerString clr funcName;
    throw (RangeIEError (String.append checkNode_message o))
  else mret true.

(** [selectNode] (part_001 212-224) *)
Definition selectNode (fuel : nat) (clr : option string) (this : nat)
    (referenceNode : Node) : M W bool :=
  _checkNode clr referenceNode "selectNode";;
  st ← _selectNode fuel this referenceNode;
  (if (st : bool)
   then range_select this;; _refresh fuel this
   else _reset this);;
  mret true.

(** [selectNodeContents] (part_001 236-242) *)
Definition selectNodeContents (fuel : nat) (clr : option string) (this : nat)
    (referenceNode : Node) : M W bool :=
  _checkNode clr referenceNode "selectNodeContents";;
  range_moveToElementText this referenceNode;;
  range_select this;;
  _refresh fuel this;;
  mret true.

(** The anchor step of [setStart] and [setEnd]. *)
Definition anchor (fuel : nat) (this : nat) (node : Node) : M W bool :=
  r ← load this;
  if is_null (commonAncestorContainer r)
  then _selectNode fuel this node
  else mret true.

(** [setStart] (part_001 254-270) *)
Definition setStart (fuel : nat) (clr : option string) (this : nat)
    (startNode : Node) (startOffset : Z) : M W bool :=
  _checkNode clr startNode "setStart";;
  st ← anchor fuel this startNode;
  (if (st : bool)
   then range_moveStart this startOffset;;
        range_select this;;
        _refresh fuel this
   else _reset this);;
  mret st.

(** [setEnd] (part_001 282-305): [offset = -(txtLen - endOffset)], the
    subtraction being one on JS numbers; [endOffset] is the value of the
    number passed. *)
Definition setEnd (fuel : nat) (clr : option string) (this : nat)
    (endNode : Node) (endOffset : Z) : M W bool :=
  _checkNode clr endNode "setEnd";;
  st ← anchor fuel this endNode;
  (if (st : bool)
   then
     let txtLen :=
       if _isTextNode endNode then text_length endNode
       else innerText_length endNode in
     let offset := - js_number (txtLen - endOffset) in
     range_moveEnd this offset;;
     range_select this;;
     _refresh fuel this
   else _reset this);;
  mret st.

(** [collapse] (part_001 314-318) *)
Definition collapse (fuel : nat) (this : nat) (toStart : bool) : M W bool :=
  range_collapse this toStart;;
  _refresh fuel this;;
  mret true.

(** [insertNode] (part_001 327-339) *)
Definition insertNode (fuel : nat) (this : nat) (referenceNode : Node) : M W JsVal :=
  let data :=
    if _isTextNode referenceNode then nodeValue referenceNode
    else outerHTML referenceNode in
  collapse fuel this true;;
  range_pasteHTML this data;;
  _refresh fuel this;;
  r ← load this;
  mret (commonAncestorContainer r).

(** *** Selection *)

(** [addRange] (part_001 59-62) *)
Definition addRange (sel : Selection) (range : nat) : M W (Selection * bool) :=
  mret (mkSelection (_ranges sel ++ [Some range]), true).

(** [RangeIE.Selection = function() {...}] (part_001 37-45) *)
Definition new_Selection (fuel : nat) : M W Selection :=
  range ← new_Range;
  _refresh fuel range;;
  '(sel, _) ← addRange (mkSelection []) range;
  mret sel.

(** [_removeRange] (part_001 174-179):
    [this._ranges[index].detach(); delete this._ranges[index];
     this._ranges.splice(index, 1); return true;] *)
Definition _removeRange (sel : Selection) (index : nat) : M W (Selection * bool) :=
  match range_at sel index with
  | Some range =>
      detach range;;
      mret (mkSelection (delete index (<[index := None]> (_ranges sel))), true)
  | None => throw TypeError
  end.

(** The loop of [removeAllRanges]. *)
Fixpoint removeAllRanges_from (n : nat) (sel : Selection) : M W Selection :=
  match n with
  | O => mret sel
  | S i =>
      '(sel, _) ← _removeRange sel i;
      removeAllRanges_from i sel
  end.

(** [removeAllRanges] (part_001 82-88) *)
Definition removeAllRanges (sel : Selection) : M W (Selection * bool) :=
  sel ← removeAllRanges_from (length (_ranges sel)) sel;
  mret (sel, true).

(** The loop of [removeRange], with its [break]. *)
Fixpoint removeRange_from (n : nat) (sel : Selection) (range : nat)
  : M W (Selection * bool) :=
  match n with
  | O => mret (sel, false)
  | S i =>
      match range_at sel i with
      | Some r =>
          if Nat.eqb r range
          then '(sel, _) ← _removeRange sel i; mret (sel, true)
          else removeRange_from i sel range
      | None => removeRange_from i sel range
      end
  end.

(** [removeRange] (part_001 97-108) *)
Definition removeRange (sel : Selection) (range : nat) : M W (Selection * bool) :=
  removeRange_from (length (_ranges sel)) sel range.

(** [collapseToStart] (part_001 116-127) *)
Definition collapseToStart (fuel : nat) (sel : Selection) : M W bool :=
  if (0 <? length (_ranges sel))%nat
  then
    match range_at sel 0 with
    | Some range =>
        collapse fuel range true;;
        range_select range;;
        mret true
    | None => throw TypeError
    end
  else mret false.

(** [collapseToEnd] (part_001 136-146):
    [range = this._ranges[this._ranges.length-1]; range.collapse(false);
     return true;] *)
Definition collapseToEnd (fuel : nat) (sel : Selection) : M W bool :=
  if (0 <? length (_ranges sel))%nat
  then
    match range_at sel (length (_ranges sel) - 1) with
    | Some range =>
        collapse fuel range false;;
        mret true
    | None => throw TypeError
    end
  else mret false.

(** [_getTextContainer2] (part_001 602-636), the resolver by prefix sums
    that revision B keeps but never calls. Its [console.log] is not a call
    on a TextRange and is not recorded. *)
Definition _getTextContainer2 (fuel : nat) (this : nat) : M W (option (JsVal * Z)) :=
  r ← load this;
  childs ← childNodes (_bounder r);
  offsetFinder ← _getTextAbsOffset fuel this;
  match textContainerScan2 childs 0 (absOffset offsetFinder) with
  | Some (node, offset) => mret (Some (JNode node, offset))
  | None => mret None
  end.

(** The forward steps of a TextRange run out within [n] steps: some
    [moveEnd('character', +1)] among the first [n + 1] reports no
    movement. *)
Inductive moveEnd_stops (d : Doc) : TR -> nat -> Prop :=
| stops_now (r : TR) (n : nat) :
    snd (tr_moveEnd d r 1) = 0 -> moveEnd_stops d r n
| stops_later (r : TR) (n : nat) :
    moveEnd_stops d (fst (tr_moveEnd d r 1)) n -> moveEnd_stops d r (S n).
(** The guarded probing loop stops within [n] steps: after some backward
    step among the first [n + 1] the start of the TextRange is no longer
    inside [bounder], or the step reports no movement. *)
Inductive probe_stops (d : Doc) (bounder : Node) : TR -> nat -> Prop :=
| probe_stops_outside (r : TR) (n : nat) :
    start_inside d bounder (fst (tr_moveStart d r (-1))) = false ->
    probe_stops d bounder r n
| probe_stops_still (r : TR) (n : nat) :
    snd (tr_moveStart d r (-1)) = 0 -> probe_stops d bounder r n
| probe_stops_after (r : TR) (n : nat) :
    probe_stops d bounder (fst (tr_moveStart d r (-1))) n ->
    probe_stops d bounder r (S n).
End WithHost.
End RevB.

(** ** Revision C: second file of [src/unnamed/part_001] (lines 894-1577)

    Its Range and Selection methods are those of revisions A and B; what
    it has of its own is the probing loop. *)
Module RevC.
Section WithHost.
Context {Doc TR : Type} `{!Host Doc TR}.
Local Abbreviation W := (World Doc TR).
Import Common.

(** The [while (true)] of [_getTextAbsOffset] (part_001 1518-1528), with
    fuel:
    [r1.moveStart('character', -1);
     if (!this._isChild(this._bounder, r1.parentElement())) { break; }
     if (r1.text !== '' && rt !== r1.text) { i++; }
     rt = r1.text;] *)
Fixpoint probe_loop (fuel : nat) (bounder : Node) (r1 : TR) (i : Z) (rt : string)
  : M W Z :=
  match fuel with
  | O => fun _ => OutOfFuel
  | S fuel =>
      '(r1, _) ← TextRange.moveStart r1 (-1);
      p ← TextRange.parentElement r1;
      inside ← _isChild (Some bounder) p;
      if negb inside
      then mret i
      else
        t1 ← TextRange.text r1;
        changed ← (if negb (String.eqb t1 "")
                   then t2 ← TextRange.text r1; mret (negb (String.eqb rt t2))
                   else mret false);
        let i := if (changed : bool) then i + 1 else i in
        rt ← TextRange.text r1;
        probe_loop fuel bounder r1 i rt
  end.

(** [_getTextAbsOffset] (part_001 1513-1530) *)
Definition _getTextAbsOffset (fuel : nat) (this : nat) : M W Z :=
  r1 ← TextRange.createRange;
  r ← load this;
  probe_loop fuel (_bounder r) r1 0 "".

(** The [for (i = childs.length-1; i >= 0; i--)] of [_isLastNode]
    (part_001 1270-1282) over the children from the last one down:
    [node] is the child last looked at, and the loop breaks at the first
    child with text. *)
Fixpoint isLastNode_scan (reversed : list Node) (node : option Node) : option Node :=
  match reversed with
  | [] => node
  | cnode :: rest =>
      if 0 <? txtLenOf cnode then Some cnode
      else isLastNode_scan rest (Some cnode)
  end.

(** [_isLastNode] (part_001 1266-1285) *)
Definition _isLastNode (this : nat) : M W bool :=
  r ← load this;
  childs ← childNodes (_bounder r);
  let node := isLastNode_scan (reverse childs) None in
  let ret := js_same (of_node node) (endContainer r) in
  mret ret.

(** The backward steps of a TextRange leave the Container within [n]
    steps: after some step among the first [n + 1] the parent element of
    the TextRange is no longer inside [bounder]. *)
Inductive leaves_within (d : Doc) (bounder : Node) : TR -> nat -> Prop :=
| leaves_now (r : TR) (n : nat) :
    isChild_on d (Some bounder)
      (tr_parentElement d (fst (tr_moveStart d r (-1)))) = false ->
    leaves_within d bounder r n
| leaves_later (r : TR) (n : nat) :
    leaves_within d bounder (fst (tr_moveStart d r (-1))) n ->
    leaves_within d bounder r (S n).
End WithHost.
End RevC.

(** ** A small host, for running the methods on concrete documents

    The document is the focused element alone: its children [kids], a
    cursor space of [chars] character positions (line breaks and collapsed
    white space make it differ from the sum of the children's lengths), and
    the active selection as a pair of flat offsets. A TextRange is a pair
    of flat offsets. *)
Module SimpleHost.

Record SDoc : Type := mkSDoc {
  kids : list Node;
  chars : Z;
  active : Z * Z
}.

Definition bounderNode : Node := mkNode 1 1 "DIV" "" "" "".
Definition bodyNode : Node := mkNode 2 1 "BODY" "" "" "".
Definition htmlNode : Node := mkNode 3 1 "HTML" "" "" "".
Definition documentNode : Node := mkNode 4 9 "#document" "" "" "".

Definition clamp (lo hi x : Z) : Z := Z.max lo (Z.min hi x).

Definition is_kid (d : SDoc) (n : Node) : bool :=
  existsb (fun c => same_node c n) (kids d).

Definition node_text (n : Node) : string :=
  if _isTextNode n then nodeValue n else innerText n.

Definition flat_text (d : SDoc) : string :=
  foldr (fun c acc => String.append (node_text c) acc) EmptyString (kids d).

Definition lower_ascii (c : ascii) : ascii :=
  let n := nat_of_ascii c in
  if ((65 <=? n) && (n <=? 90))%nat then ascii_of_nat (n + 32) else c.

Fixpoint lower_string (s : string) : string :=
  match s with
  | EmptyString => EmptyString
  | String c s' => String (lower_ascii c) (lower_string s')
  end.

(** The first element child whose span contains the range. *)
Fixpoint element_around (cs : list Node) (tot : Z) (s e : Z) : option Node :=
  match cs with
  | [] => None
  | c :: rest =>
      let tot' := tot + txtLenOf c in
      if negb (_isTextNode c) && (tot <=? s) && (e <=? tot') && (tot <? tot')
      then Some c
      else element_around rest tot' s e
  end.

(** The children outside the flat interval [[s, e]]. *)
Fixpoint kids_outside (cs : list Node) (tot : Z) (s e : Z) : list Node :=
  match cs with
  | [] => []
  | c :: rest =>
      let tot' := tot + txtLenOf c in
      if (s <=? tot) && (tot' <=? e) && (tot <? tot')
      then kids_outside rest tot' s e
      else c :: kids_outside rest tot' s e
  end.

(** Moving a boundary stops at the ends of the cursor space and drags the
    other boundary along; a move of no character leaves the TextRange as it
    is. *)
Definition s_moveStart (d : SDoc) (r : Z * Z) (n : Z) : (Z * Z) * Z :=
  let s' := clamp 0 (chars d) (fst r + n) in
  if s' =? fst r then (r, 0)
  else ((s', Z.max s' (snd r)), s' - fst r).

Definition s_moveEnd (d : SDoc) (r : Z * Z) (n : Z) : (Z * Z) * Z :=
  let e' := clamp 0 (chars d) (snd r + n) in
  if e' =? snd r then (r, 0)
  else ((Z.min (fst r) e', e'), e' - snd r).

Definition s_moveToElementText (d : SDoc) (r : Z * Z) (node : option Node)
  : option (Z * Z) :=
  match node with
  | None => None
  | Some n =>
      if same_node n bounderNode then Some (0, chars d)
      else spanOf (kids d) n
  end.

Definition s_ancestors (d : SDoc) (n : Node) : list Node :=
  if is_kid d n then [bounderNode; bodyNode; htmlNode; documentNode]
  else if same_node n bounderNode then [bodyNode; htmlNode; documentNode]
  else if same_node n bodyNode then [htmlNode; documentNode]
  else if same_node n htmlNode then [documentNode]
  else [].

Definition s_contains (d : SDoc) (a b : Node) : bool :=
  same_node a b
  || existsb (fun x => same_node x a) (s_ancestors d b).

Definition s_pasteHTML (d : SDoc) (r : Z * Z) (data : string) : SDoc * (Z * Z) :=
  let len := Z.of_nat (String.length data) in
  (mkSDoc (kids d ++ [mkNode (100 + length (kids d)) 3 "#text" data "" ""])
          (chars d + len) (active d),
   (fst r + len, fst r + len)).

Definition s_execCommand (d : SDoc) (cmd : string) : SDoc :=
  if String.eqb cmd "Delete"
  then
    let '(s, e) := active d in
    let rest := kids_outside (kids d) 0 s e in
    mkSDoc rest (chars d - (sumLens (kids d) - sumLens rest)) (s, s)
  else d.

#[global] Instance simple_host : Host SDoc (Z * Z) := {|
  doc_createRange d := active d;
  doc_activeElement d := bounderNode;
  doc_body d := bodyNode;
  doc_document d := documentNode;
  doc_execCommand := s_execCommand;
  dom_childNodes d n := if same_node n bounderNode then kids d else [];
  dom_ancestors := s_ancestors;
  dom_contains := s_contains;
  dom_innerText d n := if same_node n bounderNode then flat_text d else innerText n;
  tr_moveToElementText := s_moveToElementText;
  tr_moveStart := s_moveStart;
  tr_moveEnd := s_moveEnd;
  tr_collapse d r toStart := if toStart then (fst r, fst r) else (snd r, snd r);
  tr_select d r := mkSDoc (kids d) (chars d) r;
  tr_parentElement d r :=
    match element_around (kids d) 0 (fst r) (snd r) with
    | Some c => Some c
    | None => Some bounderNode
    end;
  tr_text d r :=
    String.substring (Z.to_nat (fst r)) (Z.to_nat (snd r - fst r)) (flat_text d);
  tr_htmlText d r :=
    String.substring (Z.to_nat (fst r)) (Z.to_nat (snd r - fst r)) (flat_text d);
  tr_pasteHTML := s_pasteHTML;
  js_toLowerCase := lower_string;
  js_execCallerRegExp funcName src :=
    match String.index 0 funcName src with
    | Some _ => Some src
    | None => None
    end;
  js_stripOnce s := s
|}.

(** The document of the README:
    [Hello World <span>Foo Bar</span> Foo Baz]. *)
Definition hello : Node := mkNode 10 3 "#text" "Hello World " "" "".
Definition span : Node := mkNode 11 1 "SPAN" "" "Foo Bar" "<SPAN>Foo Bar</SPAN>".
Definition baz : Node := mkNode 12 3 "#text" " Foo Baz" "" "".
Definition readme_kids : list Node := [hello; span; baz].

(** A created node that was never added to the document. *)
Definition loose : Node := mkNode 50 1 "B" "" "new" "<B>new</B>".

(** The README document with the caret at its start, no Range object yet. *)
Definition readme_world : World SDoc (Z * Z) :=
  mkWorld (mkSDoc readme_kids 27 (0, 0)) [] [].

(** [abc<br><br>] with the caret after [abc]: the two line breaks are
    character positions of the cursor and add nothing to the children's
    lengths. *)
Definition abc : Node := mkNode 20 3 "#text" "abc" "" "".
Definition br1 : Node := mkNode 21 1 "BR" "" "" "<BR>".
Definition br2 : Node := mkNode 22 1 "BR" "" "" "<BR>".
Definition abc_world : World SDoc (Z * Z) :=
  mkWorld (mkSDoc [abc; br1; br2] 5 (3, 3)) [] [].

(** The README document with the user's selection on [World]. *)
Definition selected_world : World SDoc (Z * Z) :=
  mkWorld (mkSDoc readme_kids 27 (6, 11)) [] [].


(** A text node that was never added to the document. *)
Definition loose_text : Node := mkNode 51 3 "#text" "new" "" "".

(** The README document after [new RangeIE.Range]: the Range object is at
    reference 0. *)
Definition range_world : World SDoc (Z * Z) :=
  mkWorld (mkSDoc readme_kids 27 (0, 0))
          [mkRange (Some (0, 0)) bounderNode JNull JNull JUndefined JNull (JNum 0)]
          [CreateRange].

(** The source text of a function that calls the four checked methods. *)
Definition caller_source : string :=
  "function () { range.selectNode(n); range.selectNodeContents(n); range.setStart(n, 1); range.setEnd(n, 2); }".

(** The README document with the caret after [He] and a Range object on
    it. The focused element is the first text of the document: a TextRange
    whose start is at flat offset 0 cannot move further back. *)
Definition caret_world : World SDoc (Z * Z) :=
  mkWorld (mkSDoc readme_kids 27 (2, 2))
          [mkRange (Some (2, 2)) bounderNode JNull JNull JUndefined JNull (JNum 0)]
          [CreateRange].

(** Two Range objects on the README document: the first holds the whole
    text, the second the word [World]. *)
Definition whole_range : RangeObj (Z * Z) :=
  mkRange (Some (0, 27)) bounderNode (JNode hello) (JNode hello) (JNum 0)
          (JNode hello) (JNum 0).
Definition world_range : RangeObj (Z * Z) :=
  mkRange (Some (6, 11)) bounderNode (JNode hello) (JNode hello) (JNum 6)
          (JNode hello) (JNum 6).

(** The README document with the user's selection on [World] and the two
    Range objects at references 0 and 1. *)
Definition two_range_world : World SDoc (Z * Z) :=
  mkWorld (mkSDoc readme_kids 27 (6, 11)) [whole_range; world_range] [].

(** The Range object at reference [this] after a run, when it returned. *)
Definition final_object {A : Type} (this : nat) (res : Res (World SDoc (Z * Z)) A)
  : option (RangeObj (Z * Z)) :=
  match res with
  | Ok _ w => heap w !! this
  | _ => None
  end.
End SimpleHost.
(** ** Facts about the scans *)

Lemma txtLenOf_nonneg (c : Node) : 0 <= txtLenOf c.
Proof. unfold txtLenOf, text_length, innerText_length. destruct (_isTextNode c); lia. Qed.

Lemma sumLens_nonneg (childs : list Node) : 0 <= sumLens childs.
Proof.
  induction childs as [|c childs IH]; simpl; [lia|].
  pose proof (txtLenOf_nonneg c). lia.
Qed.

Lemma sumLens_app (xs ys : list Node) : sumLens (xs ++ ys) = sumLens xs + sumLens ys.
Proof. induction xs as [|x xs IH]; simpl; lia. Qed.

(** The scan skips a prefix whose total stays below the target and stops
    at the next child when its total reaches the target. *)
Lemma textContainerScan_stops (pre : list Node) (c : Node) (post : list Node)
    (tot absOffset : Z) :
  (pre = [] \/ tot + sumLens pre < absOffset) ->
  absOffset <= tot + sumLens pre + txtLenOf c ->
  textContainerScan (pre ++ c :: post) tot absOffset
  = Some (c, txtLenOf c - (tot + sumLens pre + txtLenOf c - absOffset)).
Proof.
  revert tot. induction pre as [|a pre IH]; intros tot Hpre Hc; simpl in *.
  - replace (tot + txtLenOf c >=? absOffset) with true by (symmetry; apply Z.geb_le; lia).
    do 3 f_equal. lia.
  - destruct Hpre as [Hnil|Hlt]; [discriminate|].
    pose proof (sumLens_nonneg pre) as Hp.
    replace (tot + txtLenOf a >=? absOffset) with false.
    2:{ symmetry. destruct (tot + txtLenOf a >=? absOffset) eqn:E; [|reflexivity].
        apply Z.geb_le in E. lia. }
    rewrite IH.
    + do 3 f_equal. lia.
    + destruct pre as [|b pre']; [now left|right; lia].
    + lia.
Qed.

(** Beyond the total length the scan finds no child. *)
Lemma textContainerScan_beyond (childs : list Node) (tot absOffset : Z) :
  tot + sumLens childs < absOffset ->
  textContainerScan childs tot absOffset = None.
Proof.
  revert tot. induction childs as [|c childs IH]; intros tot H; simpl in *; [reflexivity|].
  pose proof (sumLens_nonneg childs) as Hp.
  replace (tot + txtLenOf c >=? absOffset) with false.
  - apply IH. lia.
  - symmetry. destruct (tot + txtLenOf c >=? absOffset) eqn:E; [|reflexivity].
    apply Z.geb_le in E. lia.
Qed.

(** With distinct identities the identity scan stops exactly at index [k]. *)
Lemma selectTextScan_at (childs : list Node) (k : nat) (c : Node) (tot : Z) :
  NoDup (map ident childs) ->
  childs !! k = Some c ->
  selectTextScan childs tot c = Some (c, tot + sumLens (take k childs)).
Proof.
  revert k tot. induction childs as [|a childs IH]; intros k tot Hnd Hk; [discriminate|].
  simpl in Hnd. apply NoDup_cons in Hnd as [Hnotin Hnd].
  destruct k as [|k]; simpl in *.
  - injection Hk as ->. unfold same_node. rewrite Nat.eqb_refl. do 2 f_equal. lia.
  - unfold same_node. destruct (Nat.eqb (ident a) (ident c)) eqn:E.
    + apply Nat.eqb_eq in E. exfalso. apply Hnotin. rewrite E.
      apply list_elem_of_fmap. exists c. split; [reflexivity|].
      apply list_elem_of_lookup. eauto.
    + rewrite (IH k _ Hnd Hk). do 2 f_equal. lia.
Qed.

Lemma spanOf_at (childs : list Node) (k : nat) (c : Node) :
  NoDup (map ident childs) ->
  childs !! k = Some c ->
  spanOf childs c
  = Some (sumLens (take k childs), sumLens (take k childs) + txtLenOf c).
Proof.
  intros Hnd Hk. unfold spanOf. rewrite (selectTextScan_at childs k c 0 Hnd Hk).
  unfold txtLenOf. destruct (_isTextNode c); f_equal; f_equal; lia.
Qed.

(** Claim C1 (amended). For children with distinct identities and the
    child [c] at index [k], [spanOf] is [(start, start + length c)] with
    [start] the sum of the lengths of children [0..k-1]. Resolving [start]
    yields [(c, 0)] when [k = 0]; for [k >= 1] with a non-empty preceding
    child [p] it yields the end of that child, [(p, length p)], because the
    scan stops at the first total that reaches the target. Resolving
    [end - 1] yields [(c, length c - 1)] when [k = 0] or [c] has at least
    two characters. *)
Theorem resolve_span_boundaries (childs : list Node) (k : nat) (c : Node) :
  NoDup (map ident childs) ->
  childs !! k = Some c ->
  exists start endv : Z,
    spanOf childs c = Some (start, endv) /\
    start = sumLens (take k childs) /\
    endv = start + txtLenOf c /\
    (k = 0%nat -> resolveNodeAt childs start = Some (c, 0)) /\
    (forall (j : nat) (p : Node),
        k = S j -> childs !! j = Some p -> 0 < txtLenOf p ->
        resolveNodeAt childs start = Some (p, txtLenOf p)) /\
    (k = 0%nat \/ 2 <= txtLenOf c ->
        resolveNodeAt childs (endv - 1) = Some (c, txtLenOf c - 1)).
Proof.
  intros Hnd Hk.
  exists (sumLens (take k childs)), (sumLens (take k childs) + txtLenOf c).
  split; [apply spanOf_at; assumption|].
  split; [reflexivity|]. split; [reflexivity|].
  pose proof (take_drop_middle childs k c Hk) as Hsplit.
  pose proof (txtLenOf_nonneg c) as Hc.
  pose proof (sumLens_nonneg (take k childs)) as Hpre.
  split; [|split].
  - intros ->. simpl in *. unfold resolveNodeAt. rewrite <- Hsplit. simpl.
    replace (0 + txtLenOf c >=? 0) with true by (symmetry; apply Z.geb_le; lia).
    do 3 f_equal. lia.
  - intros j p -> Hj Hp.
    rewrite (take_S_r childs j p Hj), sumLens_app. simpl.
    unfold resolveNodeAt.
    rewrite <- (take_drop_middle childs j p Hj) at 1.
    rewrite textContainerScan_stops.
    + do 3 f_equal. lia.
    + destruct (take j childs) as [|a l] eqn:E; [now left|right].
      rewrite <- E. lia.
    + lia.
  - intros Hcase. unfold resolveNodeAt. rewrite <- Hsplit at 1.
    rewrite textContainerScan_stops.
    + do 3 f_equal. lia.
    + destruct Hcase as [->|Hlen]; [now left|].
      destruct (take k childs) as [|a l] eqn:E; [now left|right]. lia.
    + lia.
Qed.

Lemma resolve_span_boundaries_witness :
  exists start endv : Z,
    spanOf SimpleHost.readme_kids SimpleHost.span = Some (start, endv) /\
    start = sumLens (take 1 SimpleHost.readme_kids) /\
    endv = start + txtLenOf SimpleHost.span /\
    (1%nat = 0%nat ->
       resolveNodeAt SimpleHost.readme_kids start = Some (SimpleHost.span, 0)) /\
    (forall (j : nat) (p : Node),
        1%nat = S j -> SimpleHost.readme_kids !! j = Some p -> 0 < txtLenOf p ->
        resolveNodeAt SimpleHost.readme_kids start = Some (p, txtLenOf p)) /\
    (1%nat = 0%nat \/ 2 <= txtLenOf SimpleHost.span ->
        resolveNodeAt SimpleHost.readme_kids (endv - 1)
        = Some (SimpleHost.span, txtLenOf SimpleHost.span - 1)).
Proof.
  apply (resolve_span_boundaries SimpleHost.readme_kids 1 SimpleHost.span).
  - apply (bool_decide_unpack _). vm_compute. reflexivity.
  - reflexivity.
Defined.

(** Claim C1 as stated fails: in [Hello World <span>Foo Bar</span> Foo Baz]
    the span starts at flat offset 12, which resolves to the end of the
    preceding text, not to [(span, 0)]; and when the child has a single
    character, [end - 1] is its start and resolves to the preceding child
    too. *)
Lemma span_start_resolves_to_previous_child :
  (SimpleHost.readme_kids !! 1%nat = Some SimpleHost.span /\
   spanOf SimpleHost.readme_kids SimpleHost.span = Some (12, 19) /\
   resolveNodeAt SimpleHost.readme_kids 12 = Some (SimpleHost.hello, 12) /\
   resolveNodeAt SimpleHost.readme_kids 12 <> Some (SimpleHost.span, 0)) /\
  (let dot := mkNode 13 3 "#text" "." "" "" in
   spanOf [SimpleHost.hello; dot] dot = Some (12, 13) /\
   resolveNodeAt [SimpleHost.hello; dot] (13 - 1) = Some (SimpleHost.hello, 12)).
Proof.
  split; [|split; reflexivity].
  split; [reflexivity|]. split; [reflexivity|]. split; [reflexivity|].
  vm_compute. discriminate.
Qed.

(** ** Reasoning about method bodies *)

Section MonadFacts.
Context {Doc TR : Type} `{!Host Doc TR}.
Local Abbreviation W := (World Doc TR).
Import Common.

Lemma bind_ok {A B} (c : M W A) (f : A -> M W B) (w w1 : W) (a : A) :
  c w = Ok a w1 -> (c ≫= f) w = f a w1.
Proof. intros E. unfold mbind, M_bind. rewrite E. reflexivity. Qed.

Lemma bind_throw {A B} (c : M W A) (f : A -> M W B) (w w1 : W) (e : Exn) :
  c w = Throw e w1 -> (c ≫= f) w = Throw e w1.
Proof. intros E. unfold mbind, M_bind. rewrite E. reflexivity. Qed.

Lemma bind_fuel {A B} (c : M W A) (f : A -> M W B) (w : W) :
  c w = OutOfFuel -> (c ≫= f) w = OutOfFuel.
Proof. intros E. unfold mbind, M_bind. rewrite E. reflexivity. Qed.

Lemma lookup_store (this : nat) (r r' : RangeObj TR) (w : W) :
  heap w !! this = Some r -> heap (store this r' w) !! this = Some r'.
Proof.
  intros E. unfold store. simpl. apply list_lookup_insert_eq.
  apply lookup_lt_Some in E. exact E.
Qed.

Lemma store_store (this : nat) (r1 r2 : RangeObj TR) (w : W) :
  store this r2 (store this r1 w) = store this r2 w.
Proof. unfold store. simpl. rewrite list_insert_insert_eq. reflexivity. Qed.

Lemma load_ok (this : nat) (r : RangeObj TR) (w : W) :
  heap w !! this = Some r -> load this w = Ok r w.
Proof. intros E. unfold load. rewrite E. reflexivity. Qed.

Lemma update_ok (this : nat) (f : RangeObj TR -> RangeObj TR) (r : RangeObj TR) (w : W) :
  heap w !! this = Some r -> update this f w = Ok tt (store this (f r) w).
Proof. intros E. unfold update. rewrite E. reflexivity. Qed.

Lemma cursor_ok (this : nat) (r : RangeObj TR) (tr : TR) (w : W) :
  heap w !! this = Some r -> _range r = Some tr -> cursor this w = Ok tr w.
Proof.
  intros E Etr. unfold cursor. rewrite (bind_ok _ _ _ _ _ (load_ok _ _ _ E)).
  rewrite Etr. reflexivity.
Qed.

(** [_reset] assigns the three containers and [endOffset]; [startOffset]
    and the TextRange are left as they were. *)
Lemma _reset_ok (this : nat) (r : RangeObj TR) (w : W) :
  heap w !! this = Some r ->
  _reset this w = Ok true (store this (reset_fields r) w).
Proof.
  intros E. unfold _reset.
  rewrite (bind_ok _ _ _ _ _ (update_ok _ _ _ _ E)).
  pose proof (lookup_store this r (set_commonAncestorContainer JNull r) w E) as E1.
  rewrite (bind_ok _ _ _ _ _ (update_ok _ _ _ _ E1)), store_store.
  pose proof (lookup_store this r
    (set_endContainer JNull (set_commonAncestorContainer JNull r)) w E) as E2.
  rewrite (bind_ok _ _ _ _ _ (update_ok _ _ _ _ E2)), store_store.
  pose proof (lookup_store this r
    (set_endOffset (JNum 0) (set_endContainer JNull
       (set_commonAncestorContainer JNull r))) w E) as E3.
  rewrite (bind_ok _ _ _ _ _ (update_ok _ _ _ _ E3)), store_store.
  pose proof (lookup_store this r
    (set_startContainer JNull (set_endOffset (JNum 0) (set_endContainer JNull
       (set_commonAncestorContainer JNull r)))) w E) as E4.
  rewrite (bind_ok _ _ _ _ _ (update_ok _ _ _ _ E4)), store_store.
  reflexivity.
Qed.

(** After [_reset] the start offset is whatever it was before. *)
Lemma _reset_keeps_startOffset (this : nat) (r : RangeObj TR) (w : W) :
  heap w !! this = Some r ->
  exists w', _reset this w = Ok true w' /\
    exists r', heap w' !! this = Some r' /\
      commonAncestorContainer r' = JNull /\ startContainer r' = JNull /\
      endContainer r' = JNull /\ endOffset r' = JNum 0 /\
      startOffset r' = startOffset r /\ _range r' = _range r.
Proof.
  intros E. exists (store this (reset_fields r) w). split; [apply _reset_ok, E|].
  exists (reset_fields r). split; [apply (lookup_store _ _ _ _ E)|].
  repeat split.
Qed.

(** [_isChild] only reads the document. *)
Lemma _isChild_on (parent child : option Node) (w : W) :
  _isChild parent child w = Ok (isChild_on (doc w) parent child) w.
Proof.
  unfold _isChild, isChild_on. destruct parent as [parent|]; [|reflexivity].
  destruct child as [child|]; [|reflexivity].
  destruct (same_node parent child); [reflexivity|].
  unfold mbind, M_bind, body, document, contains. simpl.
  destruct (same_node child (doc_body (doc w)) || same_node child (doc_document (doc w)));
    [reflexivity|].
  destruct (dom_contains (doc w) child parent); reflexivity.
Qed.

End MonadFacts.

(** ** The Range state: [_reset] and [_refresh] *)

Section RangeState.
Context {Doc TR : Type} `{!Host Doc TR}.
Local Abbreviation W := (World Doc TR).
Import Common.

Lemma bind_update_store {B} (this : nat) (f : RangeObj TR -> RangeObj TR)
    (k : unit -> M W B) (r0 r : RangeObj TR) (w : W) :
  heap w !! this = Some r0 ->
  (update this f ≫= k) (store this r w) = k tt (store this (f r) w).
Proof.
  intros E. rewrite (bind_ok _ _ _ _ _ (update_ok _ _ _ _ (lookup_store _ _ _ _ E))).
  rewrite store_store. reflexivity.
Qed.

(** Revision A: on a result [{node, offset}] the assignments of [_refresh]
    leave [endContainer] holding the offset and [endOffset] untouched. *)
Lemma RevA_refresh_fields (this : nat) (node : JsVal) (offset : Z)
    (r : RangeObj TR) (w w1 : W) :
  RevA._getContainer this w = Ok (Some (node, offset)) w1 ->
  heap w1 !! this = Some r ->
  RevA._refresh this w
  = Ok true (store this (mkRange (_range r) (_bounder r) node node (JNum offset)
                                 (JNum offset) (endOffset r)) w1).
Proof.
  intros Ec E. unfold RevA._refresh.
  rewrite (bind_ok _ _ _ _ _ Ec).
  rewrite (bind_ok _ _ w1 (store this (mkRange (_range r) (_bounder r) node node
             (JNum offset) (JNum offset) (endOffset r)) w1) true); [reflexivity|].
  rewrite (bind_ok _ _ _ _ _ (update_ok _ _ _ _ E)).
  do 4 rewrite (bind_update_store _ _ _ _ _ _ E).
  reflexivity.
Qed.

(** Revision B: the same assignments without the slip; the five fields
    hold the resolved node and offset. *)
Lemma RevB_refresh_fields (fuel : nat) (this : nat) (node : JsVal) (offset : Z)
    (r : RangeObj TR) (w w1 : W) :
  RevB._getContainer fuel this w = Ok (Some (node, offset)) w1 ->
  heap w1 !! this = Some r ->
  RevB._refresh fuel this w
  = Ok true (store this (mkRange (_range r) (_bounder r) node node (JNum offset)
                                 node (JNum offset)) w1).
Proof.
  intros Ec E. unfold RevB._refresh.
  rewrite (bind_ok _ _ _ _ _ Ec).
  rewrite (bind_ok _ _ w1 (store this (mkRange (_range r) (_bounder r) node node
             (JNum offset) node (JNum offset)) w1) true); [reflexivity|].
  rewrite (bind_ok _ _ _ _ _ (update_ok _ _ _ _ E)).
  do 4 rewrite (bind_update_store _ _ _ _ _ _ E).
  reflexivity.
Qed.

(** In both revisions no result means [_reset]. *)
Lemma RevA_refresh_reset (this : nat) (r : RangeObj TR) (w w1 : W) :
  RevA._getContainer this w = Ok None w1 ->
  heap w1 !! this = Some r ->
  RevA._refresh this w = Ok true (store this (reset_fields r) w1).
Proof.
  intros Ec E. unfold RevA._refresh.
  rewrite (bind_ok _ _ _ _ _ Ec).
  rewrite (bind_ok _ _ _ _ _ (_reset_ok _ _ _ E)). reflexivity.
Qed.

Lemma RevB_refresh_reset (fuel : nat) (this : nat) (r : RangeObj TR) (w w1 : W) :
  RevB._getContainer fuel this w = Ok None w1 ->
  heap w1 !! this = Some r ->
  RevB._refresh fuel this w = Ok true (store this (reset_fields r) w1).
Proof.
  intros Ec E. unfold RevB._refresh.
  rewrite (bind_ok _ _ _ _ _ Ec).
  rewrite (bind_ok _ _ _ _ _ (_reset_ok _ _ _ E)). reflexivity.
Qed.

End RangeState.

(** Claim C2 (code defect). On [abc<br><br>] with the caret after [abc],
    the resolver of [src/rangeie.js] returns [(abc, 3)]; [_refresh] then
    stores the node in [commonAncestorContainer] and [startContainer] and
    the offset in [startOffset], but it stores the offset in [endContainer]
    and leaves [endOffset] at the [0] of the constructor, where the claim
    has [endContainer] the node and [endOffset] the offset. Revision B
    assigns the five fields as claimed (on the README document with the
    selection on [World] they hold the first text and 6); there the other
    half of the claim fails: when [selectNode] of the first text then puts
    the start at the beginning and the resolver returns no result, [_reset]
    leaves [startOffset] at 6, which is not the Empty state. *)
Theorem refresh_breaks_field_invariant :
  (exists w w1 w2 r,
      Common.new_Range SimpleHost.abc_world = Ok 0%nat w /\
      RevA._getContainer 0 w = Ok (Some (JNode SimpleHost.abc, 3)) w1 /\
      RevA._refresh 0 w = Ok true w2 /\
      heap w2 !! 0%nat = Some r /\
      commonAncestorContainer r = JNode SimpleHost.abc /\
      startContainer r = JNode SimpleHost.abc /\
      startOffset r = JNum 3 /\
      endContainer r = JNum 3 /\
      endOffset r = JNum 0) /\
  (exists sel w r w' r',
      RevB.new_Selection 100 SimpleHost.selected_world = Ok sel w /\
      heap w !! 0%nat = Some r /\
      commonAncestorContainer r = JNode SimpleHost.hello /\
      startContainer r = JNode SimpleHost.hello /\
      endContainer r = JNode SimpleHost.hello /\
      startOffset r = JNum 6 /\ endOffset r = JNum 6 /\
      RevB.selectNode 100 (Some SimpleHost.caller_source) 0 SimpleHost.hello w
        = Ok true w' /\
      heap w' !! 0%nat = Some r' /\
      commonAncestorContainer r' = JNull /\ startContainer r' = JNull /\
      endContainer r' = JNull /\ endOffset r' = JNum 0 /\
      startOffset r' = JNum 6 /\ ~ is_Empty r').
Proof.
  split.
  - do 4 eexists.
    split; [vm_compute; reflexivity|].
    split; [vm_compute; reflexivity|].
    split; [vm_compute; reflexivity|].
    split; [vm_compute; reflexivity|].
    repeat split.
  - do 5 eexists.
    split; [vm_compute; reflexivity|].
    split; [vm_compute; reflexivity|].
    do 5 (split; [reflexivity|]).
    split; [vm_compute; reflexivity|].
    split; [vm_compute; reflexivity|].
    do 5 (split; [reflexivity|]).
    intros (_ & _ & _ & Hs & _); discriminate Hs.
Qed.

(** Claim C5 (code defect, the same in every revision). [_reset] assigns
    [endOffset] twice and [startOffset] never. A Range just constructed has
    [startOffset] undefined, and a Range that was positioned at offset 7
    still has [startOffset = 7] after [detach] and after [deleteContents]:
    neither is the Empty state of the claim. *)
Theorem reset_leaves_startOffset :
  (exists r,
      SimpleHost.final_object 0 (Common.new_Range SimpleHost.readme_world) = Some r /\
      commonAncestorContainer r = JNull /\ startContainer r = JNull /\
      endContainer r = JNull /\ endOffset r = JNum 0 /\
      startOffset r = JUndefined /\ ~ is_Empty r) /\
  (exists r,
      SimpleHost.final_object 0
        ((this ← Common.new_Range;
          RevA.selectNode this SimpleHost.baz;;
          Common.detach this) SimpleHost.readme_world) = Some r /\
      commonAncestorContainer r = JNull /\ startContainer r = JNull /\
      endContainer r = JNull /\ endOffset r = JNum 0 /\
      startOffset r = JNum 7 /\ ~ is_Empty r) /\
  (exists r,
      SimpleHost.final_object 0
        ((this ← Common.new_Range;
          RevA.selectNode this SimpleHost.baz;;
          Common.deleteContents this) SimpleHost.readme_world) = Some r /\
      commonAncestorContainer r = JNull /\ startContainer r = JNull /\
      endContainer r = JNull /\ endOffset r = JNum 0 /\
      startOffset r = JNum 7 /\ ~ is_Empty r).
Proof.
  split; [|split]; eexists; (split; [vm_compute; reflexivity|]);
    repeat (split; [reflexivity|]);
    intros (_ & _ & _ & Hs & _); discriminate Hs.
Qed.

(** Claim C4 (code defect, the one of C5). On [abc<br><br>] the children's
    lengths sum to 3 and the cursor space has 5 positions. A Range
    refreshed at the caret has [startOffset = 3]; [setStart(abc, 2)] moves
    its start to flat offset 5, beyond the total: the scan finds no child,
    no error is raised and [_refresh] resets the Range, but [startOffset] is
    still 3, not the 0 of the Empty state. *)
Theorem failed_resolution_leaves_startOffset :
  resolveNodeAt [SimpleHost.abc; SimpleHost.br1; SimpleHost.br2] 5 = None /\
  exists w r,
    (this ← Common.new_Range;
     RevA.collapse this true;;
     RevA.setStart this SimpleHost.abc 2) SimpleHost.abc_world = Ok true w /\
    SimpleHost.active (doc w) = (5, 5) /\
    heap w !! 0%nat = Some r /\
    commonAncestorContainer r = JNull /\ startContainer r = JNull /\
    endContainer r = JNull /\ endOffset r = JNum 0 /\
    startOffset r = JNum 3 /\ ~ is_Empty r.
Proof.
  split; [reflexivity|].
  do 2 eexists.
  split; [vm_compute; reflexivity|].
  split; [reflexivity|].
  split; [vm_compute; reflexivity|].
  repeat (split; [reflexivity|]).
  intros (_ & _ & _ & Hs & _); discriminate Hs.
Qed.

(** ** The Selection set *)

Section SelectionFacts.
Context {Doc TR : Type} `{!Host Doc TR}.
Local Abbreviation W := (World Doc TR).
Import Common.

(** [detach] drops the TextRange and resets the fields. *)
Lemma detach_ok (this : nat) (r : RangeObj TR) (w : W) :
  heap w !! this = Some r ->
  detach this w = Ok true (store this (reset_fields (set_range None r)) w).
Proof.
  intros E. unfold detach.
  rewrite (bind_ok _ _ _ _ _ (update_ok _ _ _ _ E)).
  rewrite (bind_ok _ _ _ _ _ (_reset_ok _ _ _ (lookup_store _ _ _ _ E))).
  rewrite store_store. reflexivity.
Qed.

(** A Range that is in no slot below [n] is not found by the loop, in
    either revision, and nothing changes. *)
Lemma RevA_removeRange_from_absent (n : nat) (sel : Selection) (range : nat) (w : W) :
  (forall i, (i < n)%nat -> range_at sel i <> Some range) ->
  RevA.removeRange_from n sel range w = Ok (sel, false) w.
Proof.
  induction n as [|i IH]; intros Habs; simpl; [reflexivity|].
  destruct (range_at sel i) as [r|] eqn:E.
  - destruct (Nat.eqb r range) eqn:Er.
    + apply Nat.eqb_eq in Er. subst r. exfalso. apply (Habs i); [lia|exact E].
    + apply IH. intros k Hk. apply Habs. lia.
  - apply IH. intros k Hk. apply Habs. lia.
Qed.

Lemma RevB_removeRange_from_absent (n : nat) (sel : Selection) (range : nat) (w : W) :
  (forall i, (i < n)%nat -> range_at sel i <> Some range) ->
  RevB.removeRange_from n sel range w = Ok (sel, false) w.
Proof.
  induction n as [|i IH]; intros Habs; simpl; [reflexivity|].
  destruct (range_at sel i) as [r|] eqn:E.
  - destruct (Nat.eqb r range) eqn:Er.
    + apply Nat.eqb_eq in Er. subst r. exfalso. apply (Habs i); [lia|exact E].
    + apply IH. intros k Hk. apply Habs. lia.
  - apply IH. intros k Hk. apply Habs. lia.
Qed.

(** Revision B: a Range that is in some slot below [n] is removed from the
    highest such slot, and detached. *)
Lemma RevB_removeRange_from_present (n : nat) (sel : Selection) (range : nat)
    (r : RangeObj TR) (w : W) :
  heap w !! range = Some r ->
  (exists i, (i < n)%nat /\ range_at sel i = Some range) ->
  exists i, (i < n)%nat /\ range_at sel i = Some range /\
    RevB.removeRange_from n sel range w
    = Ok (mkSelection (delete i (<[i := None]> (_ranges sel))), true)
         (store range (reset_fields (set_range None r)) w).
Proof.
  intros Hr. induction n as [|i IH]; intros (k & Hk & Hat); [lia|].
  simpl. destruct (range_at sel i) as [r0|] eqn:E.
  - destruct (Nat.eqb r0 range) eqn:Er.
    + apply Nat.eqb_eq in Er. subst r0. exists i. split; [lia|]. split; [exact E|].
      unfold RevB._removeRange. rewrite E.
      unfold mbind, M_bind. rewrite (detach_ok _ _ _ Hr). reflexivity.
    + assert (k <> i) by (intros ->; rewrite E in Hat; injection Hat as ->;
                          rewrite Nat.eqb_refl in Er; discriminate).
      destruct IH as (j & Hj & Hjat & Hrun); [exists k; split; [lia|exact Hat]|].
      exists j. split; [lia|]. split; assumption.
  - assert (k <> i) by (intros ->; rewrite E in Hat; discriminate).
    destruct IH as (j & Hj & Hjat & Hrun); [exists k; split; [lia|exact Hat]|].
    exists j. split; [lia|]. split; assumption.
Qed.

(** Revision A: a Range that is in some slot below [n] is detached and
    its highest slot becomes a hole; the array keeps its length. *)
Lemma RevA_removeRange_from_present (n : nat) (sel : Selection) (range : nat)
    (r : RangeObj TR) (w : W) :
  heap w !! range = Some r ->
  (exists i, (i < n)%nat /\ range_at sel i = Some range) ->
  exists i sel', (i < n)%nat /\ range_at sel i = Some range /\
    sel' = mkSelection (<[i := None]> (_ranges sel)) /\
    length (_ranges sel') = length (_ranges sel) /\
    RevA.removeRange_from n sel range w
    = Ok (sel', true) (store range (reset_fields (set_range None r)) w).
Proof.
  intros Hr. induction n as [|i IH]; intros (k & Hk & Hat); [lia|].
  simpl. destruct (range_at sel i) as [r0|] eqn:E.
  - destruct (Nat.eqb r0 range) eqn:Er.
    + apply Nat.eqb_eq in Er. subst r0. exists i. eexists.
      split; [lia|]. split; [exact E|]. split; [reflexivity|].
      split; [simpl; apply length_insert|].
      unfold RevA._removeRange. rewrite E.
      unfold mbind, M_bind. rewrite (detach_ok _ _ _ Hr). reflexivity.
    + assert (k <> i) by (intros ->; rewrite E in Hat; injection Hat as ->;
                          rewrite Nat.eqb_refl in Er; discriminate).
      destruct IH as (j & sel' & Hj & Hjat & Hsel & Hlen & Hrun);
        [exists k; split; [lia|exact Hat]|].
      exists j, sel'. split; [lia|]. repeat split; assumption.
  - assert (k <> i) by (intros ->; rewrite E in Hat; discriminate).
    destruct IH as (j & sel' & Hj & Hjat & Hsel & Hlen & Hrun);
      [exists k; split; [lia|exact Hat]|].
    exists j, sel'. split; [lia|]. repeat split; assumption.
Qed.

(** Revision B meets the claim on [removeRange]: absent, failure and nothing
    changes; present, success, the Range is detached and the array is
    shorter by one. *)
Lemma RevB_removeRange_spec (sel : Selection) (range : nat) (r : RangeObj TR) (w : W) :
  heap w !! range = Some r ->
  ((forall i, range_at sel i <> Some range) ->
     RevB.removeRange sel range w = Ok (sel, false) w) /\
  ((exists i, range_at sel i = Some range) ->
     exists sel',
       RevB.removeRange sel range w
       = Ok (sel', true) (store range (reset_fields (set_range None r)) w) /\
       S (length (_ranges sel')) = length (_ranges sel)).
Proof.
  intros Hr. split.
  - intros Habs. apply RevB_removeRange_from_absent. intros i _. apply Habs.
  - intros (i & Hat).
    assert (Hi : (i < length (_ranges sel))%nat).
    { unfold range_at in Hat. destruct (_ranges sel !! i) eqn:E; [|discriminate].
      apply lookup_lt_Some in E. exact E. }
    destruct (RevB_removeRange_from_present (length (_ranges sel)) sel range r w Hr)
      as (j & Hj & Hjat & Hrun); [exists i; split; assumption|].
    eexists. split; [exact Hrun|]. simpl.
    rewrite length_delete.
    + rewrite length_insert. lia.
    + apply lookup_lt_is_Some. rewrite length_insert. exact Hj.
Qed.

End SelectionFacts.

(** Claim C6 (code defect in revision A). In [src/rangeie.js] the private
    [_removeRange] detaches the Range and runs [delete this._ranges[index]],
    which leaves a hole: after [removeRange] of the only Range of a new
    Selection the call returns [true] and the Range is detached, but
    [_ranges.length] is still 1, and [collapseToStart], which tests that
    length, then fails on the hole. A Range that is absent is reported as
    such and nothing changes. *)
Theorem RevA_removeRange_keeps_length :
  exists sel w sel' w' r,
    RevA.new_Selection SimpleHost.readme_world = Ok sel w /\
    _ranges sel = [Some 0%nat] /\
    RevA.removeRange sel 7 w = Ok (sel, false) w /\
    RevA.removeRange sel 0 w = Ok (sel', true) w' /\
    heap w' !! 0%nat = Some r /\ _range r = None /\
    _ranges sel' = [None] /\
    length (_ranges sel') = length (_ranges sel) /\
    RevA.collapseToStart sel' w' = Throw TypeError w'.
Proof.
  do 5 eexists.
  split; [vm_compute; reflexivity|].
  split; [reflexivity|].
  split; [vm_compute; reflexivity|].
  split; [vm_compute; reflexivity|].
  split; [vm_compute; reflexivity|].
  repeat split.
Qed.

(** Both [collapseToStart] and [collapseToEnd], in either revision, return
    [false] on a Selection without slots and do nothing. *)
Lemma collapse_on_empty_selection {Doc TR : Type} `{!Host Doc TR}
    (fuel : nat) (w : World Doc TR) :
  RevA.collapseToStart (mkSelection []) w = Ok false w /\
  RevA.collapseToEnd (mkSelection []) w = Ok false w /\
  RevB.collapseToStart fuel (mkSelection []) w = Ok false w /\
  RevB.collapseToEnd fuel (mkSelection []) w = Ok false w.
Proof. repeat split. Qed.

(** Claim C7 (code defect in revisions B and C). With the user's selection
    on [World] (flat offsets 6 to 11), [collapseToEnd] of revision B
    collapses the Range of the Selection to offset 11 and returns [true],
    but it never calls [select]: the host's active selection is still
    6 to 11. [collapseToStart] of the same revision does commit (active
    selection 6 to 6), and so does [collapseToEnd] of [src/rangeie.js]
    (active selection 11 to 11). *)
Theorem RevB_collapseToEnd_does_not_commit :
  exists sel w w' r,
    RevB.new_Selection 100 SimpleHost.selected_world = Ok sel w /\
    _ranges sel = [Some 0%nat] /\
    RevB.collapseToEnd 100 sel w = Ok true w' /\
    heap w' !! 0%nat = Some r /\ _range r = Some (11, 11) /\
    SimpleHost.active (doc w') = (6, 11) /\
    ~ In Select (calls w') /\
    (exists w2, RevB.collapseToStart 100 sel w = Ok true w2 /\
                SimpleHost.active (doc w2) = (6, 6) /\ In Select (calls w2)) /\
    (exists selA wA w3,
        RevA.new_Selection SimpleHost.selected_world = Ok selA wA /\
        RevA.collapseToEnd selA wA = Ok true w3 /\
        SimpleHost.active (doc w3) = (11, 11) /\ In Select (calls w3)).
Proof.
  do 4 eexists.
  split; [vm_compute; reflexivity|].
  split; [reflexivity|].
  split; [vm_compute; reflexivity|].
  split; [vm_compute; reflexivity|].
  split; [reflexivity|].
  split; [reflexivity|].
  split.
  { simpl. intros Hin.
    repeat (destruct Hin as [Hin|Hin]; [discriminate Hin|]). exact Hin. }
  split.
  - eexists. split; [vm_compute; reflexivity|]. split; [reflexivity|].
    simpl. repeat match goal with |- _ \/ _ => (left; reflexivity) || right end.
  - do 3 eexists. split; [vm_compute; reflexivity|].
    split; [vm_compute; reflexivity|]. split; [reflexivity|].
    simpl. repeat match goal with |- _ \/ _ => (left; reflexivity) || right end.
Qed.

(** ** What leaves the host state alone

    Of the host primitives only [select], [pasteHTML] and [execCommand]
    change the host state; a method that calls none of them keeps it. *)

Section KeepsDoc.
Context {Doc TR : Type} `{!Host Doc TR}.
Local Abbreviation W := (World Doc TR).
Import Common.

Lemma keeps_doc_ret {A} (a : A) : keeps_doc (mret a : M W A).
Proof. intros w. reflexivity. Qed.

Lemma keeps_doc_throw {A} (e : Exn) : keeps_doc (throw e : M W A).
Proof. intros w. reflexivity. Qed.

Lemma keeps_doc_bind {A B} (c : M W A) (f : A -> M W B) :
  keeps_doc c -> (forall a, keeps_doc (f a)) -> keeps_doc (c ≫= f).
Proof.
  intros Hc Hf w. unfold mbind, M_bind. specialize (Hc w).
  destruct (c w) as [a w1|e w1|]; [|exact Hc|exact I].
  specialize (Hf a w1). destruct (f a w1) as [b w2|e w2|]; [| |exact I]; congruence.
Qed.

Lemma keeps_doc_load (this : nat) : keeps_doc (load this : M W (RangeObj TR)).
Proof. intros w. unfold load. destruct (heap w !! this); reflexivity. Qed.

Lemma keeps_doc_update (this : nat) (f : RangeObj TR -> RangeObj TR) :
  keeps_doc (update this f : M W unit).
Proof. intros w. unfold update. destruct (heap w !! this); reflexivity. Qed.

Lemma keeps_doc_cursor (this : nat) : keeps_doc (cursor this : M W TR).
Proof.
  apply keeps_doc_bind; [apply keeps_doc_load|]. intros r.
  destruct (_range r); [apply keeps_doc_ret|apply keeps_doc_throw].
Qed.

Lemma keeps_doc_createRange : keeps_doc (TextRange.createRange : M W TR).
Proof. intros w. reflexivity. Qed.

Lemma keeps_doc_moveToElementText (r : TR) (node : option Node) :
  keeps_doc (TextRange.moveToElementText r node : M W TR).
Proof.
  intros w. unfold TextRange.moveToElementText.
  destruct (tr_moveToElementText (doc w) r node); reflexivity.
Qed.

Lemma keeps_doc_moveStart (r : TR) (n : Z) :
  keeps_doc (TextRange.moveStart r n : M W (TR * Z)).
Proof. intros w. reflexivity. Qed.

Lemma keeps_doc_moveEnd (r : TR) (n : Z) :
  keeps_doc (TextRange.moveEnd r n : M W (TR * Z)).
Proof. intros w. reflexivity. Qed.

Lemma keeps_doc_collapse (r : TR) (toStart : bool) :
  keeps_doc (TextRange.collapse r toStart : M W TR).
Proof. intros w. reflexivity. Qed.

Lemma keeps_doc_duplicate (r : TR) : keeps_doc (TextRange.duplicate r : M W TR).
Proof. intros w. reflexivity. Qed.

Lemma keeps_doc_parentElement (r : TR) :
  keeps_doc (TextRange.parentElement r : M W (option Node)).
Proof. intros w. reflexivity. Qed.

Lemma keeps_doc_text (r : TR) : keeps_doc (TextRange.text r : M W string).
Proof. intros w. reflexivity. Qed.

Lemma keeps_doc_htmlText (r : TR) : keeps_doc (TextRange.htmlText r : M W string).
Proof. intros w. reflexivity. Qed.

Lemma keeps_doc_childNodes (node : Node) : keeps_doc (childNodes node : M W (list Node)).
Proof. intros w. reflexivity. Qed.

Lemma keeps_doc_isChild (parent child : option Node) :
  keeps_doc (_isChild parent child : M W bool).
Proof. intros w. rewrite _isChild_on. reflexivity. Qed.

Create HintDb keeps.

#[local] Hint Resolve keeps_doc_ret keeps_doc_throw keeps_doc_load keeps_doc_update
  keeps_doc_cursor keeps_doc_createRange keeps_doc_moveToElementText
  keeps_doc_moveStart keeps_doc_moveEnd keeps_doc_collapse keeps_doc_duplicate
  keeps_doc_parentElement keeps_doc_text keeps_doc_htmlText keeps_doc_childNodes
  keeps_doc_isChild : keeps.

(** One step of the routine proofs: split a bind, decide a branch, or
    close with a known fact. *)
Ltac keeps_step :=
  match goal with
  | |- keeps_doc (_ ≫= _) => apply keeps_doc_bind; [|intros ?]
  | |- keeps_doc (let '(_, _) := ?p in _) => destruct p
  | |- keeps_doc (match ?x with _ => _ end) => destruct x
  | |- keeps_doc _ => solve [auto with keeps]
  end.

Lemma keeps_doc_range_collapse (this : nat) (toStart : bool) :
  keeps_doc (range_collapse this toStart : M W unit).
Proof. unfold range_collapse. repeat keeps_step. Qed.

Lemma keeps_doc_range_parentElement (this : nat) :
  keeps_doc (range_parentElement this : M W (option Node)).
Proof. unfold range_parentElement. repeat keeps_step. Qed.

Lemma keeps_doc_reset (this : nat) : keeps_doc (_reset this : M W bool).
Proof. unfold _reset. repeat keeps_step. Qed.

Lemma keeps_doc_getElmOffset : keeps_doc (_getElmOffset : M W Z).
Proof. unfold _getElmOffset. repeat keeps_step. Qed.

Lemma keeps_doc_getNodeContainer (this : nat) : keeps_doc (_getNodeContainer this : M W (option (JsVal * Z))).
Proof.
  unfold _getNodeContainer.
  apply keeps_doc_bind; [apply keeps_doc_range_parentElement|]. intros node.
  apply keeps_doc_bind; [apply keeps_doc_getElmOffset|]. intros offset.
  apply keeps_doc_ret.
Qed.

Lemma keeps_doc_probe_step (bounder : Node) (st : RevB.Probe TR) :
  keeps_doc (RevB.probe_step bounder st : M W (RevB.Probe TR + RevB.OffsetFinder)).
Proof.
  unfold RevB.probe_step, RevB._isBreakout, RevB._isNonPrintTextRangeChar.
  repeat keeps_step.
Qed.

Lemma keeps_doc_probe_loop (fuel : nat) (bounder : Node) (st : RevB.Probe TR) :
  keeps_doc (RevB.probe_loop fuel bounder st : M W RevB.OffsetFinder).
Proof.
  revert st. induction fuel as [|fuel IH]; intros st; simpl.
  - intros w. exact I.
  - apply keeps_doc_bind; [apply keeps_doc_probe_step|].
    intros [st'|out]; [apply IH|apply keeps_doc_ret].
Qed.

Lemma keeps_doc_RevB_refresh (fuel : nat) (this : nat) :
  keeps_doc (RevB._refresh fuel this : M W bool).
Proof.
  unfold RevB._refresh, RevB._getContainer.
  apply keeps_doc_bind.
  - apply keeps_doc_bind; [apply keeps_doc_range_parentElement|]. intros parent.
    apply keeps_doc_bind; [apply keeps_doc_load|]. intros r.
    destruct (same_ref parent (Some (_bounder r))); [|apply keeps_doc_getNodeContainer].
    unfold RevB._getTextContainer, RevB._getTextAbsOffset.
    apply keeps_doc_bind; [apply keeps_doc_load|]. intros r'.
    apply keeps_doc_bind; [apply keeps_doc_childNodes|]. intros childs.
    apply keeps_doc_bind.
    + apply keeps_doc_bind; [apply keeps_doc_createRange|]. intros r1.
      apply keeps_doc_bind; [apply keeps_doc_load|]. intros r2.
      apply keeps_doc_probe_loop.
    + intros offsetFinder. repeat keeps_step.
  - intros container. apply keeps_doc_bind; [|intros ?; apply keeps_doc_ret].
    destruct container as [[node offset]|]; [|apply keeps_doc_reset].
    repeat keeps_step.
Qed.

(** Revisions B and C: [collapseToEnd] leaves the host state, and with it
    the active selection, exactly as it was, on every host. *)
Lemma RevB_collapseToEnd_keeps_document (fuel : nat) (sel : Selection) :
  keeps_doc (RevB.collapseToEnd fuel sel : M W bool).
Proof.
  unfold RevB.collapseToEnd, RevB.collapse.
  destruct (0 <? length (_ranges sel))%nat; [|apply keeps_doc_ret].
  destruct (range_at sel (length (_ranges sel) - 1)) as [range|];
    [|apply keeps_doc_throw].
  apply keeps_doc_bind; [|intros ?; apply keeps_doc_ret].
  apply keeps_doc_bind; [apply keeps_doc_range_collapse|]. intros ?.
  apply keeps_doc_bind; [apply keeps_doc_RevB_refresh|]. intros ?.
  apply keeps_doc_ret.
Qed.

End KeepsDoc.

(** ** Positioning operations *)

Section Positioning.
Context {Doc TR : Type} `{!Host Doc TR}.
Local Abbreviation W := (World Doc TR).
Import Common.

(** [this._range.moveStart/moveEnd('character', n)]: the TextRange of
    [this] is replaced by the one the host returns, and the call is
    recorded. *)
Lemma range_moveStart_ok (this : nat) (n : Z) (r : RangeObj TR) (tr : TR) (w : W) :
  heap w !! this = Some r -> _range r = Some tr ->
  range_moveStart this n w
  = Ok (snd (tr_moveStart (doc w) tr n))
       (mkWorld (doc w)
                (<[this := set_range (Some (fst (tr_moveStart (doc w) tr n))) r]> (heap w))
                (calls w ++ [MoveStart n])).
Proof.
  intros E Etr. unfold range_moveStart.
  rewrite (bind_ok _ _ _ _ _ (cursor_ok _ _ _ _ E Etr)).
  unfold TextRange.moveStart, mbind at 1, M_bind at 1.
  destruct (tr_moveStart (doc w) tr n) as [tr' m]. simpl.
  unfold mbind, M_bind, update. simpl. rewrite E. reflexivity.
Qed.

Lemma range_moveEnd_ok (this : nat) (n : Z) (r : RangeObj TR) (tr : TR) (w : W) :
  heap w !! this = Some r -> _range r = Some tr ->
  range_moveEnd this n w
  = Ok (snd (tr_moveEnd (doc w) tr n))
       (mkWorld (doc w)
                (<[this := set_range (Some (fst (tr_moveEnd (doc w) tr n))) r]> (heap w))
                (calls w ++ [MoveEnd n])).
Proof.
  intros E Etr. unfold range_moveEnd.
  rewrite (bind_ok _ _ _ _ _ (cursor_ok _ _ _ _ E Etr)).
  unfold TextRange.moveEnd, mbind at 1, M_bind at 1.
  destruct (tr_moveEnd (doc w) tr n) as [tr' m]. simpl.
  unfold mbind, M_bind, update. simpl. rewrite E. reflexivity.
Qed.

(** [_checkNode] on an attached node returns [true] and touches nothing;
    on a node that is not attached, called from a function with source
    text [src], it throws the error whose text ends with the caller
    string, and touches nothing either. *)
Lemma _checkNode_attached (clr : option string) (node : Node) (funcName : string) (w : W) :
  RevB.attached (doc w) node = true ->
  RevB._checkNode clr node funcName w = Ok true w.
Proof.
  intros Ha. unfold RevB._checkNode, document, RevB._isAncestor, mbind, M_bind.
  unfold RevB.attached in Ha. rewrite Ha. reflexivity.
Qed.


(** On the integers up to [2^53] the arithmetic of JS numbers is the
    arithmetic of integers. *)
Lemma js_number_exact (z : Z) : Z.abs z <= 2 ^ 53 -> js_number z = z.
Proof.
  intros Hz. unfold js_number.
  replace (Z.abs z <=? 2 ^ 53) with true by (symmetry; apply Z.leb_le; exact Hz).
  reflexivity.
Qed.

(** Claim C8 (amended). For an integer end offset up to [2^53] in
    absolute value whose distance to the total length of the node is at
    most [2^53] (where the subtraction of JS numbers is exact), once the
    anchor step of [setEnd] has succeeded, leaving the TextRange [tr] in
    the Range, [setEnd] asks the host to move the end of [tr] by exactly
    [endOffset - totalLength(endNode)] characters, where the total length
    is [length] for a text node and [innerText.length] for an element; the
    Range then holds the TextRange the host returns for that request,
    which is what is committed and refreshed. How far the end has moved is
    the host's answer, which the code does not read. This holds in
    [src/rangeie.js] and, for a node that passes [_checkNode], in the
    revision with [_checkNode]. *)
Theorem setEnd_moves_end_by_delta (this : nat) (endNode : Node) (endOffset : Z) :
  Z.abs endOffset <= 2 ^ 53 ->
  Z.abs (txtLenOf endNode - endOffset) <= 2 ^ 53 ->
  let delta := endOffset - txtLenOf endNode in
  (forall (w w1 : W) (r1 : RangeObj TR) (tr : TR),
      RevA.anchor this endNode w = Ok true w1 ->
      heap w1 !! this = Some r1 -> _range r1 = Some tr ->
      RevA.setEnd this endNode endOffset w
      = ((range_select this;; RevA._refresh this) ≫= fun _ => mret true)
          (mkWorld (doc w1)
             (<[this := set_range (Some (fst (tr_moveEnd (doc w1) tr delta))) r1]>
                (heap w1))
             (calls w1 ++ [MoveEnd delta]))) /\
  (forall (fuel : nat) (clr : option string) (w w1 : W) (r1 : RangeObj TR) (tr : TR),
      RevB.attached (doc w) endNode = true ->
      RevB.anchor fuel this endNode w = Ok true w1 ->
      heap w1 !! this = Some r1 -> _range r1 = Some tr ->
      RevB.setEnd fuel clr this endNode endOffset w
      = ((range_select this;; RevB._refresh fuel this) ≫= fun _ => mret true)
          (mkWorld (doc w1)
             (<[this := set_range (Some (fst (tr_moveEnd (doc w1) tr delta))) r1]>
                (heap w1))
             (calls w1 ++ [MoveEnd delta]))).
Proof.
  intros Hnum Hexact delta.
  assert (Hd : - js_number ((if _isTextNode endNode then text_length endNode
                             else innerText_length endNode) - endOffset) = delta).
  { rewrite js_number_exact by exact Hexact. unfold delta, txtLenOf. lia. }
  split.
  - intros w w1 r1 tr Ha E Etr. unfold RevA.setEnd.
    rewrite (bind_ok _ _ _ _ _ Ha). cbv zeta. rewrite Hd.
    unfold mbind at 1, M_bind at 1. unfold mbind at 1, M_bind at 1.
    rewrite (range_moveEnd_ok _ _ _ _ _ E Etr). reflexivity.
  - intros fuel clr w w1 r1 tr Hatt Ha E Etr. unfold RevB.setEnd.
    rewrite (bind_ok _ _ _ _ _ (_checkNode_attached clr endNode "setEnd" w Hatt)).
    rewrite (bind_ok _ _ _ _ _ Ha). cbv zeta. rewrite Hd.
    unfold mbind at 1, M_bind at 1. unfold mbind at 1, M_bind at 1.
    rewrite (range_moveEnd_ok _ _ _ _ _ E Etr). reflexivity.
Qed.



End Positioning.

(** ** [selectNode] of revision A returns

    On documents ([good] ones, kept so by [select]) where the host accepts
    the Container, the reference node and the parent element of a TextRange
    in [moveToElementText], as it does for nodes of the document,
    [selectNode] on a live Range raises nothing. *)

Section SelectNodeReturns.
Context {Doc TR : Type} `{!Host Doc TR}.
Local Abbreviation W := (World Doc TR).
Import Common.

Variable good : Doc -> Prop.
Variable this : nat.
Variable bounder : Node.
Variable referenceNode : Node.

Hypothesis good_select : forall d r, good d -> good (tr_select d r).
Hypothesis accepts_bounder :
  forall d r, good d -> tr_moveToElementText d r (Some bounder) <> None.
Hypothesis accepts_parent :
  forall d r r', good d -> tr_moveToElementText d r' (tr_parentElement d r) <> None.

Lemma returns_ret {A} (a : A) : returns good this bounder (mret a : M W A).
Proof. intros w Hl. exists a, w. split; [reflexivity|exact Hl]. Qed.

Lemma returns_bind {A B} (c : M W A) (f : A -> M W B) :
  returns good this bounder c -> (forall a, returns good this bounder (f a)) ->
  returns good this bounder (c ≫= f).
Proof.
  intros Hc Hf w Hl. destruct (Hc w Hl) as (a & w1 & Ec & Hl1).
  destruct (Hf a w1 Hl1) as (b & w2 & Ef & Hl2).
  exists b, w2. split; [|exact Hl2]. rewrite (bind_ok _ _ _ _ _ Ec). exact Ef.
Qed.

Lemma returns_load_bind {B} (f : RangeObj TR -> M W B) :
  (forall r, _bounder r = bounder -> returns good this bounder (f r)) ->
  returns good this bounder (load this ≫= f : M W _).
Proof.
  intros Hf w Hl. pose proof Hl as (Hg & r & tr & E & Etr & Eb).
  rewrite (bind_ok _ _ _ _ _ (load_ok _ _ _ E)). apply (Hf r Eb w Hl).
Qed.

Lemma returns_cursor_bind {B} (f : TR -> M W B) :
  (forall tr, returns good this bounder (f tr)) ->
  returns good this bounder (cursor this ≫= f : M W _).
Proof.
  intros Hf w Hl. pose proof Hl as (Hg & r & tr & E & Etr & Eb).
  rewrite (bind_ok _ _ _ _ _ (cursor_ok _ _ _ _ E Etr)). apply (Hf tr w Hl).
Qed.

Lemma returns_update (f : RangeObj TR -> RangeObj TR) :
  (forall r, _bounder (f r) = _bounder r /\
             (is_Some (_range r) -> is_Some (_range (f r)))) ->
  returns good this bounder (update this f : M W _).
Proof.
  intros Hf w (Hg & r & tr & E & Etr & Eb).
  exists tt, (store this (f r) w). split; [apply update_ok, E|].
  destruct (Hf r) as (Hb & Hr).
  destruct Hr as (tr' & Etr'); [rewrite Etr; eexists; reflexivity|].
  split; [exact Hg|].
  exists (f r), tr'. split; [apply (lookup_store _ _ _ _ E)|].
  split; [exact Etr'|]. rewrite Hb. exact Eb.
Qed.

Lemma returns_heap_kept {A} (c : M W A) :
  (forall w, good (doc w) ->
     exists a w', c w = Ok a w' /\ heap w' = heap w /\ doc w' = doc w) ->
  returns good this bounder c.
Proof.
  intros Hc w (Hg & r & tr & E & Etr & Eb).
  destruct (Hc w Hg) as (a & w' & Ec & Eh & Ed).
  exists a, w'. split; [exact Ec|]. split; [rewrite Ed; exact Hg|].
  exists r, tr. rewrite Eh. auto.
Qed.

Lemma returns_moveToElementText (r : TR) (node : option Node) :
  (forall d r', good d -> tr_moveToElementText d r' node <> None) ->
  returns good this bounder (TextRange.moveToElementText r node : M W TR).
Proof.
  intros Hacc. apply returns_heap_kept. intros w Hg.
  unfold TextRange.moveToElementText.
  destruct (tr_moveToElementText (doc w) r node) as [r'|] eqn:E.
  - do 2 eexists. repeat split.
  - exfalso. apply (Hacc _ _ Hg E).
Qed.

Ltac kept := apply returns_heap_kept; intros ? ?; do 2 eexists; repeat split.

Ltac field_update :=
  apply returns_update; intros ?; split; [reflexivity|intros Hs; exact Hs].

Ltac cursor_update :=
  apply returns_update; intros ?; split; [reflexivity|intros _; eexists; reflexivity].

Lemma returns_range_moveToElementText (node : Node) :
  (forall d r', good d -> tr_moveToElementText d r' (Some node) <> None) ->
  returns good this bounder (range_moveToElementText this node : M W _).
Proof.
  intros Hacc. unfold range_moveToElementText.
  apply returns_cursor_bind. intros tr.
  apply returns_bind; [apply returns_moveToElementText, Hacc|]. intros tr'.
  cursor_update.
Qed.

Lemma returns_range_moveStart (n : Z) :
  returns good this bounder (range_moveStart this n : M W _).
Proof.
  unfold range_moveStart. apply returns_cursor_bind. intros tr.
  apply returns_bind; [kept|]. intros [tr' m].
  apply returns_bind; [cursor_update|]. intros _. apply returns_ret.
Qed.

Lemma returns_range_moveEnd (n : Z) :
  returns good this bounder (range_moveEnd this n : M W _).
Proof.
  unfold range_moveEnd. apply returns_cursor_bind. intros tr.
  apply returns_bind; [kept|]. intros [tr' m].
  apply returns_bind; [cursor_update|]. intros _. apply returns_ret.
Qed.

Lemma returns_range_collapse (toStart : bool) :
  returns good this bounder (range_collapse this toStart : M W _).
Proof.
  unfold range_collapse. apply returns_cursor_bind. intros tr.
  apply returns_bind; [kept|]. intros tr'. cursor_update.
Qed.

Lemma returns_range_select : returns good this bounder (range_select this : M W _).
Proof.
  unfold range_select. apply returns_cursor_bind. intros tr.
  intros w (Hg & Hobj). do 2 eexists. split; [reflexivity|].
  split; [simpl; apply good_select, Hg|exact Hobj].
Qed.

Lemma returns_range_parentElement : returns good this bounder (range_parentElement this : M W _).
Proof. unfold range_parentElement. apply returns_cursor_bind. intros tr. kept. Qed.

Lemma returns_reset : returns good this bounder (_reset this : M W _).
Proof.
  unfold _reset.
  repeat (apply returns_bind; [field_update|intros _]). apply returns_ret.
Qed.

Lemma returns_getElmOffset : returns good this bounder (_getElmOffset : M W Z).
Proof.
  apply returns_heap_kept. intros w Hg.
  unfold _getElmOffset, mbind, M_bind, TextRange.createRange, TextRange.parentElement,
    TextRange.moveToElementText, TextRange.moveStart. simpl.
  destruct (tr_moveToElementText (doc w) (doc_createRange (doc w))
              (tr_parentElement (doc w) (doc_createRange (doc w)))) as [r1|] eqn:E;
    [|exfalso; apply (accepts_parent _ _ _ Hg E)].
  simpl. destruct (tr_moveStart (doc w) r1 (-100000000)) as [r1' m1]. simpl.
  destruct (tr_moveStart (doc w) (doc_createRange (doc w)) (-100000000)) as [r2 m2].
  simpl. do 2 eexists. repeat split.
Qed.

Lemma returns_RevA_getTextAbsOffset :
  returns good this bounder (RevA._getTextAbsOffset this : M W _).
Proof.
  unfold RevA._getTextAbsOffset.
  apply returns_bind; [kept|]. intros r1.
  apply returns_bind; [kept|]. intros r2.
  apply returns_load_bind. intros r Eb. rewrite Eb.
  apply returns_bind; [apply returns_moveToElementText, accepts_bounder|]. intros r1'.
  apply returns_bind; [kept|]. intros [r1'' m1].
  apply returns_bind; [kept|]. intros [r2' m2].
  apply returns_ret.
Qed.

Lemma returns_RevA_refresh : returns good this bounder (RevA._refresh this : M W _).
Proof.
  unfold RevA._refresh.
  apply returns_bind.
  - unfold RevA._getContainer.
    apply returns_bind; [apply returns_range_parentElement|]. intros parent.
    apply returns_load_bind. intros r Eb.
    destruct (same_ref parent (Some (_bounder r))).
    + unfold RevA._getTextContainer. apply returns_load_bind. intros r' Eb'.
      apply returns_bind; [kept|]. intros childs.
      apply returns_bind; [apply returns_RevA_getTextAbsOffset|]. intros absOffset.
      destruct (textContainerScan childs 0 absOffset) as [[node offset]|];
        apply returns_ret.
    + unfold _getNodeContainer.
      apply returns_bind; [apply returns_range_parentElement|]. intros node.
      apply returns_bind; [apply returns_getElmOffset|]. intros offset.
      apply returns_ret.
  - intros container. apply returns_bind; [|intros _; apply returns_ret].
    destruct container as [[node offset]|]; [|apply returns_reset].
    repeat (apply returns_bind; [field_update|intros _]). apply returns_ret.
Qed.

Lemma returns_RevA_selectNode :
  (forall d r, good d -> tr_moveToElementText d r (Some referenceNode) <> None) ->
  returns good this bounder (RevA.selectNode this referenceNode : M W _).
Proof.
  intros accepts_node. unfold RevA.selectNode.
  apply returns_bind.
  - unfold RevA._selectNode. destruct (_isTextNode referenceNode).
    + unfold RevA._selectTextNode. apply returns_load_bind. intros r Eb. rewrite Eb.
      apply returns_bind; [kept|]. intros childs.
      destruct (spanOf childs referenceNode) as [[totLen endVal]|].
      * apply returns_bind;
          [apply returns_range_moveToElementText, accepts_bounder|intros _].
        apply returns_bind; [apply returns_range_collapse|intros _].
        apply returns_bind; [apply returns_range_moveStart|intros _].
        apply returns_bind; [apply returns_range_moveEnd|intros _].
        apply returns_ret.
      * apply returns_bind; [apply returns_range_moveStart|intros _].
        apply returns_bind; [apply returns_range_moveEnd|intros _].
        apply returns_ret.
    + unfold _selectElmNode.
      apply returns_bind;
        [apply returns_range_moveToElementText, accepts_node|intros _].
      apply returns_bind; [apply returns_range_moveStart|intros _].
      apply returns_bind; [apply returns_range_moveEnd|intros _].
      apply returns_ret.
  - intros st. apply returns_bind; [|intros _; apply returns_ret].
    destruct st; [|apply returns_reset].
    apply returns_bind; [apply returns_range_select|intros _].
    apply returns_RevA_refresh.
Qed.

End SelectNodeReturns.

(** ** The result of [selectNode] *)

Section SelectNodeResult.
Context {Doc TR : Type} `{!Host Doc TR}.
Local Abbreviation W := (World Doc TR).
Import Common.

(** Revision A: a text node that is not among the children makes
    [_selectTextNode] move both boundaries back and return [false]. *)
Lemma RevA_selectTextNode_absent (this : nat) (referenceNode : Node) (w : W)
    (r : RangeObj TR) (tr : TR) :
  heap w !! this = Some r -> _range r = Some tr ->
  spanOf (dom_childNodes (doc w) (_bounder r)) referenceNode = None ->
  let tr1 := fst (tr_moveStart (doc w) tr (-10000000)) in
  let tr2 := fst (tr_moveEnd (doc w) tr1 (-10000000)) in
  RevA._selectTextNode this referenceNode w
  = Ok false (mkWorld (doc w) (<[this := set_range (Some tr2) r]> (heap w))
                      (calls w ++ [MoveStart (-10000000); MoveEnd (-10000000)])).
Proof.
  intros E Etr Hspan tr1 tr2. unfold RevA._selectTextNode.
  rewrite (bind_ok _ _ _ _ _ (load_ok _ _ _ E)).
  unfold childNodes at 1, mbind at 1, M_bind at 1. rewrite Hspan.
  rewrite (bind_ok _ _ _ _ _ (range_moveStart_ok _ _ _ _ _ E Etr)).
  fold tr1.
  set (w1 := mkWorld (doc w) (<[this := set_range (Some tr1) r]> (heap w))
                     (calls w ++ [MoveStart (-10000000)])).
  assert (E1 : heap w1 !! this = Some (set_range (Some tr1) r)).
  { apply (lookup_store this r _ w E). }
  rewrite (bind_ok _ _ _ _ _ (range_moveEnd_ok this _ _ tr1 w1 E1 eq_refl)).
  unfold w1. simpl. fold tr2. rewrite list_insert_insert_eq, <- app_assoc.
  reflexivity.
Qed.

(** Claim C10 (code defect). [selectNode] of [src/rangeie.js] returns
    [true] whenever it returns. It does return, on a live Range, wherever
    the host accepts the Container, the reference node and the parent
    element of a TextRange in [moveToElementText], as it does for nodes
    attached to the document. For a text node that is not among the
    children of the Container, it moves the TextRange back, commits
    nothing, runs [_reset] and still returns [true]; but the Range is not
    reset to the Empty state: [_reset] makes the containers [null] and the
    end offset 0 and never assigns the start offset, which stays what it
    was, [undefined] on a new Range. The test of attachment plays no part:
    this revision has none. *)
Theorem selectNode_unlocated_not_Empty (this : nat) (referenceNode : Node) (w : W) :
  (forall (b : bool) (w' : W),
      RevA.selectNode this referenceNode w = Ok b w' -> b = true) /\
  (forall (good : Doc -> Prop) (bounder : Node),
      live good this bounder w ->
      (forall d r, good d -> good (tr_select d r)) ->
      (forall d r, good d -> tr_moveToElementText d r (Some bounder) <> None) ->
      (forall d r r', good d ->
          tr_moveToElementText d r' (tr_parentElement d r) <> None) ->
      (forall d r, good d -> tr_moveToElementText d r (Some referenceNode) <> None) ->
      exists w' : W, RevA.selectNode this referenceNode w = Ok true w') /\
  (forall (r : RangeObj TR) (tr : TR),
      heap w !! this = Some r -> _range r = Some tr ->
      _isTextNode referenceNode = true ->
      spanOf (dom_childNodes (doc w) (_bounder r)) referenceNode = None ->
      exists (w' : W) (r' : RangeObj TR),
        RevA.selectNode this referenceNode w = Ok true w' /\
        heap w' !! this = Some r' /\
        commonAncestorContainer r' = JNull /\ startContainer r' = JNull /\
        endContainer r' = JNull /\ endOffset r' = JNum 0 /\
        startOffset r' = startOffset r /\
        (startOffset r <> JNum 0 -> ~ is_Empty r') /\
        calls w' = calls w ++ [MoveStart (-10000000); MoveEnd (-10000000)]).
Proof.
  assert (Htrue : forall (b : bool) (w' : W),
             RevA.selectNode this referenceNode w = Ok b w' -> b = true).
  { intros b w'. unfold RevA.selectNode, mbind, M_bind.
    destruct (RevA._selectNode this referenceNode w) as [st w1|e w1|]; try discriminate.
    destruct (if st then _ else _) as [x w2|e w2|]; try discriminate.
    intros Hret. injection Hret as <- _. reflexivity. }
  split; [exact Htrue|]. split.
  - intros good bounder Hlive Hsel Hb Hp Hn.
    destruct (returns_RevA_selectNode good this bounder referenceNode
                Hsel Hb Hp Hn w Hlive) as (b & w' & Hrun & _).
    exists w'. rewrite Hrun. f_equal. apply (Htrue b w' Hrun).
  - intros r tr E Etr Htext Hspan.
    unfold RevA.selectNode, RevA._selectNode. rewrite Htext.
    rewrite (bind_ok _ _ _ _ _
               (RevA_selectTextNode_absent this referenceNode w r tr E Etr Hspan)).
    set (w2 := mkWorld (doc w) _ _).
    assert (E2 : heap w2 !! this
                 = Some (set_range (Some (fst (tr_moveEnd (doc w)
                           (fst (tr_moveStart (doc w) tr (-10000000)))
                           (-10000000)))) r)).
    { apply (lookup_store this r _ w E). }
    rewrite (bind_ok _ _ _ _ _ (_reset_ok _ _ _ E2)).
    eexists. eexists. split; [reflexivity|].
    split; [apply (lookup_store _ _ _ _ E2)|].
    repeat (split; [reflexivity|]).
    split; [|reflexivity].
    intros Hstart (_ & _ & _ & Hso & _). apply Hstart. exact Hso.
Qed.

End SelectNodeResult.

(** ** The operations on the README document *)

Example new_Range_on_readme :
  Common.new_Range SimpleHost.readme_world = Ok 0%nat SimpleHost.range_world.
Proof. vm_compute. reflexivity. Qed.

(** The scenario of the specification: [setStart(text, 6)] then
    [setEnd(text, 11)] on an Empty Range over [Hello World ] selects
    [World]. *)
Example setStart_setEnd_selects_World :
  exists w,
    (RevA.setStart 0 SimpleHost.hello 6;;
     RevA.setEnd 0 SimpleHost.hello 11;;
     Common.toString 0) SimpleHost.range_world = Ok "World" w.
Proof. eexists. vm_compute. reflexivity. Qed.

Lemma setEnd_moves_end_by_delta_witness :
  (exists w1 r1 tr,
      RevA.anchor 0 SimpleHost.hello SimpleHost.range_world = Ok true w1 /\
      heap w1 !! 0%nat = Some r1 /\ _range r1 = Some tr /\
      RevA.setEnd 0 SimpleHost.hello 11 SimpleHost.range_world
      = ((Common.range_select 0;; RevA._refresh 0) ≫= fun _ => mret true)
          (mkWorld (doc w1)
             (<[0%nat := set_range (Some (fst (tr_moveEnd (doc w1) tr
                                     (11 - txtLenOf SimpleHost.hello)))) r1]> (heap w1))
             (calls w1 ++ [MoveEnd (11 - txtLenOf SimpleHost.hello)]))) /\
  (exists w1 r1 tr,
      RevB.attached (doc SimpleHost.range_world) SimpleHost.hello = true /\
      RevB.anchor 100 0 SimpleHost.hello SimpleHost.range_world = Ok true w1 /\
      heap w1 !! 0%nat = Some r1 /\ _range r1 = Some tr /\
      RevB.setEnd 100 (Some SimpleHost.caller_source) 0 SimpleHost.hello 11
                  SimpleHost.range_world
      = ((Common.range_select 0;; RevB._refresh 100 0) ≫= fun _ => mret true)
          (mkWorld (doc w1)
             (<[0%nat := set_range (Some (fst (tr_moveEnd (doc w1) tr
                                     (11 - txtLenOf SimpleHost.hello)))) r1]> (heap w1))
             (calls w1 ++ [MoveEnd (11 - txtLenOf SimpleHost.hello)]))).
Proof.
  assert (Hnum : Z.abs 11 <= 2 ^ 53) by (vm_compute; discriminate).
  assert (Hexact : Z.abs (txtLenOf SimpleHost.hello - 11) <= 2 ^ 53)
    by (vm_compute; discriminate).
  split.
  - do 3 eexists.
    split; [vm_compute; reflexivity|].
    split; [vm_compute; reflexivity|].
    split; [reflexivity|].
    apply (proj1 (setEnd_moves_end_by_delta 0 SimpleHost.hello 11 Hnum Hexact));
      vm_compute; reflexivity.
  - do 3 eexists.
    split; [vm_compute; reflexivity|].
    split; [vm_compute; reflexivity|].
    split; [vm_compute; reflexivity|].
    split; [reflexivity|].
    apply (proj2 (setEnd_moves_end_by_delta 0 SimpleHost.hello 11 Hnum Hexact));
      vm_compute; reflexivity.
Defined.

(** Claim C8 as stated fails. The end does not move by the delta for
    every offset. On the README document, [setEnd(text, 100)] on the first
    text (12 characters) asks the host for 88 characters; the end was at
    12, the text of the Container ends at 27, and the end moves by 15.
    And the delta itself is the claim's only where the numbers are exact:
    [setEnd(span, -2^53)] on the span (7 characters) asks for
    -9007199254741000, the JS number nearest to -2^53 - 7. *)
Lemma setEnd_end_moves_less_than_delta :
  (exists w1 w',
      RevA.anchor 0 SimpleHost.hello SimpleHost.range_world = Ok true w1 /\
      Common.cursor 0 w1 = Ok (0, 12) w1 /\
      100 - txtLenOf SimpleHost.hello = 88 /\
      tr_moveEnd (doc w1) (0, 12) 88 = ((0, 27), 15) /\
      RevA.setEnd 0 SimpleHost.hello 100 SimpleHost.range_world = Ok true w' /\
      In (MoveEnd 88) (calls w') /\
      Common.cursor 0 w' = Ok (0, 27) w') /\
  (exists w',
      RevA.setEnd 0 SimpleHost.span (- 2 ^ 53) SimpleHost.range_world = Ok true w' /\
      In (MoveEnd (-9007199254741000)) (calls w') /\
      - 2 ^ 53 - txtLenOf SimpleHost.span = -9007199254740999).
Proof.
  split.
  - do 2 eexists.
    split; [vm_compute; reflexivity|].
    split; [vm_compute; reflexivity|].
    split; [reflexivity|].
    split; [vm_compute; reflexivity|].
    split; [vm_compute; reflexivity|].
    split; [|vm_compute; reflexivity].
    simpl. repeat match goal with |- _ \/ _ => (left; reflexivity) || right end.
  - eexists.
    split; [vm_compute; reflexivity|].
    split; [|reflexivity].
    simpl. repeat match goal with |- _ \/ _ => (left; reflexivity) || right end.
Qed.




(** On the README document the small host accepts the Container, the span
    and the parent element of every TextRange. *)
Lemma simple_host_accepts_parent (d : SimpleHost.SDoc) (r r' : Z * Z) :
  SimpleHost.kids d = SimpleHost.readme_kids ->
  tr_moveToElementText d r' (tr_parentElement d r) <> None.
Proof.
  intros Hk. simpl. rewrite Hk. unfold SimpleHost.readme_kids. simpl.
  destruct (_ && _); simpl; [rewrite Hk|]; discriminate.
Qed.

Lemma selectNode_unlocated_not_Empty_witness :
  (exists b w',
      RevA.selectNode 0 SimpleHost.span SimpleHost.range_world = Ok b w' /\ b = true) /\
  (exists w', RevA.selectNode 0 SimpleHost.span SimpleHost.range_world = Ok true w') /\
  (exists w' r',
      RevA.selectNode 0 SimpleHost.loose_text SimpleHost.range_world = Ok true w' /\
      heap w' !! 0%nat = Some r' /\
      commonAncestorContainer r' = JNull /\ startContainer r' = JNull /\
      endContainer r' = JNull /\ endOffset r' = JNum 0 /\
      startOffset r' = JUndefined /\
      ~ is_Empty r' /\
      calls w' = calls SimpleHost.range_world
                 ++ [MoveStart (-10000000); MoveEnd (-10000000)]).
Proof.
  split; [|split].
  - do 2 eexists. split; [vm_compute; reflexivity|].
    eapply (proj1 (selectNode_unlocated_not_Empty 0 SimpleHost.span
                     SimpleHost.range_world)).
    vm_compute. reflexivity.
  - apply (proj1 (proj2 (selectNode_unlocated_not_Empty 0 SimpleHost.span
                           SimpleHost.range_world))
             (fun d => SimpleHost.kids d = SimpleHost.readme_kids)
             SimpleHost.bounderNode).
    + split; [reflexivity|]. do 2 eexists. repeat split.
    + intros d r Hk. exact Hk.
    + intros d r Hk. simpl. discriminate.
    + intros d r r' Hk. apply simple_host_accepts_parent, Hk.
    + intros d r Hk. simpl. rewrite Hk. discriminate.
  - destruct (proj2 (proj2 (selectNode_unlocated_not_Empty 0 SimpleHost.loose_text
                              SimpleHost.range_world))
                (mkRange (Some (0, 0)) SimpleHost.bounderNode JNull JNull JUndefined
                         JNull (JNum 0)) (0, 0))
      as (w' & r' & Hrun & E' & H1 & H2 & H3 & H4 & Hso & Hne & Hcalls);
      [reflexivity|reflexivity|reflexivity|reflexivity|].
    exists w', r'.
    split; [exact Hrun|]. split; [exact E'|]. split; [exact H1|].
    split; [exact H2|]. split; [exact H3|]. split; [exact H4|].
    split; [exact Hso|]. split; [|exact Hcalls].
    apply Hne. discriminate.
Defined.

(** The same after the Range had a start offset: [setStart(text, 6)] on
    the first text leaves start offset 6, and a [selectNode] of a text
    node that is not a child then returns [true] with the containers
    [null] and the start offset still 6. *)
Example selectNode_unlocated_stale_startOffset :
  exists w1 r1 w' r',
    RevA.setStart 0 SimpleHost.hello 6 SimpleHost.range_world = Ok true w1 /\
    heap w1 !! 0%nat = Some r1 /\ startOffset r1 = JNum 6 /\
    RevA.selectNode 0 SimpleHost.loose_text w1 = Ok true w' /\
    heap w' !! 0%nat = Some r' /\
    commonAncestorContainer r' = JNull /\ startOffset r' = JNum 6 /\
    ~ is_Empty r'.
Proof.
  do 4 eexists.
  split; [vm_compute; reflexivity|].
  split; [vm_compute; reflexivity|].
  split; [reflexivity|].
  split; [vm_compute; reflexivity|].
  split; [vm_compute; reflexivity|].
  split; [reflexivity|]. split; [reflexivity|].
  intros (_ & _ & _ & Hso & _). discriminate Hso.
Qed.

(** ** The backward probing loops *)

Section ProbeFacts.
Context {Doc TR : Type} `{!Host Doc TR}.
Local Abbreviation W := (World Doc TR).
Import Common.

#[local] Arguments _isChild : simpl never.

(** Revision B: an iteration that is not a [break] keeps the document,
    moves the TextRange by the host's backward step, and has found the new
    start inside the Container. *)
Lemma RevB_probe_step_continue (bounder : Node) (st st' : RevB.Probe TR) (w w' : W) :
  RevB.probe_step bounder st w = Ok (inl st') w' ->
  doc w' = doc w /\
  RevB.p_r1 st' = fst (tr_moveStart (doc w) (RevB.p_r1 st) (-1)) /\
  start_inside (doc w) bounder (RevB.p_r1 st') = true.
Proof.
  unfold RevB.probe_step, RevB._isBreakout, RevB._isNonPrintTextRangeChar.
  unfold mbind, M_bind, TextRange.moveStart, TextRange.duplicate, TextRange.collapse,
    TextRange.moveEnd, TextRange.parentElement, TextRange.text, TextRange.htmlText.
  simpl.
  destruct (tr_moveStart (doc w) (RevB.p_r1 st) (-1)) as [r1 mv] eqn:Emv. simpl.
  destruct (tr_moveEnd (doc w) (tr_collapse (doc w) r1 true) 1) as [r3 mv3]. simpl.
  rewrite _isChild_on.
  set (ins := isChild_on _ _ _).
  assert (Hins : ins = start_inside (doc w) bounder r1) by reflexivity.
  clearbody ins. simpl.
  destruct ins; simpl; [|discriminate].
  repeat match goal with
         | |- context [if ?c then _ else _] => destruct c; simpl
         end;
    try discriminate;
    intros Hret; injection Hret as <- <-; simpl; repeat split; symmetry; exact Hins.
Qed.

(** Revision B, the guard: when the backward step reports no movement and
    leaves the TextRange as it is, the iteration is a [break] with absolute
    offset 0, provided the count is still 0 or the start was found inside
    the Container by the iteration before. *)
Lemma RevB_probe_step_zero (bounder : Node) (st : RevB.Probe TR) (w : W) :
  snd (tr_moveStart (doc w) (RevB.p_r1 st) (-1)) = 0 ->
  fst (tr_moveStart (doc w) (RevB.p_r1 st) (-1)) = RevB.p_r1 st ->
  RevB.p_i st = 0 \/ start_inside (doc w) bounder (RevB.p_r1 st) = true ->
  exists out w',
    RevB.probe_step bounder st w = Ok (inr out) w' /\ RevB.absOffset out = 0.
Proof.
  intros Hzero Hfix Hinv.
  unfold RevB.probe_step, RevB._isBreakout.
  unfold mbind, M_bind, TextRange.moveStart, TextRange.duplicate, TextRange.collapse,
    TextRange.moveEnd, TextRange.parentElement, TextRange.text.
  simpl.
  destruct (tr_moveStart (doc w) (RevB.p_r1 st) (-1)) as [r1 mv] eqn:Emv.
  simpl in Hzero, Hfix. subst mv r1. simpl.
  destruct (tr_moveEnd (doc w) (tr_collapse (doc w) (RevB.p_r1 st) true) 1) as [r3 mv3].
  simpl. rewrite _isChild_on.
  set (ins := isChild_on _ _ _).
  assert (Hins : ins = start_inside (doc w) bounder (RevB.p_r1 st)) by reflexivity.
  clearbody ins. simpl.
  destruct ins; simpl.
  - destruct (negb (String.eqb (tr_text (doc w) (RevB.p_r1 st)) "")); simpl;
      do 2 eexists; (split; [reflexivity|reflexivity]).
  - destruct Hinv as [Hi|Hin]; [|rewrite Hin in Hins; discriminate].
    do 2 eexists. split; [reflexivity|]. exact Hi.
Qed.

(** Revision B, the claim of C3 on the guarded loop. If the host leaves a
    TextRange as it is whenever a backward step moves no character, then as
    soon as an iteration the loop reaches reports no movement, the loop
    returns, with absolute offset 0, for every fuel from some point on. *)
Lemma RevB_probe_guard (bounder : Node) (st0 st : RevB.Probe TR) (w0 w : W) :
  (forall d r, snd (tr_moveStart d r (-1)) = 0 -> fst (tr_moveStart d r (-1)) = r) ->
  RevB.p_i st0 = 0 \/ start_inside (doc w0) bounder (RevB.p_r1 st0) = true ->
  RevB.probe_reaches bounder st0 w0 st w ->
  snd (tr_moveStart (doc w) (RevB.p_r1 st) (-1)) = 0 ->
  exists (n : nat) out w',
    RevB.absOffset out = 0 /\
    forall fuel, (n <= fuel)%nat -> RevB.probe_loop fuel bounder st0 w0 = Ok out w'.
Proof.
  intros Hlaw Hinv Hreach. induction Hreach as [st w|st st1 st2 w w1 w2 Hstep Hreach IH];
    intros Hzero.
  - destruct (RevB_probe_step_zero bounder st w Hzero (Hlaw _ _ Hzero) Hinv)
      as (out & w' & Hstep & Habs).
    exists 1%nat, out, w'. split; [exact Habs|].
    intros fuel Hfuel. destruct fuel as [|fuel]; [lia|]. simpl.
    rewrite (bind_ok _ _ _ _ _ Hstep). reflexivity.
  - destruct (RevB_probe_step_continue bounder st st1 w w1 Hstep) as (Hdoc & _ & Hin).
    destruct IH as (n & out & w' & Habs & Hrun).
    + right. rewrite Hdoc. exact Hin.
    + exact Hzero.
    + exists (S n), out, w'. split; [exact Habs|].
      intros fuel Hfuel. destruct fuel as [|fuel]; [lia|]. simpl.
      rewrite (bind_ok _ _ _ _ _ Hstep). apply Hrun. lia.
Qed.

End ProbeFacts.

(** The small host leaves a TextRange as it is on a step of no character. *)
Lemma simple_host_zero_move (d : SimpleHost.SDoc) (r : Z * Z) :
  snd (tr_moveStart d r (-1)) = 0 -> fst (tr_moveStart d r (-1)) = r.
Proof.
  simpl. unfold SimpleHost.s_moveStart.
  destruct (SimpleHost.clamp 0 (SimpleHost.chars d) (fst r + -1) =? fst r) eqn:E.
  - reflexivity.
  - simpl. intros Hz. apply Z.eqb_neq in E. lia.
Qed.

(** Revision B on the README document with the caret after [He]: the
    third backward step reports 0 and the loop returns absolute offset 0. *)
Example RevB_probe_on_caret :
  exists out w',
    RevB._getTextAbsOffset 3 0 SimpleHost.caret_world = Ok out w' /\
    RevB.absOffset out = 0.
Proof. do 2 eexists. split; [vm_compute; reflexivity|reflexivity]. Qed.

(** In revision C, at the start of the cursor space, an iteration leaves
    the loop where it was: whatever the fuel, it runs out. *)
Lemma RevC_probe_stuck (fuel : nat) (i : Z) (rt : string) (cs : list Call) :
  RevC.probe_loop fuel SimpleHost.bounderNode (0, 2) i rt
    (mkWorld (doc SimpleHost.caret_world) (heap SimpleHost.caret_world) cs)
  = OutOfFuel.
Proof.
  revert i rt cs. induction fuel as [|fuel IH]; intros i rt cs; [reflexivity|].
  simpl. unfold mbind, M_bind. simpl. apply IH.
Qed.

(** Claim C3 (code defect in revision C). On the README document with the
    caret after [He], the probing loop of revision C (part_001 1513-1530)
    steps back twice; its third step reports no movement, the TextRange
    still lies in the Container, and the loop, which does not look at the
    reported movement, never returns: the model runs out of any fuel. The
    loop of revision B returns absolute offset 0 there. *)
Theorem RevC_probe_never_returns :
  tr_moveStart (doc SimpleHost.caret_world) (0, 2) (-1) = ((0, 2), 0) /\
  forall fuel : nat, RevC._getTextAbsOffset fuel 0 SimpleHost.caret_world = OutOfFuel.
Proof.
  split; [reflexivity|].
  intros fuel. unfold RevC._getTextAbsOffset.
  destruct fuel as [|[|[|fuel]]]; try reflexivity.
  unfold mbind at 1, M_bind at 1. simpl.
  unfold mbind at 1, M_bind at 1. simpl.
  unfold mbind, M_bind. simpl.
  apply RevC_probe_stuck.
Qed.

(** * Further properties of the code

    ** The flat offset space *)

(** Where the scan of [_getTextContainer] stops: the children before the
    node it returns have a total below the target (or there are none), the
    total with the node reaches it, and the offset is the distance from the
    total before the node. *)
Lemma textContainerScan_found (childs : list Node) (tot absOffset : Z)
    (node : Node) (offset : Z) :
  textContainerScan childs tot absOffset = Some (node, offset) ->
  exists pre post,
    childs = pre ++ node :: post /\
    offset = absOffset - (tot + sumLens pre) /\
    absOffset <= tot + sumLens pre + txtLenOf node /\
    (pre = [] \/ tot + sumLens pre < absOffset).
Proof.
  revert tot. induction childs as [|c childs IH]; intros tot Hscan; [discriminate|].
  simpl in Hscan. destruct (tot + txtLenOf c >=? absOffset) eqn:E.
  - injection Hscan as <- <-. exists [], childs. simpl.
    apply Z.geb_le in E.
    split; [reflexivity|]. split; [lia|]. split; [lia|now left].
  - destruct (IH _ Hscan) as (pre & post & -> & Hoff & Hle & Hpre).
    exists (c :: pre), post. simpl.
    assert (tot + txtLenOf c < absOffset).
    { destruct (Z.geb_spec (tot + txtLenOf c) absOffset); [discriminate|lia]. }
    pose proof (sumLens_nonneg pre).
    split; [reflexivity|]. split; [lia|]. split; [lia|right].
    destruct Hpre as [->|Hlt]; simpl; lia.
Qed.

(** In a list of distinct identities, the prefix before an element is the
    list up to its index. *)
Lemma lookup_middle_ident (pre post : list Node) (node : Node) :
  (pre ++ node :: post) !! length pre = Some node /\
  take (length pre) (pre ++ node :: post) = pre.
Proof.
  split.
  - apply list_lookup_middle. reflexivity.
  - rewrite take_app_length. reflexivity.
Qed.

(** Round trip: a flat offset that resolves to [(node, offset)] is the
    start of the span of [node] plus [offset]; the offset does not exceed
    the length of the node, and it is positive unless the node is the first
    child. *)
Theorem resolve_then_span (childs : list Node) (absOffset : Z)
    (node : Node) (offset : Z) :
  NoDup (map ident childs) ->
  resolveNodeAt childs absOffset = Some (node, offset) ->
  exists start endv : Z,
    spanOf childs node = Some (start, endv) /\
    start + offset = absOffset /\
    offset <= endv - start /\
    (childs !! 0%nat = Some node \/ 0 < offset).
Proof.
  intros Hnd Hres. unfold resolveNodeAt in Hres.
  destruct (textContainerScan_found _ _ _ _ _ Hres)
    as (pre & post & -> & Hoff & Hle & Hpre).
  destruct (lookup_middle_ident pre post node) as (Hk & Htake).
  exists (sumLens pre), (sumLens pre + txtLenOf node).
  rewrite (spanOf_at _ _ _ Hnd Hk), Htake.
  split; [reflexivity|]. split; [lia|]. split; [lia|].
  destruct Hpre as [->|Hlt]; [left; reflexivity|right; lia].
Qed.

Lemma resolve_then_span_witness :
  exists start endv : Z,
    spanOf SimpleHost.readme_kids SimpleHost.span = Some (start, endv) /\
    start + 5 = 17 /\ 5 <= endv - start /\
    (SimpleHost.readme_kids !! 0%nat = Some SimpleHost.span \/ 0 < 5).
Proof.
  apply (resolve_then_span SimpleHost.readme_kids 17 SimpleHost.span 5).
  - apply (bool_decide_unpack _). vm_compute. reflexivity.
  - reflexivity.
Defined.

(** Within the total length a Container with children always resolves. *)
Lemma textContainerScan_within (childs : list Node) (tot absOffset : Z) :
  childs <> [] ->
  absOffset <= tot + sumLens childs ->
  exists x, textContainerScan childs tot absOffset = Some x.
Proof.
  revert tot. induction childs as [|c childs IH]; intros tot Hne Hle; [congruence|].
  simpl in *. destruct (tot + txtLenOf c >=? absOffset) eqn:E; [eexists; reflexivity|].
  assert (tot + txtLenOf c < absOffset).
  { destruct (Z.geb_spec (tot + txtLenOf c) absOffset); [discriminate|lia]. }
  apply IH; [|lia]. intros ->. simpl in Hle. lia.
Qed.

(** The scan finds an owning child exactly when the Container has children
    and the offset does not exceed their total length; an empty Container
    resolves nothing, not even offset 0. *)
Theorem resolve_found_iff (childs : list Node) (absOffset : Z) :
  resolveNodeAt childs absOffset = None <->
  childs = [] \/ sumLens childs < absOffset.
Proof.
  unfold resolveNodeAt. split.
  - intros Hnone. destruct childs as [|c childs]; [now left|right].
    destruct (Z.lt_ge_cases (sumLens (c :: childs)) absOffset) as [Hlt|Hge];
      [exact Hlt|exfalso].
    destruct (textContainerScan_within (c :: childs) 0 absOffset) as (x & Hx);
      [discriminate|lia|congruence].
  - intros [->|Hlt]; [reflexivity|]. apply textContainerScan_beyond. lia.
Qed.

(** The identity scan of [_selectTextNode] finds nothing exactly when no
    child has the identity of the reference node. *)
Lemma selectTextScan_None (childs : list Node) (tot : Z) (referenceNode : Node) :
  selectTextScan childs tot referenceNode = None <->
  ident referenceNode ∉ map ident childs.
Proof.
  revert tot. induction childs as [|c childs IH]; intros tot; simpl.
  - split; [intros _; apply not_elem_of_nil|reflexivity].
  - unfold same_node. destruct (Nat.eqb (ident c) (ident referenceNode)) eqn:E.
    + apply Nat.eqb_eq in E. split; [discriminate|].
      intros Hnot. exfalso. apply Hnot. rewrite E. apply list_elem_of_here.
    + apply Nat.eqb_neq in E. rewrite IH, not_elem_of_cons. split.
      * intros H. split; [congruence|exact H].
      * intros [_ H]. exact H.
Qed.

(** The spans tile the flat space: a node has a span exactly when it is a
    child (by identity); the first child starts at 0, each child starts
    where the child before it ends, and the last child ends at the total
    length. *)
Theorem spans_tile (childs : list Node) :
  NoDup (map ident childs) ->
  (forall n, spanOf childs n = None <-> ident n ∉ map ident childs) /\
  (forall c, childs !! 0%nat = Some c ->
     spanOf childs c = Some (0, txtLenOf c)) /\
  (forall k a b s e,
     childs !! k = Some a -> childs !! S k = Some b ->
     spanOf childs a = Some (s, e) ->
     spanOf childs b = Some (e, e + txtLenOf b)) /\
  (forall c s e,
     last childs = Some c -> spanOf childs c = Some (s, e) ->
     e = sumLens childs).
Proof.
  intros Hnd. split; [|split; [|split]].
  - intros n. unfold spanOf. rewrite <- (selectTextScan_None childs 0 n).
    destruct (selectTextScan childs 0 n) as [[node totLen]|]; split; congruence.
  - intros c Hc. rewrite (spanOf_at childs 0 c Hnd Hc). reflexivity.
  - intros k a b s e Ha Hb Hspan.
    rewrite (spanOf_at childs k a Hnd Ha) in Hspan. injection Hspan as <- <-.
    rewrite (spanOf_at childs (S k) b Hnd Hb).
    rewrite (take_S_r childs k a Ha), sumLens_app. simpl.
    do 2 f_equal; lia.
  - intros c s e Hlast Hspan.
    rewrite last_lookup in Hlast.
    rewrite (spanOf_at childs _ c Hnd Hlast) in Hspan. injection Hspan as <- <-.
    rewrite <- (take_drop_middle childs _ c Hlast) at 3.
    rewrite sumLens_app. simpl.
    rewrite drop_ge; [simpl; lia|].
    destruct childs; simpl in *; lia.
Qed.

Lemma spans_tile_witness :
  (forall n, spanOf SimpleHost.readme_kids n = None
             <-> ident n ∉ map ident SimpleHost.readme_kids) /\
  (forall c, SimpleHost.readme_kids !! 0%nat = Some c ->
     spanOf SimpleHost.readme_kids c = Some (0, txtLenOf c)) /\
  (forall k a b s e,
     SimpleHost.readme_kids !! k = Some a -> SimpleHost.readme_kids !! S k = Some b ->
     spanOf SimpleHost.readme_kids a = Some (s, e) ->
     spanOf SimpleHost.readme_kids b = Some (e, e + txtLenOf b)) /\
  (forall c s e,
     last SimpleHost.readme_kids = Some c ->
     spanOf SimpleHost.readme_kids c = Some (s, e) ->
     e = sumLens SimpleHost.readme_kids).
Proof.
  apply (spans_tile SimpleHost.readme_kids).
  apply (bool_decide_unpack _). vm_compute. reflexivity.
Defined.

(** ** The Selection set, further *)

Section SelectionSet.
Context {Doc TR : Type} `{!Host Doc TR}.
Local Abbreviation W := (World Doc TR).
Import Common.

(** [addRange] and [getRangeAt] (rangeie.js 113-128, part_001 59-74).
    In both revisions [addRange] appends: the array is longer by one, the
    new Range is read back at the old length, the earlier indices read as
    before, and an index from the new length on reads [undefined]. Neither
    call touches the host or a Range object. *)
Theorem addRange_then_getRangeAt (sel : Selection) (range : nat) (w : W) :
  exists sel' : Selection,
    RevA.addRange sel range w = Ok (sel', true) w /\
    RevB.addRange sel range w = Ok (sel', true) w /\
    length (_ranges sel') = S (length (_ranges sel)) /\
    RevA.getRangeAt sel' (length (_ranges sel)) w = Ok (Some range) w /\
    (forall i, (i < length (_ranges sel))%nat ->
       RevA.getRangeAt sel' i w = RevA.getRangeAt sel i w) /\
    (forall i, (length (_ranges sel') <= i)%nat ->
       RevA.getRangeAt sel' i w = Ok None w).
Proof.
  exists (mkSelection (_ranges sel ++ [Some range])).
  split; [reflexivity|]. split; [reflexivity|].
  split; [simpl; rewrite length_app; simpl; lia|].
  split; [|split].
  - unfold RevA.getRangeAt, range_at. simpl.
    rewrite list_lookup_middle; reflexivity.
  - intros i Hi. unfold RevA.getRangeAt, range_at. simpl.
    rewrite lookup_app_l by exact Hi. reflexivity.
  - intros i Hi. unfold RevA.getRangeAt, range_at.
    rewrite (lookup_ge_None_2 _ _ Hi). reflexivity.
Qed.

Lemma detach_detaches (this : nat) (r : RangeObj TR) (w : W) :
  heap w !! this = Some r ->
  is_detached this (store this (reset_fields (set_range None r)) w).
Proof.
  intros E. exists (reset_fields (set_range None r)).
  split; [apply (lookup_store _ _ _ _ E)|]. repeat split.
Qed.

Lemma detach_keeps_detached (this range : nat) (r : RangeObj TR) (w : W) :
  heap w !! this = Some r ->
  is_detached range w ->
  is_detached range (store this (reset_fields (set_range None r)) w).
Proof.
  intros E Hd. destruct (decide (range = this)) as [->|Hne].
  - apply detach_detaches, E.
  - destruct Hd as (r' & E' & Hr'). exists r'. split; [|exact Hr'].
    unfold store. simpl. rewrite list_lookup_insert_ne by congruence. exact E'.
Qed.

Lemma store_keeps_objects (this range : nat) (r r' : RangeObj TR) (w : W) :
  heap w !! this = Some r ->
  is_Some (heap w !! range) -> is_Some (heap (store this r' w) !! range).
Proof.
  intros E Hs. destruct (decide (range = this)) as [->|Hne].
  - rewrite (lookup_store _ _ _ _ E). eexists; reflexivity.
  - unfold store. simpl. rewrite list_lookup_insert_ne by congruence. exact Hs.
Qed.

(** The loop of revision B on an array of Range references: every slot
    is removed. *)
Lemma RevB_removeAllRanges_from_all (l : list (option nat)) (w : W) :
  (forall slot, slot ∈ l -> exists range, slot = Some range /\ is_Some (heap w !! range)) ->
  exists w',
    RevB.removeAllRanges_from (length l) (mkSelection l) w = Ok (mkSelection []) w' /\
    doc w' = doc w /\ calls w' = calls w /\
    (forall range, is_Some (heap w !! range) -> is_Some (heap w' !! range)) /\
    (forall range, is_detached range w -> is_detached range w') /\
    (forall range, Some range ∈ l -> is_detached range w').
Proof.
  revert w. induction l as [|slot l IH] using rev_ind; intros w Hall.
  - exists w. simpl. repeat split; try tauto.
    intros range Hin. apply elem_of_nil in Hin. contradiction.
  - destruct (Hall slot) as (range & -> & r & E);
      [apply elem_of_app; right; apply list_elem_of_singleton; reflexivity|].
    rewrite length_app. simpl. rewrite Nat.add_1_r. simpl.
    unfold RevB._removeRange at 1. unfold range_at. simpl.
    rewrite list_lookup_middle by reflexivity.
    rewrite (bind_ok _ _ w (store range (reset_fields (set_range None r)) w)
               (mkSelection l, true)).
    2:{ rewrite (bind_ok _ _ _ _ _ (detach_ok _ _ _ E)).
        rewrite insert_app_r_alt by lia. rewrite Nat.sub_diag. simpl.
        rewrite delete_middle. rewrite app_nil_r. reflexivity. }
    simpl.
    destruct (IH (store range (reset_fields (set_range None r)) w))
      as (w' & Hrun & Hdoc & Hcalls & Hobj & Hkeep & Hdet).
    { intros slot Hin. destruct (Hall slot) as (range' & -> & Hs);
        [apply elem_of_app; left; exact Hin|].
      exists range'. split; [reflexivity|].
      apply (store_keeps_objects _ _ _ _ _ E Hs). }
    exists w'. split; [exact Hrun|]. split; [exact Hdoc|]. split; [exact Hcalls|].
    split; [|split].
    + intros range' Hs. apply Hobj. apply (store_keeps_objects _ _ _ _ _ E Hs).
    + intros range' Hd. apply Hkeep. apply (detach_keeps_detached _ _ _ _ E Hd).
    + intros range' Hin. apply elem_of_app in Hin as [Hin|Hin].
      * apply Hdet, Hin.
      * apply list_elem_of_singleton in Hin. injection Hin as ->.
        apply Hkeep. apply detach_detaches, E.
Qed.

(** [removeAllRanges] of revision B (part_001 82-88, with [_removeRange]
    174-179). On a Selection whose slots all hold Range objects it returns
    [true] and leaves the array empty; every Range it held is detached;
    the document and the active selection are untouched and no host
    primitive is called. *)
Theorem RevB_removeAllRanges_empties (sel : Selection) (w : W) :
  (forall slot, slot ∈ _ranges sel ->
     exists range, slot = Some range /\ is_Some (heap w !! range)) ->
  exists w',
    RevB.removeAllRanges sel w = Ok (mkSelection [], true) w' /\
    doc w' = doc w /\ calls w' = calls w /\
    (forall range, Some range ∈ _ranges sel -> is_detached range w').
Proof.
  intros Hall. destruct sel as [l]. simpl in *.
  destruct (RevB_removeAllRanges_from_all l w Hall)
    as (w' & Hrun & Hdoc & Hcalls & _ & _ & Hdet).
  exists w'. split; [|auto].
  unfold RevB.removeAllRanges. simpl. rewrite (bind_ok _ _ _ _ _ Hrun). reflexivity.
Qed.

(** The loop of revision A from index [n] down: the slots below [n]
    become holes, the array keeps its length. *)
Lemma RevA_removeAllRanges_from_all (n : nat) (l : list (option nat)) (w : W) :
  (n <= length l)%nat ->
  (forall i slot, (i < n)%nat -> l !! i = Some slot ->
     exists range, slot = Some range /\ is_Some (heap w !! range)) ->
  exists w',
    RevA.removeAllRanges_from n (mkSelection l) w
    = Ok (mkSelection (replicate n None ++ drop n l)) w' /\
    doc w' = doc w /\ calls w' = calls w /\
    (forall range, is_Some (heap w !! range) -> is_Some (heap w' !! range)) /\
    (forall range, is_detached range w -> is_detached range w') /\
    (forall i range, (i < n)%nat -> l !! i = Some (Some range) -> is_detached range w').
Proof.
  revert l w. induction n as [|i IH]; intros l w Hn Hall.
  - exists w. simpl. rewrite drop_0. repeat split; try tauto. intros; lia.
  - destruct (lookup_lt_is_Some_2 l i) as (slot & Hslot); [lia|].
    destruct (Hall i slot) as (range & -> & r & E); [lia|exact Hslot|].
    simpl. unfold RevA._removeRange at 1. unfold range_at. simpl. rewrite Hslot.
    rewrite (bind_ok _ _ w (store range (reset_fields (set_range None r)) w)
               (mkSelection (<[i := None]> l), true)).
    2:{ rewrite (bind_ok _ _ _ _ _ (detach_ok _ _ _ E)). reflexivity. }
    simpl.
    destruct (IH (<[i := None]> l) (store range (reset_fields (set_range None r)) w))
      as (w' & Hrun & Hdoc & Hcalls & Hobj & Hkeep & Hdet).
    { rewrite length_insert. lia. }
    { intros j slot Hj Hl. rewrite list_lookup_insert_ne in Hl by lia.
      destruct (Hall j slot) as (range' & -> & Hs); [lia|exact Hl|].
      exists range'. split; [reflexivity|].
      apply (store_keeps_objects _ _ _ _ _ E Hs). }
    exists w'. split; [|split; [exact Hdoc|split; [exact Hcalls|split; [|split]]]].
    + rewrite Hrun. do 2 f_equal.
      rewrite drop_insert_ge by lia. rewrite Nat.sub_diag.
      rewrite (drop_S l (Some range) i Hslot). simpl.
      rewrite (cons_middle None (replicate i None)), app_assoc.
      rewrite <- replicate_cons_app. reflexivity.
    + intros range' Hs. apply Hobj. apply (store_keeps_objects _ _ _ _ _ E Hs).
    + intros range' Hd. apply Hkeep. apply (detach_keeps_detached _ _ _ _ E Hd).
    + intros j range' Hj Hl. destruct (decide (j = i)) as [->|Hne].
      * rewrite Hslot in Hl. injection Hl as ->.
        apply Hkeep. apply detach_detaches, E.
      * apply (Hdet j range'); [lia|].
        rewrite list_lookup_insert_ne by congruence. exact Hl.
Qed.

(** [removeAllRanges] of revision A (rangeie.js 136-142, with
    [_removeRange] 229-233). On a Selection whose slots all hold Range
    objects it returns [true] and every Range is detached, but the array
    keeps its length, every slot a hole; when there was a Range at all, a
    second [removeAllRanges], [collapseToStart], [collapseToEnd] and
    [toString] on the Selection then raise a TypeError. *)
Theorem RevA_removeAllRanges_leaves_holes (sel : Selection) (w : W) :
  (forall slot, slot ∈ _ranges sel ->
     exists range, slot = Some range /\ is_Some (heap w !! range)) ->
  let holes := mkSelection (replicate (length (_ranges sel)) None) in
  exists w',
    RevA.removeAllRanges sel w = Ok (holes, true) w' /\
    doc w' = doc w /\ calls w' = calls w /\
    (forall range, Some range ∈ _ranges sel -> is_detached range w') /\
    (_ranges sel <> [] ->
       RevA.removeAllRanges holes w' = Throw TypeError w' /\
       RevA.collapseToStart holes w' = Throw TypeError w' /\
       RevA.collapseToEnd holes w' = Throw TypeError w' /\
       RevA.Selection_toString holes w' = Throw TypeError w').
Proof.
  intros Hall holes. destruct sel as [l]. simpl in *.
  destruct (RevA_removeAllRanges_from_all (length l) l w)
    as (w' & Hrun & Hdoc & Hcalls & _ & _ & Hdet); [lia| |].
  { intros i slot _ Hl. apply Hall. apply list_elem_of_lookup. eauto. }
  rewrite drop_all, app_nil_r in Hrun.
  exists w'. split; [|split; [exact Hdoc|split; [exact Hcalls|split]]].
  - unfold RevA.removeAllRanges. simpl. rewrite (bind_ok _ _ _ _ _ Hrun). reflexivity.
  - intros range Hin. apply list_elem_of_lookup in Hin as (i & Hi).
    apply (Hdet i range); [|exact Hi]. apply lookup_lt_Some in Hi. exact Hi.
  - intros Hne. subst holes.
    destruct l as [|slot l]; [contradiction|]. clear.
    unfold RevA.removeAllRanges, RevA.collapseToStart, RevA.collapseToEnd,
      RevA.Selection_toString. simpl.
    rewrite length_replicate. simpl. rewrite Nat.sub_0_r.
    unfold RevA._removeRange, range_at. simpl.
    assert (Hl : (None :: replicate (length l) (@None nat)) !! length l = Some None).
    { change (replicate (S (length l)) (@None nat) !! length l = Some None).
      apply lookup_replicate_2. lia. }
    rewrite Hl. repeat split.
Qed.

(** [removeRange] of revision A (rangeie.js 151-162, with [_removeRange]
    229-233), for a Range object that exists. When no slot holds it the
    call returns [false] and nothing changes. When some slot holds it the
    call returns [true], the Range is detached, and the slot that held
    it becomes a hole: the array keeps its length and reading that index
    gives [undefined]. *)
Theorem RevA_removeRange_spec (sel : Selection) (range : nat) (r : RangeObj TR)
    (w : W) :
  heap w !! range = Some r ->
  ((forall i, range_at sel i <> Some range) ->
     RevA.removeRange sel range w = Ok (sel, false) w) /\
  ((exists i, range_at sel i = Some range) ->
     exists i,
       range_at sel i = Some range /\
       RevA.removeRange sel range w
       = Ok (mkSelection (<[i := None]> (_ranges sel)), true)
            (store range (reset_fields (set_range None r)) w) /\
       length (<[i := None]> (_ranges sel)) = length (_ranges sel) /\
       range_at (mkSelection (<[i := None]> (_ranges sel))) i = None).
Proof.
  intros Hr. split.
  - intros Habs. apply RevA_removeRange_from_absent. intros i _. apply Habs.
  - intros (i & Hat).
    assert (Hi : (i < length (_ranges sel))%nat).
    { unfold range_at in Hat. destruct (_ranges sel !! i) eqn:E; [|discriminate].
      apply lookup_lt_Some in E. exact E. }
    destruct (RevA_removeRange_from_present (length (_ranges sel)) sel range r w Hr)
      as (j & sel' & Hj & Hjat & -> & Hlen & Hrun); [exists i; split; assumption|].
    exists j. split; [exact Hjat|]. split; [exact Hrun|].
    split; [apply length_insert|].
    unfold range_at. simpl. rewrite list_lookup_insert_eq by exact Hj. reflexivity.
Qed.

End SelectionSet.

Lemma two_slots (slot : option nat) :
  slot ∈ [Some 0%nat; Some 1%nat] ->
  exists range, slot = Some range /\
    is_Some (heap SimpleHost.two_range_world !! range).
Proof.
  intros Hin. apply elem_of_cons in Hin as [->|Hin].
  - exists 0%nat. split; [reflexivity|]. eexists. reflexivity.
  - apply list_elem_of_singleton in Hin as ->.
    exists 1%nat. split; [reflexivity|]. eexists. reflexivity.
Qed.

Lemma RevB_removeAllRanges_empties_witness :
  exists w',
    RevB.removeAllRanges (mkSelection [Some 0%nat; Some 1%nat])
      SimpleHost.two_range_world = Ok (mkSelection [], true) w' /\
    doc w' = doc SimpleHost.two_range_world /\
    calls w' = calls SimpleHost.two_range_world /\
    (forall range, Some range ∈ [Some 0%nat; Some 1%nat] ->
       Common.is_detached range w').
Proof.
  exact (RevB_removeAllRanges_empties (mkSelection [Some 0%nat; Some 1%nat])
           SimpleHost.two_range_world two_slots).
Defined.

Lemma RevA_removeAllRanges_leaves_holes_witness :
  exists w',
    RevA.removeAllRanges (mkSelection [Some 0%nat; Some 1%nat])
      SimpleHost.two_range_world = Ok (mkSelection [None; None], true) w' /\
    doc w' = doc SimpleHost.two_range_world /\
    calls w' = calls SimpleHost.two_range_world /\
    (forall range, Some range ∈ [Some 0%nat; Some 1%nat] ->
       Common.is_detached range w') /\
    ([Some 0%nat; Some 1%nat] <> [] ->
       RevA.removeAllRanges (mkSelection [None; None]) w' = Throw TypeError w' /\
       RevA.collapseToStart (mkSelection [None; None]) w' = Throw TypeError w' /\
       RevA.collapseToEnd (mkSelection [None; None]) w' = Throw TypeError w' /\
       RevA.Selection_toString (mkSelection [None; None]) w' = Throw TypeError w').
Proof.
  exact (RevA_removeAllRanges_leaves_holes (mkSelection [Some 0%nat; Some 1%nat])
           SimpleHost.two_range_world two_slots).
Defined.

Lemma RevA_removeRange_spec_witness :
  let sel := mkSelection [Some 0%nat; Some 1%nat] in
  let w := SimpleHost.two_range_world in
  ((forall i, range_at sel i <> Some 1%nat) ->
     RevA.removeRange sel 1 w = Ok (sel, false) w) /\
  ((exists i, range_at sel i = Some 1%nat) ->
     exists i,
       range_at sel i = Some 1%nat /\
       RevA.removeRange sel 1 w
       = Ok (mkSelection (<[i := None]> (_ranges sel)), true)
            (Common.store 1
               (Common.reset_fields (set_range None SimpleHost.world_range)) w) /\
       length (<[i := None]> (_ranges sel)) = length (_ranges sel) /\
       range_at (mkSelection (<[i := None]> (_ranges sel))) i = None).
Proof.
  exact (RevA_removeRange_spec (mkSelection [Some 0%nat; Some 1%nat]) 1
           SimpleHost.world_range SimpleHost.two_range_world eq_refl).
Defined.

(** ** What the refresh touches

    The resolvers only read; [_refresh] then assigns public fields of its
    own Range and nothing else. *)

Section Frame.
Context {Doc TR : Type} `{!Host Doc TR}.
Local Abbreviation W := (World Doc TR).
Import Common.

#[local] Arguments _isChild : simpl never.

Lemma reads_only_ret {A} (a : A) : reads_only (mret a : M W A).
Proof. intros w. split; reflexivity. Qed.

Lemma reads_only_throw {A} (e : Exn) : reads_only (throw e : M W A).
Proof. intros w. split; reflexivity. Qed.

Lemma reads_only_bind {A B} (c : M W A) (f : A -> M W B) :
  reads_only c -> (forall a, reads_only (f a)) -> reads_only (c ≫= f).
Proof.
  intros Hc Hf w. unfold mbind, M_bind. specialize (Hc w).
  destruct (c w) as [a w1|e w1|]; [|exact Hc|exact I].
  specialize (Hf a w1). destruct Hc as [Hd Hh].
  destruct (f a w1) as [b w2|e w2|]; [| |exact I];
    destruct Hf as [Hd' Hh']; split; congruence.
Qed.

Lemma reads_only_load (this : nat) : reads_only (load this : M W (RangeObj TR)).
Proof. intros w. unfold load. destruct (heap w !! this); split; reflexivity. Qed.

Lemma reads_only_cursor (this : nat) : reads_only (cursor this : M W TR).
Proof.
  apply reads_only_bind; [apply reads_only_load|]. intros r.
  destruct (_range r); [apply reads_only_ret|apply reads_only_throw].
Qed.

Lemma reads_only_createRange : reads_only (TextRange.createRange : M W TR).
Proof. intros w. split; reflexivity. Qed.

Lemma reads_only_moveToElementText (r : TR) (node : option Node) :
  reads_only (TextRange.moveToElementText r node : M W TR).
Proof.
  intros w. unfold TextRange.moveToElementText.
  destruct (tr_moveToElementText (doc w) r node); split; reflexivity.
Qed.

Lemma reads_only_moveStart (r : TR) (n : Z) :
  reads_only (TextRange.moveStart r n : M W (TR * Z)).
Proof. intros w. split; reflexivity. Qed.

Lemma reads_only_moveEnd (r : TR) (n : Z) :
  reads_only (TextRange.moveEnd r n : M W (TR * Z)).
Proof. intros w. split; reflexivity. Qed.

Lemma reads_only_collapse (r : TR) (toStart : bool) :
  reads_only (TextRange.collapse r toStart : M W TR).
Proof. intros w. split; reflexivity. Qed.

Lemma reads_only_duplicate (r : TR) : reads_only (TextRange.duplicate r : M W TR).
Proof. intros w. split; reflexivity. Qed.

Lemma reads_only_parentElement (r : TR) :
  reads_only (TextRange.parentElement r : M W (option Node)).
Proof. intros w. split; reflexivity. Qed.

Lemma reads_only_text (r : TR) : reads_only (TextRange.text r : M W string).
Proof. intros w. split; reflexivity. Qed.

Lemma reads_only_htmlText (r : TR) : reads_only (TextRange.htmlText r : M W string).
Proof. intros w. split; reflexivity. Qed.

Lemma reads_only_childNodes (node : Node) :
  reads_only (childNodes node : M W (list Node)).
Proof. intros w. split; reflexivity. Qed.

Lemma reads_only_isChild (parent child : option Node) :
  reads_only (_isChild parent child : M W bool).
Proof. intros w. rewrite _isChild_on. split; reflexivity. Qed.

Create HintDb reads.

#[local] Hint Resolve reads_only_ret reads_only_throw reads_only_load
  reads_only_cursor reads_only_createRange reads_only_moveToElementText
  reads_only_moveStart reads_only_moveEnd reads_only_collapse
  reads_only_duplicate reads_only_parentElement reads_only_text
  reads_only_htmlText reads_only_childNodes reads_only_isChild : reads.

Ltac reads_step :=
  match goal with
  | |- reads_only (_ ≫= _) => apply reads_only_bind; [|intros ?]
  | |- reads_only (let '(_, _) := ?p in _) => destruct p
  | |- reads_only (match ?x with _ => _ end) => destruct x
  | |- reads_only _ => solve [auto with reads]
  end.

Lemma reads_only_range_parentElement (this : nat) :
  reads_only (range_parentElement this : M W (option Node)).
Proof. unfold range_parentElement. repeat reads_step. Qed.

Lemma reads_only_range_text (this : nat) :
  reads_only (range_text this : M W string).
Proof. unfold range_text. repeat reads_step. Qed.

Lemma reads_only_getNodeContainer (this : nat) :
  reads_only (_getNodeContainer this : M W (option (JsVal * Z))).
Proof.
  unfold _getNodeContainer, _getElmOffset.
  apply reads_only_bind; [apply reads_only_range_parentElement|]. intros node.
  repeat reads_step.
Qed.

Lemma reads_only_RevA_getContainer (this : nat) :
  reads_only (RevA._getContainer this : M W (option (JsVal * Z))).
Proof.
  unfold RevA._getContainer.
  apply reads_only_bind; [apply reads_only_range_parentElement|]. intros parent.
  apply reads_only_bind; [apply reads_only_load|]. intros r.
  destruct (same_ref parent (Some (_bounder r))); [|apply reads_only_getNodeContainer].
  unfold RevA._getTextContainer, RevA._getTextAbsOffset. repeat reads_step.
Qed.

Lemma reads_only_RevB_probe_step (bounder : Node) (st : RevB.Probe TR) :
  reads_only (RevB.probe_step bounder st : M W (RevB.Probe TR + RevB.OffsetFinder)).
Proof.
  unfold RevB.probe_step, RevB._isBreakout, RevB._isNonPrintTextRangeChar.
  repeat reads_step.
Qed.

Lemma reads_only_RevB_probe_loop (fuel : nat) (bounder : Node) (st : RevB.Probe TR) :
  reads_only (RevB.probe_loop fuel bounder st : M W RevB.OffsetFinder).
Proof.
  revert st. induction fuel as [|fuel IH]; intros st; simpl.
  - intros w. exact I.
  - apply reads_only_bind; [apply reads_only_RevB_probe_step|].
    intros [st'|out]; [apply IH|apply reads_only_ret].
Qed.

Lemma reads_only_RevB_getTextAbsOffset (fuel : nat) (this : nat) :
  reads_only (RevB._getTextAbsOffset fuel this : M W RevB.OffsetFinder).
Proof.
  unfold RevB._getTextAbsOffset.
  apply reads_only_bind; [apply reads_only_createRange|]. intros r1.
  apply reads_only_bind; [apply reads_only_load|]. intros r.
  apply reads_only_RevB_probe_loop.
Qed.

Lemma reads_only_RevB_getContainer (fuel : nat) (this : nat) :
  reads_only (RevB._getContainer fuel this : M W (option (JsVal * Z))).
Proof.
  unfold RevB._getContainer.
  apply reads_only_bind; [apply reads_only_range_parentElement|]. intros parent.
  apply reads_only_bind; [apply reads_only_load|]. intros r.
  destruct (same_ref parent (Some (_bounder r))); [|apply reads_only_getNodeContainer].
  unfold RevB._getTextContainer.
  apply reads_only_bind; [apply reads_only_load|]. intros r'.
  apply reads_only_bind; [apply reads_only_childNodes|]. intros childs.
  apply reads_only_bind; [apply reads_only_RevB_getTextAbsOffset|]. intros out.
  repeat reads_step.
Qed.

Lemma reads_only_RevC_probe_loop (fuel : nat) (bounder : Node) (r1 : TR) (i : Z)
    (rt : string) :
  reads_only (RevC.probe_loop fuel bounder r1 i rt : M W Z).
Proof.
  revert r1 i rt. induction fuel as [|fuel IH]; intros r1 i rt; simpl.
  - intros w. exact I.
  - apply reads_only_bind; [apply reads_only_moveStart|]. intros [r1' m].
    apply reads_only_bind; [apply reads_only_parentElement|]. intros p.
    apply reads_only_bind; [apply reads_only_isChild|]. intros inside.
    destruct (negb inside); [apply reads_only_ret|].
    apply reads_only_bind; [apply reads_only_text|]. intros t1.
    apply reads_only_bind; [repeat reads_step|]. intros changed.
    apply reads_only_bind; [apply reads_only_text|]. intros rt'.
    apply IH.
Qed.

(** The resolvers of the three revisions only read
    ([_getContainer], rangeie.js 534-546 and part_001 507-519, with
    [_getTextContainer], [_getNodeContainer], [_getElmOffset] and
    [_getTextAbsOffset], rangeie.js 570-648, part_001 546-590, 683-733 and
    1513-1530; [_getTextContainer2], part_001 602-636; [toString],
    rangeie.js 408-411): whether they return or throw, the document, the
    active selection and every Range object, the TextRange of the Range
    included, are as before; the probing is done on TextRanges of their
    own. *)
Theorem resolvers_only_read (this : nat) (fuel : nat) :
  reads_only (RevA._getContainer this : M W _) /\
  reads_only (RevB._getContainer fuel this : M W _) /\
  reads_only (RevB._getTextContainer2 fuel this : M W _) /\
  reads_only (RevC._getTextAbsOffset fuel this : M W _) /\
  reads_only (toString this : M W _).
Proof.
  split; [apply reads_only_RevA_getContainer|].
  split; [apply reads_only_RevB_getContainer|].
  split; [|split].
  - unfold RevB._getTextContainer2.
    apply reads_only_bind; [apply reads_only_load|]. intros r.
    apply reads_only_bind; [apply reads_only_childNodes|]. intros childs.
    apply reads_only_bind; [apply reads_only_RevB_getTextAbsOffset|]. intros out.
    repeat reads_step.
  - unfold RevC._getTextAbsOffset.
    apply reads_only_bind; [apply reads_only_createRange|]. intros r1.
    apply reads_only_bind; [apply reads_only_load|]. intros r.
    apply reads_only_RevC_probe_loop.
  - apply reads_only_range_text.
Qed.

(** *** Assigning fields *)

Lemma only_fields_reads (this : nat) {A} (c : M W A) :
  reads_only c -> only_fields this c.
Proof.
  intros Hc w. cbv zeta. specialize (Hc w).
  destruct (c w) as [a w'|e w'|]; [| |exact I]; destruct Hc as [Hd Hh];
    (split; [exact Hd|]); rewrite Hh;
    (split; [reflexivity|]); (split; [reflexivity|]);
    intros r E; exists r; auto.
Qed.

Lemma only_fields_bind (this : nat) {A B} (c : M W A) (f : A -> M W B) :
  only_fields this c -> (forall a, only_fields this (f a)) ->
  only_fields this (c ≫= f).
Proof.
  intros Hc Hf w. cbv zeta. unfold mbind, M_bind.
  specialize (Hc w). cbv zeta in Hc.
  destruct (c w) as [a w1|e w1|]; [|exact Hc|exact I].
  specialize (Hf a w1). cbv zeta in Hf.
  destruct Hc as (Hd & Hl & Ho & Ht).
  assert (Hkept : forall w2 : W,
    doc w2 = doc w1 /\ length (heap w2) = length (heap w1) /\
    (forall other, other <> this -> heap w2 !! other = heap w1 !! other) /\
    (forall r, heap w1 !! this = Some r ->
       exists r', heap w2 !! this = Some r' /\
                  _range r' = _range r /\ _bounder r' = _bounder r) ->
    doc w2 = doc w /\ length (heap w2) = length (heap w) /\
    (forall other, other <> this -> heap w2 !! other = heap w !! other) /\
    (forall r, heap w !! this = Some r ->
       exists r', heap w2 !! this = Some r' /\
                  _range r' = _range r /\ _bounder r' = _bounder r)).
  { intros w2 (Hd' & Hl' & Ho' & Ht').
    split; [congruence|]. split; [congruence|]. split.
    - intros other Hne. rewrite (Ho' other Hne). apply Ho, Hne.
    - intros r E. destruct (Ht r E) as (r1 & E1 & Hr1 & Hb1).
      destruct (Ht' r1 E1) as (r2 & E2 & Hr2 & Hb2).
      exists r2. split; [exact E2|]. split; congruence. }
  destruct (f a w1) as [b w2|e w2|]; [| |exact I]; apply Hkept, Hf.
Qed.

Lemma only_fields_update (this : nat) (f : RangeObj TR -> RangeObj TR) :
  (forall r, _range (f r) = _range r /\ _bounder (f r) = _bounder r) ->
  only_fields this (update this f : M W unit).
Proof.
  intros Hf w. cbv zeta. unfold update.
  destruct (heap w !! this) as [r|] eqn:E.
  - unfold store. simpl. split; [reflexivity|].
    split; [apply length_insert|]. split.
    + intros other Hne. apply list_lookup_insert_ne. congruence.
    + intros r0 E0. injection E0 as <-. exists (f r).
      split; [|apply Hf]. apply list_lookup_insert_eq.
      apply lookup_lt_Some in E. exact E.
  - split; [reflexivity|]. split; [reflexivity|]. split; [reflexivity|].
    intros r0 E0. discriminate.
Qed.

Ltac fields_step this :=
  match goal with
  | |- only_fields _ (_ ≫= _) => apply only_fields_bind; [|intros ?]
  | |- only_fields _ (update _ _) =>
      apply only_fields_update; intros ?; split; reflexivity
  | |- only_fields _ (mret _) => apply only_fields_reads, reads_only_ret
  end.

Lemma only_fields_reset (this : nat) : only_fields this (_reset this : M W bool).
Proof. unfold _reset. repeat fields_step this. Qed.

Lemma only_fields_RevA_refresh (this : nat) :
  only_fields this (RevA._refresh this : M W bool).
Proof.
  unfold RevA._refresh.
  apply only_fields_bind;
    [apply only_fields_reads, reads_only_RevA_getContainer|].
  intros container.
  apply only_fields_bind; [|intros ?; apply only_fields_reads, reads_only_ret].
  destruct container as [[node offset]|]; [|apply only_fields_reset].
  repeat fields_step this.
Qed.

Lemma only_fields_RevB_refresh (fuel : nat) (this : nat) :
  only_fields this (RevB._refresh fuel this : M W bool).
Proof.
  unfold RevB._refresh.
  apply only_fields_bind;
    [apply only_fields_reads, reads_only_RevB_getContainer|].
  intros container.
  apply only_fields_bind; [|intros ?; apply only_fields_reads, reads_only_ret].
  destruct container as [[node offset]|]; [|apply only_fields_reset].
  repeat fields_step this.
Qed.

(** [_refresh] (rangeie.js 513-526, part_001 486-499) and [_reset]
    (rangeie.js 498-505) touch nothing but the public fields of their own
    Range: whether they return or throw, the document and the active
    selection, the other Range objects, and the TextRange and the
    Container of the Range itself are as before. *)
Theorem refresh_touches_only_fields (this : nat) (fuel : nat) :
  only_fields this (RevA._refresh this : M W _) /\
  only_fields this (RevB._refresh fuel this : M W _) /\
  only_fields this (_reset this : M W _).
Proof.
  split; [apply only_fields_RevA_refresh|].
  split; [apply only_fields_RevB_refresh|apply only_fields_reset].
Qed.

End Frame.

(** ** The life of a Range object *)

Section RangeLife.
Context {Doc TR : Type} `{!Host Doc TR}.
Local Abbreviation W := (World Doc TR).
Import Common.

Lemma cursor_none (this : nat) (r : RangeObj TR) (w : W) :
  heap w !! this = Some r -> _range r = None ->
  cursor this w = Throw TypeError w.
Proof.
  intros E En. unfold cursor. rewrite (bind_ok _ _ _ _ _ (load_ok _ _ _ E)).
  rewrite En. reflexivity.
Qed.

Lemma range_collapse_ok (this : nat) (toStart : bool) (r : RangeObj TR) (tr : TR)
    (w : W) :
  heap w !! this = Some r -> _range r = Some tr ->
  range_collapse this toStart w
  = Ok tt (mkWorld (doc w)
             (<[this := set_range (Some (tr_collapse (doc w) tr toStart)) r]> (heap w))
             (calls w ++ [Collapse toStart])).
Proof.
  intros E Etr. unfold range_collapse.
  rewrite (bind_ok _ _ _ _ _ (cursor_ok _ _ _ _ E Etr)).
  unfold TextRange.collapse, mbind, M_bind, update. simpl. rewrite E. reflexivity.
Qed.

Lemma range_select_ok (this : nat) (r : RangeObj TR) (tr : TR) (w : W) :
  heap w !! this = Some r -> _range r = Some tr ->
  range_select this w
  = Ok tt (mkWorld (tr_select (doc w) tr) (heap w) (calls w ++ [Select])).
Proof.
  intros E Etr. unfold range_select.
  rewrite (bind_ok _ _ _ _ _ (cursor_ok _ _ _ _ E Etr)). reflexivity.
Qed.

(** The methods of a Range that owns no TextRange. *)
Lemma no_cursor_throws (this : nat) (r : RangeObj TR) (w : W)
    (node : Node) (offset : Z) (toStart : bool) :
  heap w !! this = Some r -> _range r = None ->
  commonAncestorContainer r = JNull ->
  toString this w = Throw TypeError w /\
  RevA.collapse this toStart w = Throw TypeError w /\
  RevA.selectNode this node w = Throw TypeError w /\
  RevA.selectNodeContents this node w = Throw TypeError w /\
  RevA.setStart this node offset w = Throw TypeError w /\
  RevA.setEnd this node offset w = Throw TypeError w /\
  RevA.insertNode this node w = Throw TypeError w.
Proof.
  intros E En Hnull.
  pose proof (cursor_none this r w E En) as Hc.
  assert (Hcol : forall b, range_collapse this b w = Throw TypeError w).
  { intros b. apply bind_throw, Hc. }
  assert (Hmt : forall n, range_moveToElementText this n w = Throw TypeError w).
  { intros n. apply bind_throw, Hc. }
  assert (Hms : forall n, range_moveStart this n w = Throw TypeError w).
  { intros n. apply bind_throw, Hc. }
  assert (Hsel : RevA._selectNode this node w = Throw TypeError w).
  { unfold RevA._selectNode. destruct (_isTextNode node).
    - unfold RevA._selectTextNode.
      rewrite (bind_ok _ _ _ _ _ (load_ok _ _ _ E)).
      rewrite (bind_ok _ _ w w (dom_childNodes (doc w) (_bounder r))) by reflexivity.
      destruct (spanOf _ node) as [[totLen endVal]|]; apply bind_throw; auto.
    - unfold _selectElmNode. apply bind_throw, Hmt. }
  assert (Hanchor : RevA.anchor this node w = Throw TypeError w).
  { unfold RevA.anchor. rewrite (bind_ok _ _ _ _ _ (load_ok _ _ _ E)).
    rewrite Hnull. exact Hsel. }
  split; [apply bind_throw, Hc|].
  split; [apply bind_throw, Hcol|].
  split; [apply bind_throw, Hsel|].
  split; [apply bind_throw, Hmt|].
  split; [apply bind_throw, Hanchor|].
  split; [apply bind_throw, Hanchor|].
  apply bind_throw. apply bind_throw, Hcol.
Qed.

(** [detach] (rangeie.js 383-387) and what is left of the Range. After
    [detach] the Range owns no TextRange and its containers are [null];
    a second [detach] returns [true] and changes nothing; [toString],
    [collapse], [selectNode], [selectNodeContents], [setStart], [setEnd]
    and [insertNode] raise a TypeError before any host call, leaving
    everything as it is; [deleteContents] (rangeie.js 395-399) still
    returns [true] and deletes what the active selection of the document
    holds, since it never consults the TextRange of its Range. *)
Theorem detached_range_is_inert (this : nat) (r : RangeObj TR) (w : W)
    (node : Node) (offset : Z) (toStart : bool) :
  heap w !! this = Some r ->
  let w1 := store this (reset_fields (set_range None r)) w in
  detach this w = Ok true w1 /\
  is_detached this w1 /\
  detach this w1 = Ok true w1 /\
  toString this w1 = Throw TypeError w1 /\
  RevA.collapse this toStart w1 = Throw TypeError w1 /\
  RevA.selectNode this node w1 = Throw TypeError w1 /\
  RevA.selectNodeContents this node w1 = Throw TypeError w1 /\
  RevA.setStart this node offset w1 = Throw TypeError w1 /\
  RevA.setEnd this node offset w1 = Throw TypeError w1 /\
  RevA.insertNode this node w1 = Throw TypeError w1 /\
  exists w2,
    deleteContents this w1 = Ok true w2 /\
    doc w2 = doc_execCommand (doc w) "Delete" /\
    calls w2 = calls w ++ [ExecCommand "Delete"] /\
    is_detached this w2.
Proof.
  intros E w1.
  pose proof (lookup_store this r (reset_fields (set_range None r)) w E) as E1.
  fold w1 in E1.
  split; [apply detach_ok, E|].
  split; [exists (reset_fields (set_range None r)); repeat split; exact E1|].
  split.
  { rewrite (detach_ok _ _ _ E1). subst w1. rewrite store_store. reflexivity. }
  destruct (no_cursor_throws this _ w1 node offset toStart E1 eq_refl eq_refl)
    as (H1 & H2 & H3 & H4 & H5 & H6 & H7).
  do 7 (split; [assumption|]).
  set (w' := mkWorld (doc_execCommand (doc w1) "Delete") (heap w1)
                     (calls w1 ++ [ExecCommand "Delete"])).
  assert (E' : heap w' !! this = Some (reset_fields (set_range None r))) by exact E1.
  exists (store this (reset_fields (reset_fields (set_range None r))) w').
  split.
  { unfold deleteContents.
    rewrite (bind_ok _ _ w1 w' tt) by reflexivity.
    rewrite (bind_ok _ _ _ _ _ (_reset_ok _ _ _ E')). reflexivity. }
  split; [reflexivity|]. split; [reflexivity|].
  exists (reset_fields (reset_fields (set_range None r))).
  split; [apply (lookup_store _ _ _ _ E')|]. repeat split.
Qed.

(** Once a Range is positioned ([commonAncestorContainer] is not [null]),
    [setStart] (rangeie.js 299-314, part_001 254-270) never looks at its
    node: any two nodes give the same run, in revision B any two attached
    nodes; [setEnd] (rangeie.js 326-348) looks at nothing but the length
    of its node. The boundary is moved from where the TextRange is, not
    from the node. *)
Theorem positioned_range_ignores_node (this : nat) (r : RangeObj TR) (w : W)
    (n1 n2 : Node) (offset : Z) :
  heap w !! this = Some r ->
  commonAncestorContainer r <> JNull ->
  RevA.setStart this n1 offset w = RevA.setStart this n2 offset w /\
  (forall fuel clr,
      RevB.attached (doc w) n1 = true -> RevB.attached (doc w) n2 = true ->
      RevB.setStart fuel clr this n1 offset w
      = RevB.setStart fuel clr this n2 offset w) /\
  (txtLenOf n1 = txtLenOf n2 ->
     RevA.setEnd this n1 offset w = RevA.setEnd this n2 offset w).
Proof.
  intros E Hpos.
  assert (Hnull : is_null (commonAncestorContainer r) = false).
  { destruct (commonAncestorContainer r); try reflexivity. contradiction. }
  assert (HA : forall n, RevA.anchor this n w = Ok true w).
  { intros n. unfold RevA.anchor. rewrite (bind_ok _ _ _ _ _ (load_ok _ _ _ E)).
    rewrite Hnull. reflexivity. }
  assert (HB : forall fuel n, RevB.anchor fuel this n w = Ok true w).
  { intros fuel n. unfold RevB.anchor. rewrite (bind_ok _ _ _ _ _ (load_ok _ _ _ E)).
    rewrite Hnull. reflexivity. }
  split; [|split].
  - unfold RevA.setStart.
    rewrite (bind_ok _ _ _ _ _ (HA n1)), (bind_ok _ _ _ _ _ (HA n2)). reflexivity.
  - intros fuel clr H1 H2. unfold RevB.setStart.
    rewrite (bind_ok _ _ _ _ _ (_checkNode_attached clr n1 "setStart" w H1)).
    rewrite (bind_ok _ _ _ _ _ (_checkNode_attached clr n2 "setStart" w H2)).
    rewrite (bind_ok _ _ _ _ _ (HB fuel n1)), (bind_ok _ _ _ _ _ (HB fuel n2)).
    reflexivity.
  - intros Hlen. unfold RevA.setEnd.
    rewrite (bind_ok _ _ _ _ _ (HA n1)), (bind_ok _ _ _ _ _ (HA n2)).
    unfold txtLenOf in Hlen. rewrite Hlen. reflexivity.
Qed.

End RangeLife.

Lemma detached_range_is_inert_witness :
  let w1 := Common.store 1
              (Common.reset_fields (set_range None SimpleHost.world_range))
              SimpleHost.two_range_world in
  Common.detach 1 SimpleHost.two_range_world = Ok true w1 /\
  Common.is_detached 1 w1 /\
  Common.detach 1 w1 = Ok true w1 /\
  Common.toString 1 w1 = Throw TypeError w1 /\
  RevA.collapse 1 true w1 = Throw TypeError w1 /\
  RevA.selectNode 1 SimpleHost.hello w1 = Throw TypeError w1 /\
  RevA.selectNodeContents 1 SimpleHost.hello w1 = Throw TypeError w1 /\
  RevA.setStart 1 SimpleHost.hello 3 w1 = Throw TypeError w1 /\
  RevA.setEnd 1 SimpleHost.hello 3 w1 = Throw TypeError w1 /\
  RevA.insertNode 1 SimpleHost.hello w1 = Throw TypeError w1 /\
  exists w2,
    Common.deleteContents 1 w1 = Ok true w2 /\
    doc w2 = doc_execCommand (doc SimpleHost.two_range_world) "Delete" /\
    calls w2 = calls SimpleHost.two_range_world ++ [ExecCommand "Delete"] /\
    Common.is_detached 1 w2.
Proof.
  exact (detached_range_is_inert 1 SimpleHost.world_range SimpleHost.two_range_world
           SimpleHost.hello 3 true eq_refl).
Defined.

Lemma whole_range_positioned :
  commonAncestorContainer SimpleHost.whole_range <> JNull.
Proof. discriminate. Qed.

Lemma positioned_range_ignores_node_witness :
  RevA.setStart 0 SimpleHost.hello 2 SimpleHost.two_range_world
  = RevA.setStart 0 SimpleHost.baz 2 SimpleHost.two_range_world /\
  (forall fuel clr,
      RevB.attached (doc SimpleHost.two_range_world) SimpleHost.hello = true ->
      RevB.attached (doc SimpleHost.two_range_world) SimpleHost.baz = true ->
      RevB.setStart fuel clr 0 SimpleHost.hello 2 SimpleHost.two_range_world
      = RevB.setStart fuel clr 0 SimpleHost.baz 2 SimpleHost.two_range_world) /\
  (txtLenOf SimpleHost.hello = txtLenOf SimpleHost.baz ->
     RevA.setEnd 0 SimpleHost.hello 2 SimpleHost.two_range_world
     = RevA.setEnd 0 SimpleHost.baz 2 SimpleHost.two_range_world).
Proof.
  exact (positioned_range_ignores_node 0 SimpleHost.whole_range
           SimpleHost.two_range_world SimpleHost.hello SimpleHost.baz 2
           eq_refl whole_range_positioned).
Defined.

(** ** Construction and commit *)

Section Commit.
Context {Doc TR : Type} `{!Host Doc TR}.
Local Abbreviation W := (World Doc TR).
Import Common.

(** [new RangeIE.Range()]: the new object is appended to the heap with the
    TextRange of the active selection and the focused element. *)
Lemma new_Range_ok (w : W) :
  new_Range w
  = Ok (length (heap w))
       (mkWorld (doc w)
          (heap w ++ [mkRange (Some (doc_createRange (doc w)))
                              (doc_activeElement (doc w))
                              JNull JNull JUndefined JNull (JNum 0)])
          (calls w ++ [CreateRange])).
Proof.
  unfold new_Range.
  rewrite (bind_ok _ _ w (TextRange.record CreateRange w) (doc_createRange (doc w)))
    by reflexivity.
  rewrite (bind_ok _ _ (TextRange.record CreateRange w) (TextRange.record CreateRange w)
             (doc_activeElement (doc w))) by reflexivity.
  set (obj := mkRange (Some (doc_createRange (doc w))) (doc_activeElement (doc w))
                      JUndefined JUndefined JUndefined JUndefined JUndefined).
  set (w0 := mkWorld (doc w) (heap w ++ [obj]) (calls w ++ [CreateRange])).
  rewrite (bind_ok _ _ (TextRange.record CreateRange w) w0 (length (heap w)))
    by reflexivity.
  assert (E0 : heap w0 !! length (heap w) = Some obj).
  { simpl. apply list_lookup_middle. reflexivity. }
  rewrite (bind_ok _ _ _ _ _ (_reset_ok _ _ _ E0)).
  unfold store, mret, M_ret. simpl. do 2 f_equal.
  rewrite insert_app_r_alt by lia. rewrite Nat.sub_diag. reflexivity.
Qed.

(** A Selection built by creating a Range, refreshing it with [rf] and
    adding it. *)
Lemma new_Selection_shape (rf : nat -> M W bool) (w : W) (sel : Selection) (w' : W) :
  (forall this, only_fields this (rf this)) ->
  (new_Range ≫= fun range =>
     rf range ≫= fun _ =>
       RevA.addRange (mkSelection []) range ≫= fun '(sel, _) => mret sel) w
  = Ok sel w' ->
  _ranges sel = [Some (length (heap w))] /\
  doc w' = doc w /\
  length (heap w') = S (length (heap w)) /\
  (forall other, (other < length (heap w))%nat -> heap w' !! other = heap w !! other) /\
  exists r, heap w' !! length (heap w) = Some r /\
            _range r = Some (doc_createRange (doc w)) /\
            _bounder r = doc_activeElement (doc w).
Proof.
  intros Hrf. rewrite (bind_ok _ _ _ _ _ (new_Range_ok w)).
  set (obj := mkRange (Some (doc_createRange (doc w))) (doc_activeElement (doc w))
                      JNull JNull JUndefined JNull (JNum 0)).
  set (w1 := mkWorld (doc w) (heap w ++ [obj]) (calls w ++ [CreateRange])).
  specialize (Hrf (length (heap w)) w1). cbv zeta in Hrf.
  unfold mbind, M_bind.
  destruct (rf (length (heap w)) w1) as [b w2|e w2|]; try discriminate.
  simpl. intros Hret. injection Hret as <- <-.
  destruct Hrf as (Hd & Hl & Ho & Ht).
  split; [reflexivity|]. split; [exact Hd|].
  split; [rewrite Hl; simpl; rewrite length_app; simpl; lia|].
  split.
  - intros other Hlt. rewrite Ho by lia. simpl. apply lookup_app_l, Hlt.
  - destruct (Ht obj) as (r' & E' & Hr' & Hb').
    { simpl. apply list_lookup_middle. reflexivity. }
    exists r'. split; [exact E'|]. split; assumption.
Qed.

(** The constructor of the Selection (rangeie.js 91-99, part_001 37-45)
    with the constructor of the Range (rangeie.js 241-250). Whenever it
    returns, the Selection holds exactly one Range, a new object that owns
    the TextRange of the active selection and is bound to the focused
    element; the document, the active selection and the Range objects
    that existed are untouched. In revision A it does return wherever the
    host accepts the focused element and the parent element of a
    TextRange in [moveToElementText]. *)
Theorem new_Selection_holds_one_Range (fuel : nat) (w : W) :
  let fresh (sel : Selection) (w' : W) :=
    _ranges sel = [Some (length (heap w))] /\
    doc w' = doc w /\
    length (heap w') = S (length (heap w)) /\
    (forall other, (other < length (heap w))%nat ->
       heap w' !! other = heap w !! other) /\
    exists r, heap w' !! length (heap w) = Some r /\
              _range r = Some (doc_createRange (doc w)) /\
              _bounder r = doc_activeElement (doc w) in
  (forall sel w', RevA.new_Selection w = Ok sel w' -> fresh sel w') /\
  (forall sel w', RevB.new_Selection fuel w = Ok sel w' -> fresh sel w') /\
  (forall good : Doc -> Prop,
      good (doc w) ->
      (forall d r, good d ->
         tr_moveToElementText d r (Some (doc_activeElement (doc w))) <> None) ->
      (forall d r r', good d ->
         tr_moveToElementText d r' (tr_parentElement d r) <> None) ->
      exists sel w', RevA.new_Selection w = Ok sel w').
Proof.
  intros fresh. split; [|split].
  - intros sel w' Hrun.
    apply (new_Selection_shape (fun this => RevA._refresh this) w sel w');
      [|exact Hrun].
    intros this. apply only_fields_RevA_refresh.
  - intros sel w' Hrun.
    apply (new_Selection_shape (fun this => RevB._refresh fuel this) w sel w');
      [|exact Hrun].
    intros this. apply only_fields_RevB_refresh.
  - intros good Hg Hb Hp. unfold RevA.new_Selection.
    rewrite (bind_ok _ _ _ _ _ (new_Range_ok w)).
    set (w1 := mkWorld _ _ _).
    destruct (returns_RevA_refresh good (length (heap w))
                (doc_activeElement (doc w)) Hb Hp w1) as (b & w2 & Hrun & _).
    { split; [exact Hg|]. do 2 eexists.
      split; [simpl; apply list_lookup_middle; reflexivity|].
      split; reflexivity. }
    rewrite (bind_ok _ _ _ _ _ Hrun). do 2 eexists. reflexivity.
Qed.

(** Collapsing a Range, refreshing it with [rf] and committing it. *)
Lemma collapse_select_commits (range : nat) (toStart : bool) (rf : M W bool)
    (r : RangeObj TR) (tr : TR) (w : W) (b : bool) (w' : W) :
  only_fields range rf ->
  heap w !! range = Some r -> _range r = Some tr ->
  ((range_collapse range toStart ≫= fun _ => rf ≫= fun _ => mret true)
     ≫= fun _ => range_select range ≫= fun _ => mret true) w = Ok b w' ->
  b = true /\
  doc w' = tr_select (doc w) (tr_collapse (doc w) tr toStart) /\
  exists r', heap w' !! range = Some r' /\
             _range r' = Some (tr_collapse (doc w) tr toStart).
Proof.
  intros Hrf E Etr.
  pose proof (range_collapse_ok range toStart r tr w E Etr) as Hcol.
  set (tr' := tr_collapse (doc w) tr toStart) in *.
  set (w1 := mkWorld (doc w) (<[range := set_range (Some tr') r]> (heap w))
                     (calls w ++ [Collapse toStart])) in *.
  assert (E1 : heap w1 !! range = Some (set_range (Some tr') r)).
  { simpl. apply list_lookup_insert_eq. apply lookup_lt_Some in E. exact E. }
  specialize (Hrf w1). cbv zeta in Hrf.
  unfold mbind, M_bind. rewrite Hcol.
  destruct (rf w1) as [b1 w2|e w2|]; try discriminate.
  destruct Hrf as (Hd & _ & _ & Ht).
  destruct (Ht _ E1) as (r2 & E2 & Hr2 & _). simpl in Hr2.
  simpl. rewrite (range_select_ok range r2 tr' w2 E2 Hr2).
  intros Hret. injection Hret as <- <-.
  split; [reflexivity|]. split; [simpl; rewrite Hd; reflexivity|].
  exists r2. split; [exact E2|exact Hr2].
Qed.

(** [collapseToStart] and [collapseToEnd] of revision A (rangeie.js
    170-201) and [collapseToStart] of revision B (part_001 116-127)
    commit what they collapse. With the first Range of the Selection
    owning the TextRange [tr], whenever [collapseToStart] returns it
    returns [true], the active selection of the document is [tr]
    collapsed to its start, and the Range owns that TextRange; the same
    for [collapseToEnd] of revision A with the last Range and its end. In
    revision A both do return on a live Range wherever the host accepts
    the Container and the parent element of a TextRange in
    [moveToElementText]. *)
Theorem collapseTo_commits (sel : Selection) (first last : nat)
    (rfirst rlast : RangeObj TR) (tfirst tlast : TR) (w : W) :
  range_at sel 0 = Some first ->
  heap w !! first = Some rfirst -> _range rfirst = Some tfirst ->
  range_at sel (length (_ranges sel) - 1) = Some last ->
  heap w !! last = Some rlast -> _range rlast = Some tlast ->
  let committed (range : nat) (tr : TR) (toStart : bool) (b : bool) (w' : W) :=
    b = true /\
    doc w' = tr_select (doc w) (tr_collapse (doc w) tr toStart) /\
    exists r', heap w' !! range = Some r' /\
               _range r' = Some (tr_collapse (doc w) tr toStart) in
  (forall b w', RevA.collapseToStart sel w = Ok b w' ->
     committed first tfirst true b w') /\
  (forall fuel b w', RevB.collapseToStart fuel sel w = Ok b w' ->
     committed first tfirst true b w') /\
  (forall b w', RevA.collapseToEnd sel w = Ok b w' ->
     committed last tlast false b w') /\
  (forall good : Doc -> Prop,
      good (doc w) ->
      (forall d r, good d -> good (tr_select d r)) ->
      (forall d r r', good d ->
         tr_moveToElementText d r' (tr_parentElement d r) <> None) ->
      (forall d r, good d ->
         tr_moveToElementText d r (Some (_bounder rfirst)) <> None) ->
      (forall d r, good d ->
         tr_moveToElementText d r (Some (_bounder rlast)) <> None) ->
      (exists w', RevA.collapseToStart sel w = Ok true w') /\
      (exists w', RevA.collapseToEnd sel w = Ok true w')).
Proof.
  intros Hfirst Ef Etf Hlast El Etl committed.
  assert (Hlen : (0 <? length (_ranges sel))%nat = true).
  { apply Nat.ltb_lt. unfold range_at in Hfirst.
    destruct (_ranges sel !! 0%nat) eqn:E0; [|discriminate].
    apply lookup_lt_Some in E0. exact E0. }
  split; [|split; [|split]].
  - intros b w'. unfold RevA.collapseToStart. rewrite Hlen, Hfirst.
    apply (collapse_select_commits first true (RevA._refresh first) rfirst tfirst w b w');
      [apply only_fields_RevA_refresh|exact Ef|exact Etf].
  - intros fuel b w'. unfold RevB.collapseToStart. rewrite Hlen, Hfirst.
    apply (collapse_select_commits first true (RevB._refresh fuel first)
             rfirst tfirst w b w');
      [apply only_fields_RevB_refresh|exact Ef|exact Etf].
  - intros b w'. unfold RevA.collapseToEnd. rewrite Hlen, Hlast.
    apply (collapse_select_commits last false (RevA._refresh last) rlast tlast w b w');
      [apply only_fields_RevA_refresh|exact El|exact Etl].
  - intros good Hg Hsel Hp Hbf Hbl.
    assert (Hret : forall range r tr toStart,
               heap w !! range = Some r -> _range r = Some tr ->
               (forall d r0, good d ->
                  tr_moveToElementText d r0 (Some (_bounder r)) <> None) ->
               exists w',
                 ((RevA.collapse range toStart ≫= fun _ =>
                     range_select range ≫= fun _ => mret true) : M W bool) w
                 = Ok true w').
    { intros range r tr toStart E Etr Hb.
      destruct (returns_bind good range (_bounder r)
                  (RevA.collapse range toStart)
                  (fun _ => range_select range ≫= fun _ => mret true)) with (w := w)
        as (b & w' & Hrun & _).
      - unfold RevA.collapse.
        apply returns_bind; [apply returns_range_collapse|intros _].
        apply returns_bind; [apply returns_RevA_refresh; assumption|intros _].
        apply returns_ret.
      - intros _. apply returns_bind; [apply returns_range_select, Hsel|intros _].
        apply returns_ret.
      - split; [exact Hg|]. exists r, tr. repeat split; assumption.
      - exists w'. rewrite Hrun. f_equal.
        revert Hrun. unfold mbind, M_bind.
        destruct (RevA.collapse range toStart w) as [x w1|e w1|]; try discriminate.
        destruct (range_select range w1) as [y w2|e w2|]; try discriminate.
        simpl. intros Hrun. injection Hrun as <- _. reflexivity. }
    split.
    + unfold RevA.collapseToStart. rewrite Hlen, Hfirst.
      apply (Hret first rfirst tfirst true Ef Etf Hbf).
    + unfold RevA.collapseToEnd. rewrite Hlen, Hlast.
      apply (Hret last rlast tlast false El Etl Hbl).
Qed.

End Commit.

Lemma collapseTo_commits_witness :
  let sel := mkSelection [Some 0%nat; Some 1%nat] in
  let w := SimpleHost.two_range_world in
  let committed (range : nat) (tr : Z * Z) (toStart : bool) (b : bool)
        (w' : World SimpleHost.SDoc (Z * Z)) :=
    b = true /\
    doc w' = tr_select (doc w) (tr_collapse (doc w) tr toStart) /\
    exists r', heap w' !! range = Some r' /\
               _range r' = Some (tr_collapse (doc w) tr toStart) in
  (forall b w', RevA.collapseToStart sel w = Ok b w' ->
     committed 0%nat (0, 27) true b w') /\
  (forall fuel b w', RevB.collapseToStart fuel sel w = Ok b w' ->
     committed 0%nat (0, 27) true b w') /\
  (forall b w', RevA.collapseToEnd sel w = Ok b w' ->
     committed 1%nat (6, 11) false b w') /\
  (forall good : SimpleHost.SDoc -> Prop,
      good (doc w) ->
      (forall d r, good d -> good (tr_select d r)) ->
      (forall d r r', good d ->
         tr_moveToElementText d r' (tr_parentElement d r) <> None) ->
      (forall d r, good d ->
         tr_moveToElementText d r (Some (_bounder SimpleHost.whole_range)) <> None) ->
      (forall d r, good d ->
         tr_moveToElementText d r (Some (_bounder SimpleHost.world_range)) <> None) ->
      (exists w', RevA.collapseToStart sel w = Ok true w') /\
      (exists w', RevA.collapseToEnd sel w = Ok true w')).
Proof.
  exact (collapseTo_commits (mkSelection [Some 0%nat; Some 1%nat]) 0 1
           SimpleHost.whole_range SimpleHost.world_range (0, 27) (6, 11)
           SimpleHost.two_range_world eq_refl eq_refl eq_refl eq_refl eq_refl eq_refl).
Defined.

(** ** The scans of revisions B and C *)

(** The [do ... while] of [_getTextContainer] in revision B (part_001
    554-563) clamps the index of the probe into the children: it yields
    the child at [nodeIndex] when there is one, else the last child, and
    [undefined] only when the Container has no child at all. *)
Theorem lastDefined_clamps (childs : list Node) (nodeIndex : nat) :
  RevB.lastDefined childs nodeIndex
  = match childs !! Nat.min nodeIndex (length childs - 1) with
    | Some node => JNode node
    | None => JUndefined
    end /\
  (RevB.lastDefined childs nodeIndex = JUndefined <-> childs = []).
Proof.
  assert (Hclamp : RevB.lastDefined childs nodeIndex
                   = match childs !! Nat.min nodeIndex (length childs - 1) with
                     | Some node => JNode node
                     | None => JUndefined
                     end).
  { induction nodeIndex as [|n IH].
    - simpl. destruct (childs !! 0%nat); reflexivity.
    - change (RevB.lastDefined childs (S n))
        with (match childs !! S n with
              | Some node => JNode node
              | None => RevB.lastDefined childs n
              end).
      destruct (childs !! S n) as [node|] eqn:E.
      + pose proof (lookup_lt_Some _ _ _ E) as Hlt.
        rewrite Nat.min_l by lia. rewrite E. reflexivity.
      + apply lookup_ge_None in E. rewrite IH.
        rewrite (Nat.min_r n) by lia. rewrite (Nat.min_r (S n)) by lia.
        reflexivity. }
  split; [exact Hclamp|]. rewrite Hclamp. split.
  - destruct childs as [|c childs]; [reflexivity|].
    destruct (lookup_lt_is_Some_2 (c :: childs)
                (Nat.min nodeIndex (length (c :: childs) - 1))) as (x & Hx).
    { simpl. lia. }
    rewrite Hx. discriminate.
  - intros ->. reflexivity.
Qed.

Lemma lengthBefore_scan (childs : list Node) (tot : Z) (node : Node) :
  RevB.lengthBefore childs tot node
  = match selectTextScan childs tot node with
    | Some (_, t) => t
    | None => tot + sumLens childs
    end.
Proof.
  revert tot. induction childs as [|c childs IH]; intros tot; simpl; [lia|].
  destruct (same_node c node); [reflexivity|].
  rewrite IH. destruct (selectTextScan childs (tot + txtLenOf c) node) as [[x t]|];
    [reflexivity|lia].
Qed.

(** The length that [_selectTextNode] of revision B sums before it cuts
    the text of the Container (part_001 406-418) is the start of the span
    that revision A computes for the same node (rangeie.js 442-464); for a
    node that is not a child, where revision A reports failure, revision B
    goes on with the total length of the children. *)
Theorem lengthBefore_is_span_start (childs : list Node) (node : Node) :
  RevB.lengthBefore childs 0 node
  = match spanOf childs node with
    | Some (start, _) => start
    | None => sumLens childs
    end.
Proof.
  rewrite lengthBefore_scan. unfold spanOf.
  destruct (selectTextScan childs 0 node) as [[x t]|]; [reflexivity|lia].
Qed.

(** [_getTextContainer2] of revision B (part_001 602-636) counts an empty
    child as one character ([cnode.length || 1]); on children that all
    have text its scan is the scan of revision A (rangeie.js 578-603). *)
Theorem textContainerScan2_agrees (childs : list Node) (totLen absOffset : Z) :
  (forall c, c ∈ childs -> 0 < txtLenOf c) ->
  RevB.textContainerScan2 childs totLen absOffset
  = textContainerScan childs totLen absOffset.
Proof.
  revert totLen. induction childs as [|c childs IH]; intros totLen Hpos; [reflexivity|].
  simpl. unfold RevB.txtLenOr1.
  assert (Hc : 0 < txtLenOf c) by (apply Hpos; left).
  replace (txtLenOf c =? 0) with false by (symmetry; apply Z.eqb_neq; lia).
  destruct (totLen + txtLenOf c >=? absOffset); [reflexivity|].
  apply IH. intros x Hx. apply Hpos. right. exact Hx.
Qed.

Lemma textContainerScan2_agrees_witness :
  RevB.textContainerScan2 SimpleHost.readme_kids 0 17
  = textContainerScan SimpleHost.readme_kids 0 17.
Proof.
  apply (textContainerScan2_agrees SimpleHost.readme_kids 0 17).
  intros c Hc. unfold SimpleHost.readme_kids in Hc.
  repeat (apply elem_of_cons in Hc as [->|Hc]; [reflexivity|]).
  apply elem_of_nil in Hc. contradiction.
Defined.

Section Attached.
Context {Doc TR : Type} `{!Host Doc TR}.
Local Abbreviation W := (World Doc TR).
Import Common.

(** What [_checkNode] accepts (part_001 835-851, through [_isAncestor],
    804-826). With the document as the parent, the walk up from the node
    stops with success at the first node that is named [html] or is the
    document itself: a node is accepted exactly when it or one of its
    ancestors is such a node. The name alone decides: a subtree that is
    not in the document passes when its root is an element named [html]. *)
Theorem attached_iff (d : Doc) (node : Node) :
  RevB.attached d node = true <->
  exists c, c ∈ node :: dom_ancestors d node /\
    (String.eqb (js_toLowerCase (nodeName c)) "html" = true \/
     same_node c (doc_document d) = true).
Proof.
  unfold RevB.attached.
  generalize (node :: dom_ancestors d node) as chain.
  generalize (doc_document d) as documentNode. intros documentNode chain.
  induction chain as [|child rest IH]; simpl.
  - split; [discriminate|]. intros (c & Hc & _). apply elem_of_nil in Hc. contradiction.
  - unfold same_node at 1. rewrite Nat.eqb_refl. simpl.
    destruct (String.eqb (js_toLowerCase (nodeName child)) "html") eqn:Eh.
    + split; [|reflexivity]. intros _. exists child. split; [left|left; exact Eh].
    + destruct (same_node child documentNode) eqn:Es.
      * split; [|reflexivity]. intros _. exists child. split; [left|right; exact Es].
      * rewrite IH. split.
        -- intros (c & Hc & Hor). exists c. split; [right; exact Hc|exact Hor].
        -- intros (c & Hc & Hor). apply elem_of_cons in Hc as [->|Hc].
           ++ destruct Hor; congruence.
           ++ exists c. split; assumption.
Qed.

Lemma isLastNode_scan_text (zs : list Node) (c : Node) (rest : list Node)
    (acc : option Node) :
  (forall x, x ∈ zs -> txtLenOf x = 0) -> 0 < txtLenOf c ->
  RevC.isLastNode_scan (zs ++ c :: rest) acc = Some c.
Proof.
  revert acc. induction zs as [|z zs IH]; intros acc Hz Hc; simpl.
  - replace (0 <? txtLenOf c) with true by (symmetry; apply Z.ltb_lt; lia).
    reflexivity.
  - rewrite (Hz z) by left. simpl. apply IH; [|exact Hc].
    intros x Hx. apply Hz. right. exact Hx.
Qed.

Lemma isLastNode_scan_empty (zs : list Node) (acc : option Node) :
  (forall x, x ∈ zs -> txtLenOf x = 0) ->
  RevC.isLastNode_scan zs acc
  = match last zs with Some x => Some x | None => acc end.
Proof.
  revert acc. induction zs as [|z zs IH]; intros acc Hz; simpl; [reflexivity|].
  rewrite (Hz z) by left. simpl. rewrite IH.
  - destruct zs as [|z' zs']; [reflexivity|].
    change (last (z :: z' :: zs')) with (last (z' :: zs')).
    destruct (last (z' :: zs')) eqn:El; [reflexivity|].
    apply last_None in El. discriminate.
  - intros x Hx. apply Hz. right. exact Hx.
Qed.

(** [_isLastNode] of revision C (part_001 1266-1285) compares
    [endContainer] with the last child that has text; when no child has
    text, with the first child, the last one its downward loop looked at;
    and with [null] when the Container has no child. It changes nothing. *)
Theorem RevC_isLastNode_spec (this : nat) (r : RangeObj TR) (w : W) :
  heap w !! this = Some r ->
  let childs := dom_childNodes (doc w) (_bounder r) in
  (forall pre c post,
      childs = pre ++ c :: post -> 0 < txtLenOf c ->
      (forall x, x ∈ post -> txtLenOf x = 0) ->
      RevC._isLastNode this w = Ok (js_same (JNode c) (endContainer r)) w) /\
  ((forall x, x ∈ childs -> txtLenOf x = 0) ->
   RevC._isLastNode this w
   = Ok (js_same (of_node (head childs)) (endContainer r)) w).
Proof.
  intros E childs.
  assert (Hrun : RevC._isLastNode this w
                 = Ok (js_same (of_node (RevC.isLastNode_scan (reverse childs) None))
                               (endContainer r)) w).
  { unfold RevC._isLastNode. rewrite (bind_ok _ _ _ _ _ (load_ok _ _ _ E)).
    reflexivity. }
  split.
  - intros pre c post Hsplit Hc Hpost. rewrite Hrun, Hsplit.
    rewrite reverse_app, reverse_cons, <- app_assoc. simpl.
    rewrite isLastNode_scan_text; [reflexivity| |exact Hc].
    intros x Hx. apply Hpost. apply elem_of_reverse. exact Hx.
  - intros Hall. rewrite Hrun. rewrite isLastNode_scan_empty.
    + rewrite last_reverse. destruct (head childs); reflexivity.
    + intros x Hx. apply Hall. apply elem_of_reverse. exact Hx.
Qed.

End Attached.

Lemma RevC_isLastNode_spec_witness :
  let childs := dom_childNodes (doc SimpleHost.two_range_world)
                  (_bounder SimpleHost.whole_range) in
  (forall pre c post,
      childs = pre ++ c :: post -> 0 < txtLenOf c ->
      (forall x, x ∈ post -> txtLenOf x = 0) ->
      RevC._isLastNode 0 SimpleHost.two_range_world
      = Ok (js_same (JNode c) (endContainer SimpleHost.whole_range))
           SimpleHost.two_range_world) /\
  ((forall x, x ∈ childs -> txtLenOf x = 0) ->
   RevC._isLastNode 0 SimpleHost.two_range_world
   = Ok (js_same (of_node (head childs)) (endContainer SimpleHost.whole_range))
        SimpleHost.two_range_world).
Proof.
  exact (RevC_isLastNode_spec 0 SimpleHost.whole_range SimpleHost.two_range_world
           eq_refl).
Defined.

(** ** Texts and positions *)

Lemma string_app_assoc (a b c : string) :
  String.append (String.append a b) c = String.append a (String.append b c).
Proof.
  induction a as [|x a IH]; [reflexivity|].
  change (String x (String.append (String.append a b) c)
          = String x (String.append a (String.append b c))).
  rewrite IH. reflexivity.
Qed.

Lemma string_app_nil_r (a : string) : String.append a "" = a.
Proof.
  induction a as [|x a IH]; [reflexivity|].
  change (String x (String.append a "") = String x a).
  rewrite IH. reflexivity.
Qed.

Section Texts.
Context {Doc TR : Type} `{!Host Doc TR}.
Local Abbreviation W := (World Doc TR).
Import Common.

Lemma toString_ok (this : nat) (r : RangeObj TR) (tr : TR) (w : W) :
  heap w !! this = Some r -> _range r = Some tr ->
  toString this w = Ok (tr_text (doc w) tr) (TextRange.record Text w).
Proof.
  intros E Etr. unfold toString, range_text.
  rewrite (bind_ok _ _ _ _ _ (cursor_ok _ _ _ _ E Etr)). reflexivity.
Qed.

Lemma Selection_toString_from_ok (d : Doc) (h : list (RangeObj TR))
    (slots : list (option nat)) (trs : list TR) :
  Forall2 (fun slot tr => exists range r,
             slot = Some range /\ h !! range = Some r /\ _range r = Some tr)
          slots trs ->
  forall (ret : string) (cs : list Call),
    RevA.Selection_toString_from slots ret (mkWorld d h cs)
    = Ok (String.append ret (String.concat " " (map (tr_text d) trs)))
         (mkWorld d h (cs ++ replicate (length trs) Text)).
Proof.
  induction 1 as [|slot tr slots trs (range & r & -> & E & Etr) Hrest IH];
    intros ret cs.
  - simpl. rewrite string_app_nil_r, app_nil_r. reflexivity.
  - cbn [RevA.Selection_toString_from].
    rewrite (bind_ok _ _ _ _ _ (toString_ok range r tr (mkWorld d h cs) E Etr)).
    unfold TextRange.record. cbn [doc heap calls].
    destruct Hrest as [|slot' tr' slots' trs' Hslot' Hrest'].
    + rewrite IH. simpl. rewrite string_app_nil_r, <- app_assoc. reflexivity.
    + rewrite IH. cbn [map length replicate].
      rewrite <- app_assoc.
      change (String.concat " " (tr_text d tr :: tr_text d tr' :: map (tr_text d) trs'))
        with (String.append (tr_text d tr)
                (String.append " "
                   (String.concat " " (tr_text d tr' :: map (tr_text d) trs')))).
      rewrite !string_app_assoc. reflexivity.
Qed.

(** [toString] of the Selection (rangeie.js 210-220, part_001 155-165).
    On a Selection whose slots all hold Ranges that own a TextRange, the
    result is the texts of the Ranges, in order, joined by single spaces,
    with no space after the last and the empty string for no Range; each
    text is read once from the host and nothing else happens. *)
Theorem Selection_toString_joins (sel : Selection) (trs : list TR) (w : W) :
  Forall2 (fun slot tr => exists range r,
             slot = Some range /\ heap w !! range = Some r /\ _range r = Some tr)
          (_ranges sel) trs ->
  RevA.Selection_toString sel w
  = Ok (String.concat " " (map (tr_text (doc w)) trs))
       (mkWorld (doc w) (heap w) (calls w ++ replicate (length trs) Text)).
Proof.
  intros Hall. unfold RevA.Selection_toString. destruct w as [d h cs].
  rewrite (Selection_toString_from_ok d h _ trs Hall "" cs). reflexivity.
Qed.

Lemma range_moveToElementText_ok (this : nat) (node : Node) (r : RangeObj TR)
    (tr tr' : TR) (w : W) :
  heap w !! this = Some r -> _range r = Some tr ->
  tr_moveToElementText (doc w) tr (Some node) = Some tr' ->
  range_moveToElementText this node w
  = Ok tt (mkWorld (doc w) (<[this := set_range (Some tr') r]> (heap w))
                   (calls w ++ [MoveToElementText (Some node)])).
Proof.
  intros E Etr Hmt. unfold range_moveToElementText.
  rewrite (bind_ok _ _ _ _ _ (cursor_ok _ _ _ _ E Etr)).
  unfold TextRange.moveToElementText, mbind, M_bind, update. rewrite Hmt.
  simpl. rewrite E. reflexivity.
Qed.

(** [_selectTextNode] of revision A on a child of the Container
    (rangeie.js 458-470). With the span [(start, end)] of the node, the
    TextRange is put on the text of the Container, collapsed to its start,
    its start is moved by [start] characters and then its end by [end]
    characters, the absolute end of the span, not the length of the node;
    these four host calls are all that happens, and the result is
    [true]. *)
Theorem RevA_selectTextNode_moves (this : nat) (referenceNode : Node) (w : W)
    (r : RangeObj TR) (tr tr0 : TR) (start endv : Z) :
  heap w !! this = Some r -> _range r = Some tr ->
  spanOf (dom_childNodes (doc w) (_bounder r)) referenceNode = Some (start, endv) ->
  tr_moveToElementText (doc w) tr (Some (_bounder r)) = Some tr0 ->
  let tr1 := tr_collapse (doc w) tr0 true in
  let tr2 := fst (tr_moveStart (doc w) tr1 start) in
  let tr3 := fst (tr_moveEnd (doc w) tr2 endv) in
  RevA._selectTextNode this referenceNode w
  = Ok true (mkWorld (doc w) (<[this := set_range (Some tr3) r]> (heap w))
               (calls w ++ [MoveToElementText (Some (_bounder r)); Collapse true;
                            MoveStart start; MoveEnd endv])).
Proof.
  intros E Etr Hspan Hmt tr1 tr2 tr3. unfold RevA._selectTextNode.
  rewrite (bind_ok _ _ _ _ _ (load_ok _ _ _ E)).
  unfold childNodes at 1, mbind at 1, M_bind at 1. rewrite Hspan.
  rewrite (bind_ok _ _ _ _ _ (range_moveToElementText_ok _ _ _ _ _ _ E Etr Hmt)).
  set (w1 := mkWorld (doc w) (<[this := set_range (Some tr0) r]> (heap w)) _).
  assert (E1 : heap w1 !! this = Some (set_range (Some tr0) r)).
  { apply (lookup_store this r _ w E). }
  rewrite (bind_ok _ _ _ _ _ (range_collapse_ok this true _ tr0 w1 E1 eq_refl)).
  set (w2 := mkWorld (doc w1) _ _).
  assert (E2 : heap w2 !! this = Some (set_range (Some tr1) (set_range (Some tr0) r))).
  { apply (lookup_store this _ _ w1 E1). }
  rewrite (bind_ok _ _ _ _ _ (range_moveStart_ok this start _ tr1 w2 E2 eq_refl)).
  set (w3 := mkWorld (doc w2) _ _).
  assert (E3 : heap w3 !! this
               = Some (set_range (Some tr2)
                         (set_range (Some tr1) (set_range (Some tr0) r)))).
  { apply (lookup_store this _ _ w2 E2). }
  rewrite (bind_ok _ _ _ _ _ (range_moveEnd_ok this endv _ tr2 w3 E3 eq_refl)).
  unfold w3, w2, w1. simpl. rewrite !list_insert_insert_eq, <- !app_assoc.
  reflexivity.
Qed.

End Texts.

Lemma Selection_toString_joins_witness :
  RevA.Selection_toString (mkSelection [Some 0%nat; Some 1%nat])
    SimpleHost.two_range_world
  = Ok (String.concat " "
          (map (tr_text (doc SimpleHost.two_range_world)) [(0, 27); (6, 11)]))
       (mkWorld (doc SimpleHost.two_range_world) (heap SimpleHost.two_range_world)
          (calls SimpleHost.two_range_world ++ replicate 2 Text)).
Proof.
  apply (Selection_toString_joins (mkSelection [Some 0%nat; Some 1%nat])
           [(0, 27); (6, 11)] SimpleHost.two_range_world).
  repeat constructor.
  - exists 0%nat, SimpleHost.whole_range. repeat split.
  - exists 1%nat, SimpleHost.world_range. repeat split.
Defined.

Lemma RevA_selectTextNode_moves_witness :
  let w := SimpleHost.two_range_world in
  let tr1 := tr_collapse (doc w) (0, 27) true in
  let tr2 := fst (tr_moveStart (doc w) tr1 19) in
  let tr3 := fst (tr_moveEnd (doc w) tr2 27) in
  RevA._selectTextNode 1 SimpleHost.baz w
  = Ok true (mkWorld (doc w)
               (<[1%nat := set_range (Some tr3) SimpleHost.world_range]> (heap w))
               (calls w ++ [MoveToElementText (Some (_bounder SimpleHost.world_range));
                            Collapse true; MoveStart 19; MoveEnd 27])).
Proof.
  exact (RevA_selectTextNode_moves 1 SimpleHost.baz SimpleHost.two_range_world
           SimpleHost.world_range (6, 11) (0, 27) 19 27
           eq_refl eq_refl eq_refl eq_refl).
Defined.

(** ** The probing loops, further *)

Section ProbeLoops.
Context {Doc TR : Type} `{!Host Doc TR}.
Local Abbreviation W := (World Doc TR).
Import Common.

#[local] Arguments _isChild : simpl never.

Lemma isChild_on_Some (d : Doc) (parent child : option Node) :
  isChild_on d parent child = true -> child <> None.
Proof.
  unfold isChild_on. destruct parent; [|discriminate].
  destruct child; [discriminate|discriminate].
Qed.

(** One iteration of the guarded loop always returns; it changes neither
    the document nor a Range object; it breaks exactly when the start has
    left the Container or the step moved no character; otherwise the
    counters grow as stated. *)
Lemma RevB_probe_step_cases (bounder : Node) (st : RevB.Probe TR) (w : W) :
  let r1 := fst (tr_moveStart (doc w) (RevB.p_r1 st) (-1)) in
  let mv := snd (tr_moveStart (doc w) (RevB.p_r1 st) (-1)) in
  exists res w',
    RevB.probe_step bounder st w = Ok res w' /\
    doc w' = doc w /\ heap w' = heap w /\
    match res with
    | inr out =>
        (start_inside (doc w) bounder r1 = false \/ mv = 0) /\
        RevB.nodeIndex out = RevB.p_elmCount st /\
        RevB.relOffset out = RevB.p_relOffset st /\
        (RevB.absOffset out = RevB.p_i st \/ RevB.absOffset out = 0)
    | inl st' =>
        start_inside (doc w) bounder r1 = true /\ mv <> 0 /\
        RevB.p_r1 st' = r1 /\
        RevB.p_prevPar st' <> None /\
        RevB.p_i st <= RevB.p_i st' <= RevB.p_i st + 1 /\
        RevB.p_elmCount st <= RevB.p_elmCount st' /\
        RevB.p_relOffset st <= RevB.p_relOffset st' /\
        RevB.p_elmCount st' + RevB.p_relOffset st'
        <= RevB.p_elmCount st + RevB.p_relOffset st + 1 /\
        (RevB.p_prevPar st = None ->
         RevB.p_elmCount st' = RevB.p_elmCount st + 1)
    end.
Proof.
  intros r1 mv.
  unfold RevB.probe_step, RevB._isBreakout, RevB._isNonPrintTextRangeChar.
  unfold mbind, M_bind, TextRange.moveStart, TextRange.duplicate, TextRange.collapse,
    TextRange.moveEnd, TextRange.parentElement, TextRange.text, TextRange.htmlText.
  simpl.
  subst r1 mv.
  destruct (tr_moveStart (doc w) (RevB.p_r1 st) (-1)) as [r1 mv]. simpl.
  destruct (tr_moveEnd (doc w) (tr_collapse (doc w) r1 true) 1) as [r3 mv3]. simpl.
  rewrite _isChild_on.
  set (ins := isChild_on _ _ _).
  pose (p := tr_parentElement (doc w) (tr_collapse (doc w) r1 true)).
  assert (Hins : ins = start_inside (doc w) bounder r1) by reflexivity.
  assert (Hp : ins = true -> p <> None).
  { intros Hin. apply (isChild_on_Some (doc w) (Some bounder) p). exact Hin. }
  clearbody ins. simpl. fold p.
  destruct ins; simpl.
  - specialize (Hp eq_refl). symmetry in Hins.
    destruct (negb (String.eqb (tr_text (doc w) r1) "")); simpl.
    all: destruct (Z.abs mv =? 0) eqn:Em; simpl.
    all: try (apply Z.eqb_eq in Em; do 2 eexists; split; [reflexivity|];
              split; [reflexivity|]; split; [reflexivity|];
              split; [right; lia|];
              split; [reflexivity|]; split; [reflexivity|]; right; reflexivity).
    all: apply Z.eqb_neq in Em.
    all: destruct (String.eqb (js_toLowerCase (tr_htmlText (doc w) r3)) "<br>"); simpl.
    all: try (destruct (same_ref (RevB.p_prevPar st) p) eqn:Esame; simpl).
    all: try (destruct (RevB.p_elmCount st <=? 0) eqn:Ecount; simpl).
    all: do 2 eexists; (split; [reflexivity|]); simpl.
    all: split; [reflexivity|]; split; [reflexivity|].
    all: split; [exact Hins|]; split; [lia|]; split; [reflexivity|].
    all: split; [exact Hp|].
    all: split; [destruct (negb (String.eqb (RevB.p_rt st) (tr_text (doc w) r1))); lia|].
    all: split; [lia|]; split; [lia|]; split; [lia|].
    all: try (intros _; lia).
    all: intros Hnone; exfalso; rewrite Hnone in Esame;
      destruct p; [discriminate|contradiction].
  - do 2 eexists. split; [reflexivity|].
    split; [reflexivity|]. split; [reflexivity|].
    split; [left; symmetry; exact Hins|].
    split; [reflexivity|]. split; [reflexivity|]. left. reflexivity.
Qed.

Lemma RevB_probe_loop_returns (bounder : Node) (fuel : nat) :
  forall (st : RevB.Probe TR) (w : W),
    (exists out w', RevB.probe_loop (S fuel) bounder st w = Ok out w') <->
    RevB.probe_stops (doc w) bounder (RevB.p_r1 st) fuel.
Proof.
  induction fuel as [|fuel IH]; intros st w;
    destruct (RevB_probe_step_cases bounder st w)
      as (res & w1 & Hstep & Hd & Hh & Hres);
    cbv zeta in Hres;
    change (RevB.probe_loop (S ?n) bounder st w)
      with ((RevB.probe_step bounder st ≫= fun next =>
               match next with
               | inl st' => RevB.probe_loop n bounder st'
               | inr out => mret out
               end) w);
    rewrite (bind_ok _ _ _ _ _ Hstep);
    destruct res as [st'|out].
  - destruct Hres as (Hin & Hmv & _). split.
    + intros (out & w' & Hrun). discriminate.
    + intros Hs. inversion Hs; subst; congruence.
  - destruct Hres as (Hbreak & _). split.
    + intros _. destruct Hbreak as [Hout|Hz];
        [apply RevB.probe_stops_outside|apply RevB.probe_stops_still]; assumption.
    + intros _. exists out, w1. reflexivity.
  - destruct Hres as (Hin & Hmv & Hr1 & _). split.
    + intros Hrun. apply RevB.probe_stops_after. rewrite <- Hr1, <- Hd.
      apply IH. exact Hrun.
    + intros Hs. apply IH. rewrite Hd, Hr1.
      inversion Hs; subst; [congruence|congruence|assumption].
  - destruct Hres as (Hbreak & _). split.
    + intros _. destruct Hbreak as [Hout|Hz];
        [apply RevB.probe_stops_outside|apply RevB.probe_stops_still]; assumption.
    + intros _. exists out, w1. reflexivity.
Qed.

(** When the guarded probe of revision B returns ([_getTextAbsOffset],
    part_001 683-733). It returns within [n + 1] iterations exactly when,
    among the first [n + 1] backward steps of the TextRange of the active
    selection, one leaves the Container or moves no character; nothing
    else matters, neither the texts read nor the counters. *)
Theorem RevB_probe_returns_iff (fuel : nat) (this : nat) (r : RangeObj TR) (w : W) :
  heap w !! this = Some r ->
  (exists out w', RevB._getTextAbsOffset (S fuel) this w = Ok out w') <->
  RevB.probe_stops (doc w) (_bounder r) (doc_createRange (doc w)) fuel.
Proof.
  intros E. unfold RevB._getTextAbsOffset.
  rewrite (bind_ok _ _ w (TextRange.record CreateRange w) (doc_createRange (doc w)))
    by reflexivity.
  rewrite (bind_ok _ _ _ _ _ (load_ok this r (TextRange.record CreateRange w) E)).
  apply (RevB_probe_loop_returns (_bounder r) fuel
           (RevB.probe_init (doc_createRange (doc w)))
           (TextRange.record CreateRange w)).
Qed.

(** What the loop returns once an element has been counted. *)
Lemma RevB_probe_loop_shape (bounder : Node) (fuel : nat) :
  forall (st : RevB.Probe TR) (w : W) (out : RevB.OffsetFinder) (w' : W),
    0 <= RevB.p_elmCount st -> 1 <= RevB.p_relOffset st -> 0 <= RevB.p_i st ->
    RevB.probe_loop fuel bounder st w = Ok out w' ->
    0 <= RevB.nodeIndex out /\ 1 <= RevB.relOffset out /\ 0 <= RevB.absOffset out /\
    RevB.nodeIndex out + RevB.relOffset out
    < RevB.p_elmCount st + RevB.p_relOffset st + Z.of_nat fuel /\
    RevB.absOffset out < RevB.p_i st + Z.of_nat fuel.
Proof.
  induction fuel as [|fuel IH]; intros st w out w' He Hr Hi; [discriminate|].
  destruct (RevB_probe_step_cases bounder st w)
    as (res & w1 & Hstep & Hd & Hh & Hres).
  cbv zeta in Hres.
  change (RevB.probe_loop (S fuel) bounder st w)
    with ((RevB.probe_step bounder st ≫= fun next =>
             match next with
             | inl st' => RevB.probe_loop fuel bounder st'
             | inr out => mret out
             end) w).
  rewrite (bind_ok _ _ _ _ _ Hstep).
  destruct res as [st'|out0].
  - destruct Hres as (_ & _ & _ & _ & Hi' & He' & Hr' & Hsum & _).
    intros Hrun.
    destruct (IH st' w1 out w') as (H1 & H2 & H3 & H4 & H5); [lia|lia|lia|exact Hrun|].
    repeat split; lia.
  - destruct Hres as (_ & Hn & Hrel & Habs).
    intros Hrun. injection Hrun as <- <-.
    repeat split; lia.
Qed.

(** The result of the guarded probe of revision B ([_getTextAbsOffset],
    part_001 683-733, and [_getTextContainer], 546-590). Either the first
    iteration was a break, and the result is node index [-1] with offsets
    1 and 0, for which [_getTextContainer] returns [null]; or the node
    index is at least 0, the relative offset at least 1 and the absolute
    offset at least 0, all bounded by the number of iterations. A
    resolved offset is therefore never 0, and the resolved node is
    [undefined] only for a Container without children. *)
Theorem RevB_probe_result_shape (fuel : nat) (this : nat) (w : W) :
  (forall out w',
      RevB._getTextAbsOffset fuel this w = Ok out w' ->
      (RevB.nodeIndex out = -1 /\ RevB.relOffset out = 1 /\ RevB.absOffset out = 0) \/
      (0 <= RevB.nodeIndex out /\ 1 <= RevB.relOffset out /\
       0 <= RevB.absOffset out /\
       RevB.nodeIndex out + RevB.relOffset out < Z.of_nat fuel /\
       RevB.absOffset out < Z.of_nat fuel)) /\
  (forall r node offset w',
      heap w !! this = Some r ->
      RevB._getTextContainer fuel this w = Ok (Some (node, offset)) w' ->
      1 <= offset < Z.of_nat fuel /\
      (node = JUndefined <-> dom_childNodes (doc w) (_bounder r) = [])).
Proof.
  assert (Hshape : forall out w',
      RevB._getTextAbsOffset fuel this w = Ok out w' ->
      (RevB.nodeIndex out = -1 /\ RevB.relOffset out = 1 /\ RevB.absOffset out = 0) \/
      (0 <= RevB.nodeIndex out /\ 1 <= RevB.relOffset out /\
       0 <= RevB.absOffset out /\
       RevB.nodeIndex out + RevB.relOffset out < Z.of_nat fuel /\
       RevB.absOffset out < Z.of_nat fuel)).
  { intros out w'. unfold RevB._getTextAbsOffset.
    rewrite (bind_ok _ _ w (TextRange.record CreateRange w) (doc_createRange (doc w)))
      by reflexivity.
    unfold mbind at 1, M_bind at 1, load.
    destruct (heap (TextRange.record CreateRange w) !! this) as [r|]; [|discriminate].
    destruct fuel as [|fuel]; [discriminate|].
    set (st0 := RevB.probe_init (doc_createRange (doc w))).
    set (w0 := TextRange.record CreateRange w).
    destruct (RevB_probe_step_cases (_bounder r) st0 w0)
      as (res & w1 & Hstep & Hd & Hh & Hres).
    cbv zeta in Hres.
    change (RevB.probe_loop (S fuel) (_bounder r) st0 w0)
      with ((RevB.probe_step (_bounder r) st0 ≫= fun next =>
               match next with
               | inl st' => RevB.probe_loop fuel (_bounder r) st'
               | inr out => mret out
               end) w0).
    rewrite (bind_ok _ _ _ _ _ Hstep).
    destruct res as [st'|out0].
    - destruct Hres as (_ & _ & _ & _ & Hi' & He' & Hr' & Hsum & Hfirst).
      specialize (Hfirst eq_refl). simpl in Hi', He', Hr', Hsum, Hfirst.
      intros Hrun. right.
      destruct (RevB_probe_loop_shape (_bounder r) fuel st' w1 out w')
        as (H1 & H2 & H3 & H4 & H5); [lia|lia|lia|exact Hrun|].
      repeat split; lia.
    - destruct Hres as (_ & Hn & Hrel & Habs). simpl in Hn, Hrel, Habs.
      intros Hrun. injection Hrun as <- <-. left.
      repeat split; [exact Hn|exact Hrel|destruct Habs; assumption]. }
  split; [exact Hshape|].
  intros r node offset w' E. unfold RevB._getTextContainer.
  rewrite (bind_ok _ _ _ _ _ (load_ok _ _ _ E)).
  rewrite (bind_ok _ _ w w (dom_childNodes (doc w) (_bounder r))) by reflexivity.
  unfold mbind, M_bind.
  destruct (RevB._getTextAbsOffset fuel this w) as [out w1|e w1|] eqn:Eabs;
    try discriminate.
  destruct (RevB.nodeIndex out >=? 0) eqn:Eidx; [|discriminate].
  intros Hret. injection Hret as <- <- <-.
  apply Z.geb_le in Eidx.
  destruct (Hshape out w1 eq_refl) as [(Hn & _)|(H1 & H2 & H3 & H4 & H5)]; [lia|].
  split; [lia|].
  set (childs := dom_childNodes (doc w) (_bounder r)).
  set (k := Z.to_nat (RevB.nodeIndex out)).
  clearbody childs k. split.
  - intros Hund. destruct childs as [|c childs]; [reflexivity|exfalso].
    revert Hund. induction k as [|k IHk].
    + simpl. discriminate.
    + change (RevB.lastDefined (c :: childs) (S k))
        with (match (c :: childs) !! S k with
              | Some node => JNode node
              | None => RevB.lastDefined (c :: childs) k
              end).
      destruct ((c :: childs) !! S k); [discriminate|exact IHk].
  - intros ->. induction k as [|k IHk]; [reflexivity|exact IHk].
Qed.

#[local] Arguments isChild_on : simpl never.

Lemma RevC_probe_loop_step (bounder : Node) (n : nat) (r1 : TR) (i : Z)
    (rt : string) (w : W) :
  RevC.probe_loop (S n) bounder r1 i rt w
  = if negb (isChild_on (doc w) (Some bounder)
               (tr_parentElement (doc w) (fst (tr_moveStart (doc w) r1 (-1)))))
    then Ok i (mkWorld (doc w) (heap w)
                 (calls w ++ [MoveStart (-1); ParentElement]))
    else
      RevC.probe_loop n bounder (fst (tr_moveStart (doc w) r1 (-1)))
        (if (if negb (String.eqb
                        (tr_text (doc w) (fst (tr_moveStart (doc w) r1 (-1)))) "")
             then negb (String.eqb rt
                          (tr_text (doc w) (fst (tr_moveStart (doc w) r1 (-1)))))
             else false)
         then i + 1 else i)
        (tr_text (doc w) (fst (tr_moveStart (doc w) r1 (-1))))
        (mkWorld (doc w) (heap w)
           (calls w ++ [MoveStart (-1); ParentElement]
              ++ (if negb (String.eqb
                             (tr_text (doc w) (fst (tr_moveStart (doc w) r1 (-1)))) "")
                  then [Text; Text; Text] else [Text; Text]))).
Proof.
  simpl.
  unfold mbind, M_bind, TextRange.moveStart, TextRange.parentElement, TextRange.text.
  simpl. destruct (tr_moveStart (doc w) r1 (-1)) as [r1' m]. simpl.
  rewrite _isChild_on. unfold TextRange.record. cbn [doc heap calls].
  set (ins := isChild_on _ _ _). clearbody ins.
  destruct ins; simpl.
  - destruct (negb (String.eqb (tr_text (doc w) r1') "")); simpl;
      rewrite <- !app_assoc; reflexivity.
  - rewrite <- app_assoc. reflexivity.
Qed.

Lemma RevC_probe_loop_returns (bounder : Node) (fuel : nat) :
  forall (r1 : TR) (i : Z) (rt : string) (w : W),
    (exists out w', RevC.probe_loop (S fuel) bounder r1 i rt w = Ok out w') <->
    RevC.leaves_within (doc w) bounder r1 fuel.
Proof.
  induction fuel as [|fuel IH]; intros r1 i rt w; rewrite RevC_probe_loop_step;
    destruct (isChild_on (doc w) (Some bounder)
                (tr_parentElement (doc w) (fst (tr_moveStart (doc w) r1 (-1)))))
      eqn:Ein; cbn [negb].
  - split.
    + intros (out & w' & Hrun). discriminate.
    + intros Hl. inversion Hl; subst. congruence.
  - split.
    + intros _. apply RevC.leaves_now. exact Ein.
    + intros _. do 2 eexists. reflexivity.
  - match goal with
    | |- context [RevC.probe_loop (S fuel) bounder ?r ?i' ?rt' ?w0] =>
        pose proof (IH r i' rt' w0) as IH'; cbn [doc] in IH'
    end.
    split.
    + intros Hrun. apply RevC.leaves_later. apply IH'. exact Hrun.
    + intros Hl. apply IH'. inversion Hl; subst; [congruence|assumption].
  - split.
    + intros _. apply RevC.leaves_now. exact Ein.
    + intros _. do 2 eexists. reflexivity.
Qed.

Lemma RevC_probe_loop_bound (bounder : Node) (fuel : nat) :
  forall (r1 : TR) (i : Z) (rt : string) (w : W) (out : Z) (w' : W),
    RevC.probe_loop (S fuel) bounder r1 i rt w = Ok out w' ->
    i <= out <= i + Z.of_nat fuel.
Proof.
  induction fuel as [|fuel IH]; intros r1 i rt w out w'; rewrite RevC_probe_loop_step;
    destruct (negb (isChild_on (doc w) (Some bounder)
                (tr_parentElement (doc w) (fst (tr_moveStart (doc w) r1 (-1))))));
    intros Hrun; try discriminate; try (injection Hrun as <- _; lia).
  apply IH in Hrun. destruct (if negb _ then _ else _); lia.
Qed.

(** When the unguarded probe of revision C returns ([_getTextAbsOffset],
    part_001 1513-1530). It returns within [n + 1] iterations exactly when
    one of the first [n + 1] backward steps takes the TextRange out of the
    Container, and the absolute offset it returns is then between 0 and
    [n]. A step that moves no character inside the Container is never an
    exit. *)
Theorem RevC_probe_returns_iff (fuel : nat) (this : nat) (r : RangeObj TR) (w : W) :
  heap w !! this = Some r ->
  ((exists out w', RevC._getTextAbsOffset (S fuel) this w = Ok out w') <->
   RevC.leaves_within (doc w) (_bounder r) (doc_createRange (doc w)) fuel) /\
  (forall out w', RevC._getTextAbsOffset (S fuel) this w = Ok out w' ->
     0 <= out <= Z.of_nat fuel).
Proof.
  intros E. unfold RevC._getTextAbsOffset.
  rewrite (bind_ok _ _ w (TextRange.record CreateRange w) (doc_createRange (doc w)))
    by reflexivity.
  rewrite (bind_ok _ _ _ _ _ (load_ok this r (TextRange.record CreateRange w) E)).
  split.
  - apply (RevC_probe_loop_returns (_bounder r) fuel (doc_createRange (doc w)) 0 ""
             (TextRange.record CreateRange w)).
  - intros out w' Hrun.
    apply (RevC_probe_loop_bound (_bounder r) fuel _ 0 _ _ out w' Hrun).
Qed.

End ProbeLoops.

Lemma RevB_probe_returns_iff_witness :
  (exists out w', RevB._getTextAbsOffset 3 0 SimpleHost.caret_world = Ok out w') <->
  RevB.probe_stops (doc SimpleHost.caret_world)
    (_bounder (mkRange (Some (2, 2)) SimpleHost.bounderNode JNull JNull JUndefined
                       JNull (JNum 0)))
    (doc_createRange (doc SimpleHost.caret_world)) 2.
Proof.
  exact (RevB_probe_returns_iff 2 0
           (mkRange (Some (2, 2)) SimpleHost.bounderNode JNull JNull JUndefined
                    JNull (JNum 0))
           SimpleHost.caret_world eq_refl).
Defined.

Lemma RevC_probe_returns_iff_witness :
  ((exists out w', RevC._getTextAbsOffset 3 0 SimpleHost.caret_world = Ok out w') <->
   RevC.leaves_within (doc SimpleHost.caret_world)
     (_bounder (mkRange (Some (2, 2)) SimpleHost.bounderNode JNull JNull JUndefined
                        JNull (JNum 0)))
     (doc_createRange (doc SimpleHost.caret_world)) 2) /\
  (forall out w', RevC._getTextAbsOffset 3 0 SimpleHost.caret_world = Ok out w' ->
     0 <= out <= Z.of_nat 2).
Proof.
  exact (RevC_probe_returns_iff 2 0
           (mkRange (Some (2, 2)) SimpleHost.bounderNode JNull JNull JUndefined
                    JNull (JNum 0))
           SimpleHost.caret_world eq_refl).
Defined.

(** ** The matching loop of revision B *)

Section MatchLoop.
Context {Doc TR : Type} `{!Host Doc TR}.
Local Abbreviation W := (World Doc TR).
Import Common.

(** One iteration of the loop on a Range that owns the TextRange [tr]:
    it ends the loop, or it moves the end of [tr] forward by one character
    and goes on with what the host reported. *)
Lemma matchLoop_step (fuel : nat) (this : nat) (data : string) (m : option Z)
    (found : bool) (i : Z) (r : RangeObj TR) (tr : TR) (w : W) :
  heap w !! this = Some r -> _range r = Some tr ->
  (exists cs, RevB.matchLoop (S fuel) this data m found i w
              = Ok tt (mkWorld (doc w) (heap w) cs)) \/
  (exists found' i' cs,
      RevB.matchLoop (S fuel) this data m found i w
      = RevB.matchLoop fuel this data
          (Some (Z.abs (snd (tr_moveEnd (doc w) tr 1)))) found' i'
          (mkWorld (doc w)
             (<[this := set_range (Some (fst (tr_moveEnd (doc w) tr 1))) r]> (heap w))
             cs)).
Proof.
  intros E Etr.
  assert (Hnext : forall found' i',
    (range_moveEnd this 1 ≫= fun mv =>
       RevB.matchLoop fuel this data (Some (Z.abs mv)) found' i')
      (TextRange.record Text w)
    = RevB.matchLoop fuel this data
        (Some (Z.abs (snd (tr_moveEnd (doc w) tr 1)))) found' i'
        (mkWorld (doc w)
           (<[this := set_range (Some (fst (tr_moveEnd (doc w) tr 1))) r]> (heap w))
           ((calls w ++ [Text]) ++ [MoveEnd 1]))).
  { intros found' i'.
    rewrite (bind_ok _ _ _ _ _
               (range_moveEnd_ok this 1 r tr (TextRange.record Text w) E Etr)).
    reflexivity. }
  assert (Htext : range_text this w = Ok (tr_text (doc w) tr) (TextRange.record Text w)).
  { apply (toString_ok this r tr w E Etr). }
  assert (Hbody :
    (exists cs,
        (range_text this ≫= fun t =>
           if String.eqb t data
           then (if found
                 then range_moveEnd this 1 ≫= fun mv =>
                        RevB.matchLoop fuel this data (Some (Z.abs mv)) found (i + 1)
                 else range_moveEnd this 1 ≫= fun mv =>
                        RevB.matchLoop fuel this data (Some (Z.abs mv)) true i)
           else if found then mret tt
                else range_moveEnd this 1 ≫= fun mv =>
                       RevB.matchLoop fuel this data (Some (Z.abs mv)) found (i + 1)) w
        = Ok tt (mkWorld (doc w) (heap w) cs)) \/
    (exists found' i' cs,
        (range_text this ≫= fun t =>
           if String.eqb t data
           then (if found
                 then range_moveEnd this 1 ≫= fun mv =>
                        RevB.matchLoop fuel this data (Some (Z.abs mv)) found (i + 1)
                 else range_moveEnd this 1 ≫= fun mv =>
                        RevB.matchLoop fuel this data (Some (Z.abs mv)) true i)
           else if found then mret tt
                else range_moveEnd this 1 ≫= fun mv =>
                       RevB.matchLoop fuel this data (Some (Z.abs mv)) found (i + 1)) w
        = RevB.matchLoop fuel this data
            (Some (Z.abs (snd (tr_moveEnd (doc w) tr 1)))) found' i'
            (mkWorld (doc w)
               (<[this := set_range (Some (fst (tr_moveEnd (doc w) tr 1))) r]> (heap w))
               cs))).
  { rewrite (bind_ok _ _ _ _ _ Htext).
    destruct (String.eqb (tr_text (doc w) tr) data); destruct found.
    - right. do 3 eexists. apply Hnext.
    - right. do 3 eexists. apply Hnext.
    - left. eexists. reflexivity.
    - right. do 3 eexists. apply Hnext. }
  destruct m as [[|p|p]|].
  - left. exists (calls w). destruct w. reflexivity.
  - exact Hbody.
  - exact Hbody.
  - exact Hbody.
Qed.

(** The loop returns once the forward steps of the TextRange run out. *)
Lemma matchLoop_returns (this : nat) (data : string) (d : Doc) (tr : TR) (n : nat) :
  RevB.moveEnd_stops d tr n ->
  forall (fuel : nat) (m : option Z) (found : bool) (i : Z) (r : RangeObj TR)
         (h : list (RangeObj TR)) (cs : list Call),
    h !! this = Some r -> _range r = Some tr -> (n + 2 <= fuel)%nat ->
    exists tr' cs',
      RevB.matchLoop fuel this data m found i (mkWorld d h cs)
      = Ok tt (mkWorld d (<[this := set_range (Some tr') r]> h) cs').
Proof.
  induction 1 as [tr n Hzero|tr n Hstops IH];
    intros fuel m found i r h cs E Etr Hfuel.
  - destruct fuel as [|[|fuel]]; [lia|lia|].
    destruct (matchLoop_step (S fuel) this data m found i r tr (mkWorld d h cs) E Etr)
      as [(cs' & Hrun)|(found' & i' & cs' & Hrun)]; rewrite Hrun; cbn [doc heap].
    + exists tr, cs'. rewrite list_insert_id; [reflexivity|].
      rewrite E. destruct r. simpl in Etr. subst. reflexivity.
    + rewrite Hzero. simpl. do 2 eexists. reflexivity.
  - destruct fuel as [|fuel]; [lia|].
    destruct (matchLoop_step fuel this data m found i r tr (mkWorld d h cs) E Etr)
      as [(cs' & Hrun)|(found' & i' & cs' & Hrun)]; rewrite Hrun; cbn [doc heap].
    + exists tr, cs'. rewrite list_insert_id; [reflexivity|].
      rewrite E. destruct r. simpl in Etr. subst. reflexivity.
    + destruct (IH fuel (Some (Z.abs (snd (tr_moveEnd d tr 1)))) found' i'
                  (set_range (Some (fst (tr_moveEnd d tr 1))) r)
                  (<[this := set_range (Some (fst (tr_moveEnd d tr 1))) r]> h) cs')
        as (tr' & cs'' & Hrun').
      * apply list_lookup_insert_eq. apply lookup_lt_Some in E. exact E.
      * reflexivity.
      * lia.
      * rewrite Hrun'. exists tr', cs''. rewrite list_insert_insert_eq. reflexivity.
Qed.

(** [_selectNode] of revision B on a text node (part_001 383-449). On a
    Range that owns a TextRange, where the host accepts the Container in
    [moveToElementText] and the forward steps from the start of its text
    run out within [n] steps, it returns within [n + 2] iterations of its
    loop, and it returns [true] whether or not the node is a child of the
    Container: this revision has no failure result. The document, the
    active selection and the other Range objects are untouched. *)
Theorem RevB_selectNode_text_returns (n fuel : nat) (this : nat)
    (referenceNode : Node) (r : RangeObj TR) (tr tr0 : TR) (w : W) :
  _isTextNode referenceNode = true ->
  heap w !! this = Some r -> _range r = Some tr ->
  tr_moveToElementText (doc w) tr (Some (_bounder r)) = Some tr0 ->
  RevB.moveEnd_stops (doc w) (tr_collapse (doc w) tr0 true) n ->
  (n + 2 <= fuel)%nat ->
  exists tr' cs,
    RevB._selectNode fuel this referenceNode w
    = Ok true (mkWorld (doc w) (<[this := set_range (Some tr') r]> (heap w)) cs).
Proof.
  intros Htext E Etr Hmt Hstops Hfuel.
  unfold RevB._selectNode. rewrite Htext. unfold RevB._selectTextNode.
  rewrite (bind_ok _ _ _ _ _ (load_ok _ _ _ E)).
  rewrite (bind_ok _ _ w w (dom_childNodes (doc w) (_bounder r))) by reflexivity.
  rewrite (bind_ok _ _ w w (dom_innerText (doc w) (_bounder r))) by reflexivity.
  rewrite (bind_ok _ _ _ _ _ (range_moveToElementText_ok _ _ _ _ _ _ E Etr Hmt)).
  set (w1 := mkWorld (doc w) (<[this := set_range (Some tr0) r]> (heap w)) _).
  assert (E1 : heap w1 !! this = Some (set_range (Some tr0) r)).
  { apply (lookup_store this r _ w E). }
  rewrite (bind_ok _ _ _ _ _ (range_collapse_ok this true _ tr0 w1 E1 eq_refl)).
  cbn [doc heap calls w1]. rewrite list_insert_insert_eq.
  set (tr1 := tr_collapse (doc w) tr0 true) in *.
  assert (E2 : (<[this := set_range (Some tr1) (set_range (Some tr0) r)]> (heap w))
               !! this = Some (set_range (Some tr1) (set_range (Some tr0) r))).
  { apply list_lookup_insert_eq. apply lookup_lt_Some in E. exact E. }
  destruct (matchLoop_returns this
              (String.substring 0
                 (Z.to_nat (RevB.lengthBefore (dom_childNodes (doc w) (_bounder r)) 0
                              referenceNode))
                 (dom_innerText (doc w) (_bounder r)))
              (doc w) tr1 n Hstops fuel None false 0 _ _
              ((calls w ++ [MoveToElementText (Some (_bounder r))]) ++ [Collapse true])
              E2 eq_refl Hfuel) as (tr2 & cs2 & Hloop).
  rewrite (bind_ok _ _ _ _ _ Hloop). rewrite list_insert_insert_eq.
  set (h2 := <[this := _]> (heap w)).
  assert (E3 : h2 !! this
               = Some (set_range (Some tr2)
                         (set_range (Some tr1) (set_range (Some tr0) r)))).
  { apply list_lookup_insert_eq. apply lookup_lt_Some in E. exact E. }
  rewrite (bind_ok _ _ _ _ _
             (range_moveEnd_ok this (-1) _ tr2 (mkWorld (doc w) h2 cs2) E3 eq_refl)).
  cbn [doc heap calls]. unfold h2 at 1. rewrite list_insert_insert_eq.
  set (tr3 := fst (tr_moveEnd (doc w) tr2 (-1))).
  set (h3 := <[this := _]> (heap w)).
  assert (E4 : h3 !! this
               = Some (set_range (Some tr3)
                         (set_range (Some tr2)
                            (set_range (Some tr1) (set_range (Some tr0) r))))).
  { apply list_lookup_insert_eq. apply lookup_lt_Some in E. exact E. }
  rewrite (bind_ok _ _ _ _ _
             (range_collapse_ok this false _ tr3 (mkWorld (doc w) h3 _) E4 eq_refl)).
  cbn [doc heap calls]. unfold h3 at 1. rewrite list_insert_insert_eq.
  set (tr4 := tr_collapse (doc w) tr3 false).
  set (h4 := <[this := _]> (heap w)).
  assert (E5 : h4 !! this
               = Some (set_range (Some tr4)
                         (set_range (Some tr3)
                            (set_range (Some tr2)
                               (set_range (Some tr1) (set_range (Some tr0) r)))))).
  { apply list_lookup_insert_eq. apply lookup_lt_Some in E. exact E. }
  rewrite (bind_ok _ _ _ _ _
             (range_moveEnd_ok this (text_length referenceNode) _ tr4
                (mkWorld (doc w) h4 _) E5 eq_refl)).
  cbn [doc heap calls]. unfold h4. rewrite list_insert_insert_eq.
  do 2 eexists. unfold mret, M_ret. f_equal.
Qed.

End MatchLoop.

(** On the README document the forward steps from the start run out after
    the 27 characters of the text. *)
Lemma readme_moveEnd_stops :
  RevB.moveEnd_stops (doc SimpleHost.two_range_world)
    (tr_collapse (doc SimpleHost.two_range_world) (0, 27) true) 27.
Proof.
  do 27 (apply RevB.stops_later). apply RevB.stops_now. vm_compute. reflexivity.
Qed.

Lemma RevB_selectNode_text_returns_witness :
  exists tr' cs,
    RevB._selectNode 29 1 SimpleHost.loose_text SimpleHost.two_range_world
    = Ok true (mkWorld (doc SimpleHost.two_range_world)
                 (<[1%nat := set_range (Some tr') SimpleHost.world_range]>
                    (heap SimpleHost.two_range_world)) cs).
Proof.
  apply (RevB_selectNode_text_returns 27 29 1 SimpleHost.loose_text
           SimpleHost.world_range (6, 11) (0, 27) SimpleHost.two_range_world).
  - reflexivity.
  - reflexivity.
  - reflexivity.
  - reflexivity.
  - exact readme_moveEnd_stops.
  - lia.
Defined.

(** ** What the methods commit *)

Section Commits.
Context {Doc TR : Type} `{!Host Doc TR}.
Local Abbreviation W := (World Doc TR).
Import Common.

Lemma range_pasteHTML_ok (this : nat) (data : string) (r : RangeObj TR) (tr : TR)
    (w : W) :
  heap w !! this = Some r -> _range r = Some tr ->
  range_pasteHTML this data w
  = Ok tt (mkWorld (fst (tr_pasteHTML (doc w) tr data))
             (<[this := set_range (Some (snd (tr_pasteHTML (doc w) tr data))) r]> (heap w))
             (calls w ++ [PasteHTML data])).
Proof.
  intros E Etr. unfold range_pasteHTML.
  rewrite (bind_ok _ _ _ _ _ (cursor_ok _ _ _ _ E Etr)).
  unfold TextRange.pasteHTML, mbind, M_bind, update.
  destruct (tr_pasteHTML (doc w) tr data) as [d' tr']. simpl. rewrite E. reflexivity.
Qed.

(** Moving a Range with [move], committing it and refreshing it with
    [rf]. *)
Lemma move_select_refresh (this : nat) (move : M W unit) (rf : M W bool)
    (w w1 : W) (r1 : RangeObj TR) (tr1 : TR) (b : bool) (w' : W) :
  only_fields this rf ->
  move w = Ok tt w1 -> heap w1 !! this = Some r1 -> _range r1 = Some tr1 ->
  (move ≫= fun _ => range_select this ≫= fun _ => rf ≫= fun _ => mret true) w
  = Ok b w' ->
  b = true /\ doc w' = tr_select (doc w1) tr1 /\
  exists r', heap w' !! this = Some r' /\ _range r' = Some tr1.
Proof.
  intros Hrf Hmove E1 Etr1.
  rewrite (bind_ok _ _ _ _ _ Hmove).
  rewrite (bind_ok _ _ _ _ _ (range_select_ok this r1 tr1 w1 E1 Etr1)).
  set (w2 := mkWorld (tr_select (doc w1) tr1) (heap w1) (calls w1 ++ [Select])).
  specialize (Hrf w2). cbv zeta in Hrf. unfold mbind, M_bind.
  destruct (rf w2) as [b2 w3|e w3|]; try discriminate.
  simpl. intros Hret. injection Hret as <- <-.
  destruct Hrf as (Hd & _ & _ & Ht).
  destruct (Ht r1 E1) as (r' & E' & Hr' & _).
  split; [reflexivity|]. split; [exact Hd|].
  exists r'. split; [exact E'|]. rewrite Hr'. exact Etr1.
Qed.

(** [selectNodeContents] (rangeie.js 282-287) and [selectNode] on an
    element (rangeie.js 262-273, with [_selectElmNode], 485-490), on a
    Range that owns the TextRange [tr]. When the host refuses the node in
    [moveToElementText], both raise the host's error and commit nothing.
    Otherwise, whenever they return they return [true], and the active
    selection of the document is the TextRange they built, which the
    Range then owns: for [selectNodeContents] the text of the node, for
    [selectNode] that text with its start moved back by one character and
    its end moved forward by one. *)
Theorem element_selection_commits (this : nat) (node : Node) (r : RangeObj TR)
    (tr : TR) (w : W) :
  heap w !! this = Some r -> _range r = Some tr ->
  _isTextNode node = false ->
  match tr_moveToElementText (doc w) tr (Some node) with
  | None =>
      RevA.selectNodeContents this node w
      = Throw HostError (TextRange.record (MoveToElementText (Some node)) w) /\
      RevA.selectNode this node w
      = Throw HostError (TextRange.record (MoveToElementText (Some node)) w)
  | Some tr0 =>
      let wide :=
        fst (tr_moveEnd (doc w) (fst (tr_moveStart (doc w) tr0 (-1))) 1) in
      (forall b w', RevA.selectNodeContents this node w = Ok b w' ->
         b = true /\ doc w' = tr_select (doc w) tr0 /\
         exists r', heap w' !! this = Some r' /\ _range r' = Some tr0) /\
      (forall b w', RevA.selectNode this node w = Ok b w' ->
         b = true /\ doc w' = tr_select (doc w) wide /\
         exists r', heap w' !! this = Some r' /\ _range r' = Some wide)
  end.
Proof.
  intros E Etr Helm.
  pose proof (cursor_ok this r tr w E Etr) as Hc.
  destruct (tr_moveToElementText (doc w) tr (Some node)) as [tr0|] eqn:Hmt.
  - pose proof (range_moveToElementText_ok this node r tr tr0 w E Etr Hmt) as Hmove.
    set (w1 := mkWorld (doc w) (<[this := set_range (Some tr0) r]> (heap w))
                       (calls w ++ [MoveToElementText (Some node)])) in *.
    assert (E1 : heap w1 !! this = Some (set_range (Some tr0) r)).
    { apply (lookup_store this r _ w E). }
    intros wide. split.
    + intros b w' Hrun.
      apply (move_select_refresh this (range_moveToElementText this node)
               (RevA._refresh this) w w1 (set_range (Some tr0) r) tr0 b w');
        [apply only_fields_RevA_refresh|exact Hmove|exact E1|reflexivity|].
      exact Hrun.
    + intros b w'. unfold RevA.selectNode, RevA._selectNode. rewrite Helm.
      unfold _selectElmNode.
      pose proof (range_moveStart_ok this (-1) _ tr0 w1 E1 eq_refl) as Hms.
      set (w2 := mkWorld (doc w1) _ _) in Hms.
      assert (E2 : heap w2 !! this
                   = Some (set_range (Some (fst (tr_moveStart (doc w) tr0 (-1))))
                             (set_range (Some tr0) r))).
      { apply (lookup_store this _ _ w1 E1). }
      pose proof (range_moveEnd_ok this 1 _ _ w2 E2 eq_refl) as Hme.
      set (w3 := mkWorld (doc w2) _ _) in Hme.
      assert (E3 : heap w3 !! this
                   = Some (set_range (Some wide)
                             (set_range (Some (fst (tr_moveStart (doc w) tr0 (-1))))
                                (set_range (Some tr0) r)))).
      { apply (lookup_store this _ _ w2 E2). }
      rewrite (bind_ok _ _ w w3 true).
      2:{ rewrite (bind_ok _ _ _ _ _ Hmove), (bind_ok _ _ _ _ _ Hms),
            (bind_ok _ _ _ _ _ Hme). reflexivity. }
      intros Hrun.
      apply (move_select_refresh this (fun w0 => Ok tt w3) (RevA._refresh this)
               w w3
               (set_range (Some wide)
                  (set_range (Some (fst (tr_moveStart (doc w) tr0 (-1))))
                     (set_range (Some tr0) r)))
               wide b w');
        [apply only_fields_RevA_refresh|reflexivity|exact E3|reflexivity|].
      revert Hrun. unfold mbind, M_bind.
      destruct (range_select this w3) as [u w4|e w4|]; try discriminate.
      destruct (RevA._refresh this w4) as [b5 w5|e w5|]; try discriminate.
      simpl. intros Hrun. exact Hrun.
  - assert (Hthrow : range_moveToElementText this node w
                     = Throw HostError
                         (TextRange.record (MoveToElementText (Some node)) w)).
    { unfold range_moveToElementText. rewrite (bind_ok _ _ _ _ _ Hc).
      unfold TextRange.moveToElementText, mbind, M_bind. rewrite Hmt. reflexivity. }
    split.
    + unfold RevA.selectNodeContents. apply bind_throw, Hthrow.
    + unfold RevA.selectNode, RevA._selectNode. rewrite Helm.
      apply bind_throw. unfold _selectElmNode. apply bind_throw, Hthrow.
Qed.

(** Collapsing a Range to its start, refreshing, pasting [data],
    refreshing again and finishing with an action [k] that only reads. *)
Lemma collapse_paste_refresh (this : nat) (data : string) (rf : M W bool)
    {A : Type} (k : M W A) (r : RangeObj TR) (tr : TR) (w : W) (a : A) (w' : W) :
  only_fields this rf -> reads_only k ->
  heap w !! this = Some r -> _range r = Some tr ->
  ((range_collapse this true ≫= fun _ => rf ≫= fun _ => mret true)
     ≫= fun _ => range_pasteHTML this data ≫= fun _ => rf ≫= fun _ => k) w
  = Ok a w' ->
  let pasted := tr_pasteHTML (doc w) (tr_collapse (doc w) tr true) data in
  doc w' = fst pasted /\
  exists r', heap w' !! this = Some r' /\ _range r' = Some (snd pasted).
Proof.
  intros Hrf Hk E Etr.
  pose proof (range_collapse_ok this true r tr w E Etr) as Hcol.
  set (tr1 := tr_collapse (doc w) tr true) in *.
  set (w1 := mkWorld (doc w) (<[this := set_range (Some tr1) r]> (heap w))
                     (calls w ++ [Collapse true])) in *.
  assert (E1 : heap w1 !! this = Some (set_range (Some tr1) r)).
  { apply (lookup_store this r _ w E). }
  pose proof (Hrf w1) as Hrf1. cbv zeta in Hrf1.
  unfold mbind, M_bind. rewrite Hcol.
  destruct (rf w1) as [b1 w2|e w2|]; try discriminate.
  destruct Hrf1 as (Hd2 & _ & _ & Ht2).
  destruct (Ht2 _ E1) as (r2 & E2 & Hr2 & _). simpl in Hr2. simpl.
  rewrite (range_pasteHTML_ok this data r2 tr1 w2 E2 Hr2).
  set (w3 := mkWorld _ _ _).
  assert (E3 : heap w3 !! this
               = Some (set_range (Some (snd (tr_pasteHTML (doc w2) tr1 data))) r2)).
  { apply (lookup_store this r2 _ w2 E2). }
  pose proof (Hrf w3) as Hrf3. cbv zeta in Hrf3.
  destruct (rf w3) as [b3 w4|e w4|]; try discriminate.
  destruct Hrf3 as (Hd4 & _ & _ & Ht4).
  destruct (Ht4 _ E3) as (r4 & E4 & Hr4 & _). simpl in Hr4.
  specialize (Hk w4).
  destruct (k w4) as [a5 w5|e w5|]; try discriminate.
  destruct Hk as (Hd5 & Hh5).
  intros Hret. injection Hret as <- <-. cbv zeta.
  split.
  - rewrite Hd5, Hd4. unfold w3. cbn [doc]. rewrite Hd2. reflexivity.
  - exists r4. rewrite Hh5. split; [exact E4|]. rewrite Hr4, Hd2. reflexivity.
Qed.

(** [insertNode] (rangeie.js 370-375, part_001 327-339) on a Range that
    owns the TextRange [tr]. Whenever it returns, the document is the one
    the host made by pasting at the start of [tr], and the Range owns the
    TextRange the paste left; nothing is committed with [select]. What is
    pasted is the HTML of the node; in revision B, which returns the new
    [commonAncestorContainer], the data of a text node. Revision A
    returns [true]. *)
Theorem insertNode_pastes_at_start (this : nat) (node : Node) (r : RangeObj TR)
    (tr : TR) (w : W) :
  heap w !! this = Some r -> _range r = Some tr ->
  let start := tr_collapse (doc w) tr true in
  let dataB := if _isTextNode node then nodeValue node else outerHTML node in
  (forall b w', RevA.insertNode this node w = Ok b w' ->
     b = true /\
     doc w' = fst (tr_pasteHTML (doc w) start (outerHTML node)) /\
     exists r', heap w' !! this = Some r' /\
                _range r' = Some (snd (tr_pasteHTML (doc w) start (outerHTML node)))) /\
  (forall fuel v w', RevB.insertNode fuel this node w = Ok v w' ->
     doc w' = fst (tr_pasteHTML (doc w) start dataB) /\
     exists r', heap w' !! this = Some r' /\
                _range r' = Some (snd (tr_pasteHTML (doc w) start dataB)) /\
                v = commonAncestorContainer r').
Proof.
  intros E Etr start dataB. split.
  - intros b w' Hrun.
    assert (Hb : b = true).
    { revert Hrun. unfold RevA.insertNode, mbind, M_bind.
      destruct (RevA.collapse this true w) as [x w1|e w1|]; try discriminate.
      destruct (range_pasteHTML this (outerHTML node) w1) as [y w2|e w2|];
        try discriminate.
      destruct (RevA._refresh this w2) as [z w3|e w3|]; try discriminate.
      simpl. intros Hrun. injection Hrun as <- _. reflexivity. }
    split; [exact Hb|].
    apply (collapse_paste_refresh this (outerHTML node) (RevA._refresh this)
             (mret true) r tr w b w');
      [apply only_fields_RevA_refresh|apply reads_only_ret
      |exact E|exact Etr|exact Hrun].
  - intros fuel v w' Hrun.
    pose proof (collapse_paste_refresh this dataB (RevB._refresh fuel this)
                  (load this ≫= fun r0 => mret (commonAncestorContainer r0))
                  r tr w v w') as Hshape.
    destruct Hshape as (Hd & r' & E' & Hr');
      [apply only_fields_RevB_refresh
      |apply reads_only_bind; [apply reads_only_load|intros r0; apply reads_only_ret]
      |exact E|exact Etr|exact Hrun|].
    split; [exact Hd|]. exists r'. split; [exact E'|]. split; [exact Hr'|].
    revert Hrun. unfold RevB.insertNode, mbind, M_bind.
    destruct (RevB.collapse fuel this true w) as [x w1|e w1|]; try discriminate.
    destruct (range_pasteHTML this _ w1) as [y w2|e w2|]; try discriminate.
    destruct (RevB._refresh fuel this w2) as [z w3|e w3|]; try discriminate.
    unfold load. destruct (heap w3 !! this) as [r3|] eqn:E3; try discriminate.
    simpl. intros Hrun. injection Hrun as <- <-.
    rewrite E3 in E'. injection E' as <-. reflexivity.
Qed.

End Commits.

Lemma element_selection_commits_witness :
  let w := SimpleHost.two_range_world in
  let wide := fst (tr_moveEnd (doc w) (fst (tr_moveStart (doc w) (12, 19) (-1))) 1) in
  (forall b w', RevA.selectNodeContents 1 SimpleHost.span w = Ok b w' ->
     b = true /\ doc w' = tr_select (doc w) (12, 19) /\
     exists r', heap w' !! 1%nat = Some r' /\ _range r' = Some (12, 19)) /\
  (forall b w', RevA.selectNode 1 SimpleHost.span w = Ok b w' ->
     b = true /\ doc w' = tr_select (doc w) wide /\
     exists r', heap w' !! 1%nat = Some r' /\ _range r' = Some wide).
Proof.
  exact (element_selection_commits 1 SimpleHost.span SimpleHost.world_range (6, 11)
           SimpleHost.two_range_world eq_refl eq_refl eq_refl).
Defined.

Lemma insertNode_pastes_at_start_witness :
  let w := SimpleHost.two_range_world in
  let start := tr_collapse (doc w) (6, 11) true in
  let dataB := if _isTextNode SimpleHost.loose
               then nodeValue SimpleHost.loose else outerHTML SimpleHost.loose in
  (forall b w', RevA.insertNode 1 SimpleHost.loose w = Ok b w' ->
     b = true /\
     doc w' = fst (tr_pasteHTML (doc w) start (outerHTML SimpleHost.loose)) /\
     exists r', heap w' !! 1%nat = Some r' /\
                _range r'
                = Some (snd (tr_pasteHTML (doc w) start (outerHTML SimpleHost.loose)))) /\
  (forall fuel v w', RevB.insertNode fuel 1 SimpleHost.loose w = Ok v w' ->
     doc w' = fst (tr_pasteHTML (doc w) start dataB) /\
     exists r', heap w' !! 1%nat = Some r' /\
                _range r' = Some (snd (tr_pasteHTML (doc w) start dataB)) /\
                v = commonAncestorContainer r').
Proof.
  exact (insertNode_pastes_at_start 1 SimpleHost.loose SimpleHost.world_range (6, 11)
           SimpleHost.two_range_world eq_refl eq_refl).
Defined.

(** ** The guarded loop and the Selection of revision B on the README
    document *)

Lemma RevB_removeRange_spec_witness :
  let sel := mkSelection [Some 0%nat; Some 1%nat] in
  let w := SimpleHost.two_range_world in
  ((forall i, range_at sel i <> Some 1%nat) ->
     RevB.removeRange sel 1 w = Ok (sel, false) w) /\
  ((exists i, range_at sel i = Some 1%nat) ->
     exists sel',
       RevB.removeRange sel 1 w
       = Ok (sel', true)
            (Common.store 1
               (Common.reset_fields (set_range None SimpleHost.world_range)) w) /\
       S (length (_ranges sel')) = length (_ranges sel)).
Proof.
  exact (RevB_removeRange_spec (mkSelection [Some 0%nat; Some 1%nat]) 1
           SimpleHost.world_range SimpleHost.two_range_world eq_refl).
Defined.

Lemma RevB_probe_guard_witness :
  exists (n : nat) out w',
    RevB.absOffset out = 0 /\
    forall fuel, (n <= fuel)%nat ->
      RevB.probe_loop fuel SimpleHost.bounderNode (RevB.probe_init (2, 2))
        SimpleHost.caret_world = Ok out w'.
Proof.
  eapply (RevB_probe_guard SimpleHost.bounderNode (RevB.probe_init (2, 2)) _
            SimpleHost.caret_world _ simple_host_zero_move).
  - left. reflexivity.
  - eapply RevB.reaches_next; [vm_compute; reflexivity|].
    eapply RevB.reaches_next; [vm_compute; reflexivity|].
    apply RevB.reaches_here.
  - vm_compute. reflexivity.
Defined.
